(** * likert-chart: the tabular aggregation engine

    A shallow embedding of the data functions of the dashboard
    (src/components/likert-chart.tsx, pivot-chart.tsx,
    medical-data-chart.tsx, file-upload.tsx and the unnamed variants)
    and the properties its specification states about them, followed by
    further properties of the parsers, the filter options and the filter
    handlers.

    Modelling conventions.
    - A JavaScript string is a [string]: a sequence of code units, here
      the code units below 256.
    - A row ([DataItem]) is only ever read by key, so it is a
      [gmap string _] of its own properties; a lookup that returns
      [None] is a row without an own property of this name.  Only
      [getFilterOptions] enumerates
      the properties of a row: there the row is the ordered object
      [Row], and [item_of] gives the same row read by key.
    - The accumulator objects ([conditionCounts], [stats], [counts]) are
      enumerated with [Object.entries], so they are kept as ordered
      objects ([JS.obj]): own properties in creation order, enumerated
      with the array-index keys first, in ascending numeric order.
    - An object made by [{}] inherits the properties of
      [Object.prototype].  Where the source reads a row or an
      accumulator by a key taken from the data, the read goes through
      [JS.row_read] or [JS.obj_read], which tell an own property from an
      inherited one and from [undefined], and an assignment goes through
      [JS.obj_assign] or [JS.row_assign].  A function that can throw, or
      whose result depends on what it has written to a built-in object,
      ends as a [JS.outcome].  Every call is taken from the pristine
      built-in objects: what a call writes to one of them is not carried
      over to the next call.
    - The column of a filter is a column offered by [getFilterOptions],
      which offers no inherited name, and the rows of one table all have
      the same columns, as the parsers make them: the filter callback of
      the Comparator, its list of responses and the filter handlers read
      their keys as own properties.
    - Row and token counters are JavaScript numbers that only ever hold
      non-negative integers obtained by adding 1; binary64 represents
      them exactly below 2^53, and they are modelled as [Z] (so that the
      negated count -0 is 0).  The measure accumulators of the Group
      Aggregator and the cells of the pivot table hold arbitrary numbers
      and are binary64 [float]s, with the arithmetic of the language.
    - [Number.parseFloat] and [Number] on strings follow the grammar of
      StrDecimalLiteral and StringNumericLiteral and round to the
      nearest binary64; [Number::toString], which the pivot uses to
      turn numeric cells into key text, is a parameter, and so is the
      case conversion [String.prototype.toLowerCase], which depends on
      the context of a letter. *)

From Stdlib Require Import ZArith NArith Ascii String List Bool Lia.
From Stdlib Require Import Sorted Permutation.
From Stdlib Require Import Floats.
From stdpp Require Import base list gmap strings.

Import ListNotations.
Local Open Scope string_scope.
Local Open Scope Z_scope.

(** ** JavaScript built-ins used by the source *)

Module JS.

(** *** Strings *)

(** WhiteSpace and LineTerminator code units below 256: TAB, LF, VT,
    FF, CR, SP and NBSP. *)
Definition is_ws (c : ascii) : bool :=
  let n := N_of_ascii c in
  ((9 <=? n)%N && (n <=? 13)%N) || (n =? 32)%N || (n =? 160)%N.

Fixpoint trim_start (s : string) : string :=
  match s with
  | EmptyString => EmptyString
  | String c s' => if is_ws c then trim_start s' else s
  end.

Fixpoint trim_end (s : string) : string :=
  match s with
  | EmptyString => EmptyString
  | String c s' =>
      match trim_end s' with
      | EmptyString => if is_ws c then EmptyString else String c EmptyString
      | t => String c t
      end
  end.

(** [String.prototype.trim]. *)
Definition trim (s : string) : string := trim_end (trim_start s).

Fixpoint rev_string (acc s : string) : string :=
  match s with
  | EmptyString => acc
  | String c s' => rev_string (String c acc) s'
  end.

(** [split_from sep skip cur s]: [cur] is the current token, reversed;
    [skip] counts the code units of a matched separator that are still
    to be dropped. *)
Fixpoint split_from (sep : string) (skip : nat) (cur s : string) : list string :=
  match s with
  | EmptyString => [rev_string EmptyString cur]
  | String c s' =>
      match skip with
      | S k => split_from sep k cur s'
      | O =>
          if String.prefix sep s
          then rev_string EmptyString cur
                 :: split_from sep (Nat.pred (String.length sep)) EmptyString s'
          else split_from sep O (String c cur) s'
      end
  end.

(** [String.prototype.split] with a non-empty separator. *)
Definition split (sep s : string) : list string :=
  split_from sep O EmptyString s.

(** [Array.prototype.join]. *)
Definition join (sep : string) (l : list string) : string :=
  String.concat sep l.

(** A string is truthy when it is not empty. *)
Definition truthy (s : string) : bool := negb (s =? "")%string.

(** *** Arrays *)

(** [Array.from(new Set(l))]: the elements of [l] without repetition,
    in order of first occurrence. *)
Definition array_from_set {A} `{EqDecision A} (l : list A) : list A :=
  fold_left (fun seen x => if decide (x ∈ seen) then seen else (seen ++ [x])%list) l [].

Section Sort.
Context {A : Type}.
(** [after a b]: the comparator called on [(a, b)] returns a positive
    number, that is, [a] has to come after [b]. *)
Variable after : A -> A -> bool.

Fixpoint sort_insert (x : A) (l : list A) : list A :=
  match l with
  | [] => [x]
  | y :: l' => if after x y then y :: sort_insert x l' else x :: l
  end.

(** [Array.prototype.sort] with a consistent comparator: the stable
    sort (ES2019). *)
Definition sort (l : list A) : list A := fold_right sort_insert [] l.
End Sort.

(** [Array.prototype.sort] without a comparator, on strings: order of
    the code units. *)
Definition sort_strings (l : list string) : list string :=
  sort (fun a b => String.ltb b a) l.

(** *** Objects *)

(** The own properties of an object, in creation order. *)
Definition obj (V : Type) : Type := list (string * V).

Fixpoint obj_get {V} (o : obj V) (k : string) : option V :=
  match o with
  | [] => None
  | (k', v) :: o' => if (k' =? k)%string then Some v else obj_get o' k
  end.

(** [o[k] = v]: an existing property keeps its place. *)
Fixpoint obj_set {V} (o : obj V) (k : string) (v : V) : obj V :=
  match o with
  | [] => [(k, v)]
  | (k', v') :: o' =>
      if (k' =? k)%string then (k, v) :: o' else (k', v') :: obj_set o' k v
  end.

Definition is_digit (c : ascii) : bool :=
  let n := N_of_ascii c in (48 <=? n)%N && (n <=? 57)%N.

Definition digit_val (c : ascii) : Z := Z.of_N (N_of_ascii c) - 48.

Fixpoint all_digits (s : string) : bool :=
  match s with
  | EmptyString => true
  | String c s' => is_digit c && all_digits s'
  end.

Fixpoint digits_val (acc : Z) (s : string) : Z :=
  match s with
  | EmptyString => acc
  | String c s' => digits_val (10 * acc + digit_val c) s'
  end.

(** A property key is an array index when it is the canonical decimal
    form of an integer below 2^32 - 1. *)
Definition array_index (k : string) : option Z :=
  match k with
  | EmptyString => None
  | String c s' =>
      if all_digits k && (negb (c =? "0")%char || (s' =? "")%string)
      then let n := digits_val 0 k in
           if n <? 4294967295 then Some n else None
      else None
  end.

Definition is_index {V} (kv : string * V) : bool :=
  match array_index (fst kv) with Some _ => true | None => false end.

Definition index_after {V} (a b : string * V) : bool :=
  match array_index (fst a), array_index (fst b) with
  | Some i, Some j => j <? i
  | _, _ => false
  end.

(** [Object.entries] (OrdinaryOwnPropertyKeys): array-index keys in
    ascending numeric order, then the other keys in creation order. *)
Definition obj_entries {V} (o : obj V) : list (string * V) :=
  (sort index_after (List.filter is_index o)
     ++ List.filter (fun kv => negb (is_index kv)) o)%list.

(** *** Inherited properties

    An object created by [{}] inherits the properties of
    [Object.prototype].  Their values are built-in functions, but for
    ["__proto__"], an accessor whose getter gives the prototype itself
    and whose setter ignores a value that is not an object. *)
Definition prototype_keys : list string :=
  ["constructor"; "hasOwnProperty"; "isPrototypeOf"; "propertyIsEnumerable";
   "toLocaleString"; "toString"; "valueOf"; "__proto__"; "__defineGetter__";
   "__defineSetter__"; "__lookupGetter__"; "__lookupSetter__"].

Definition inherited (k : string) : bool := existsb (String.eqb k) prototype_keys.

(** What [o[k]] evaluates to. *)
Inductive read (V : Type) : Type :=
| Own (v : V)         (* the own property [k] *)
| Proto (k : string)  (* the object that [Object.prototype] holds under [k] *)
| Undef.              (* [undefined] *)
Arguments Own {V} v.
Arguments Proto {V} k.
Arguments Undef {V}.

Definition obj_read {V} (o : obj V) (k : string) : read V :=
  match obj_get o k with
  | Some v => Own v
  | None => if inherited k then Proto k else Undef
  end.

(** The same for an object that is only ever read by key. *)
Definition row_read {V} (item : gmap string V) (k : string) : read V :=
  match item !! k with
  | Some v => Own v
  | None => if inherited k then Proto k else Undef
  end.

(** [o[k] = v] for a [v] that is not an object: without an own property
    ["__proto__"] the assignment to this name reaches the setter, which
    ignores the value. *)
Definition obj_assign {V} (o : obj V) (k : string) (v : V) : obj V :=
  match obj_get o k with
  | Some _ => obj_set o k v
  | None => if (k =? "__proto__")%string then o else obj_set o k v
  end.

Definition row_assign {V} (item : gmap string V) (k : string) (v : V)
    : gmap string V :=
  match item !! k with
  | Some _ => <[k := v]> item
  | None => if (k =? "__proto__")%string then item else <[k := v]> item
  end.

(** A value read from a row of strings, in a condition. *)
Definition read_truthy (r : read string) : bool :=
  match r with
  | Own v => truthy v
  | Proto _ => true
  | Undef => false
  end.

(** [String(x)] for an inherited object [x]: ["[object Object]"] for the
    prototype; the text of a built-in function is implementation-defined
    up to its white space, and this is the text that V8 gives. *)
Definition object_text (k : string) : string :=
  if (k =? "__proto__")%string then "[object Object]"
  else "function " ++ (if (k =? "constructor")%string then "Object" else k)
       ++ "() { [native code] }".

(** *** How a call ends *)

Inductive outcome (A : Type) : Type :=
| Returns (a : A)
| Throws          (* a TypeError is thrown *)
| Undetermined.   (* the result depends on the engine or on properties of
                     built-in objects that are not modelled here *)
Arguments Returns {A} a.
Arguments Throws {A}.
Arguments Undetermined {A}.

Definition bind {A B} (m : outcome A) (f : A -> outcome B) : outcome B :=
  match m with
  | Returns a => f a
  | Throws => Throws
  | Undetermined => Undetermined
  end.

(** [forEach] with a body that may throw, threading the state. *)
Fixpoint foldM {A B} (f : A -> B -> outcome A) (l : list B) (a : A) : outcome A :=
  match l with
  | [] => Returns a
  | b :: l' => bind (f a b) (foldM f l')
  end.

(** [map] and [filter] with a callback that may throw. *)
Fixpoint mapM {A B} (f : A -> outcome B) (l : list A) : outcome (list B) :=
  match l with
  | [] => Returns []
  | a :: l' => bind (f a) (fun b => bind (mapM f l') (fun bs => Returns (b :: bs)))
  end.

Fixpoint filterM {A} (p : A -> outcome bool) (l : list A) : outcome (list A) :=
  match l with
  | [] => Returns []
  | a :: l' =>
      bind (p a) (fun keep =>
        bind (filterM p l') (fun rest => Returns (if keep then a :: rest else rest)))
  end.

(** *** Numbers *)

(** The Number value of the integer [z]. *)
Definition of_Z (z : Z) : float := SF2Prim (binary_normalize prec emax z 0 false).

(** [x || 0] on a number: NaN, +0 and -0 are falsy. *)
Definition or0 (x : float) : float :=
  if PrimFloat.is_nan x || PrimFloat.is_zero x then 0%float else x.

(** The Number value of the decimal [m * 10^e], [m >= 0], with sign
    [neg]: the binary64 nearest to it, ties to even. *)
Definition of_decimal (neg : bool) (m e : Z) : float :=
  SF2Prim
    match m with
    | Zpos p =>
        if 0 <=? e then binary_round prec emax neg (Z.to_pos (m * 10 ^ e)) 0
        else let '(q, e', l) := SFdiv_core_binary prec emax m 0 (10 ^ (- e)) 0 in
             binary_round_aux prec emax neg q e' l
    | _ => S754_zero neg
    end.

Fixpoint take_digits (s : string) : string * string :=
  match s with
  | String c s' =>
      if is_digit c then let '(d, r) := take_digits s' in (String c d, r)
      else (EmptyString, s)
  | EmptyString => (EmptyString, EmptyString)
  end.

(** An optional ExponentPart in front of [s]: its value and what
    follows it. *)
Definition scan_exponent (s : string) : Z * string :=
  match s with
  | String c s1 =>
      if (c =? "e")%char || (c =? "E")%char then
        let '(neg, s2) :=
          match s1 with
          | String "+" t => (false, t)
          | String "-" t => (true, t)
          | _ => (false, s1)
          end in
        let '(ds, rest) := take_digits s2 in
        if (ds =? "")%string then (0, s)
        else ((if neg then - digits_val 0 ds else digits_val 0 ds), rest)
      else (0, s)
  | EmptyString => (0, s)
  end.

Fixpoint drop (n : nat) (s : string) : string :=
  match n, s with
  | S k, String _ s' => drop k s'
  | _, _ => s
  end.

(** The longest StrUnsignedDecimalLiteral in front of [s]: [None] for
    Infinity, [Some (m, e)] for the decimal [m * 10^e]. *)
Definition scan_unsigned (s : string) : option (option (Z * Z) * string) :=
  if String.prefix "Infinity" s then Some (None, drop 8 s)
  else
    let '(ip, s1) := take_digits s in
    match s1 with
    | String "." s2 =>
        let '(fp, s3) := take_digits s2 in
        if (ip =? "")%string && (fp =? "")%string then None
        else
          let '(ex, rest) := scan_exponent s3 in
          Some (Some (digits_val 0 (ip ++ fp), ex - Z.of_nat (String.length fp)), rest)
    | _ =>
        if (ip =? "")%string then None
        else let '(ex, rest) := scan_exponent s1 in
             Some (Some (digits_val 0 ip, ex), rest)
    end.

(** The longest StrDecimalLiteral in front of [s]: its Number value and
    what follows it. *)
Definition scan_decimal (s : string) : option (float * string) :=
  let '(neg, s1) :=
    match s with
    | String "+" t => (false, t)
    | String "-" t => (true, t)
    | _ => (false, s)
    end in
  match scan_unsigned s1 with
  | Some (None, rest) => Some ((if neg then neg_infinity else infinity), rest)
  | Some (Some (m, e), rest) => Some (of_decimal neg m e, rest)
  | None => None
  end.

(** [Number.parseFloat]. *)
Definition parseFloat (s : string) : float :=
  match scan_decimal (trim_start s) with
  | Some (x, _) => x
  | None => nan
  end.

Definition radix_digit (base : Z) (c : ascii) : option Z :=
  let n := Z.of_N (N_of_ascii c) in
  let d := if (48 <=? n) && (n <=? 57) then n - 48
           else if (97 <=? n) && (n <=? 102) then n - 87
           else if (65 <=? n) && (n <=? 70) then n - 55
           else 16 in
  if d <? base then Some d else None.

Fixpoint radix_val (base acc : Z) (s : string) : option Z :=
  match s with
  | EmptyString => Some acc
  | String c s' =>
      match radix_digit base c with
      | Some d => radix_val base (base * acc + d) s'
      | None => None
      end
  end.

(** A NonDecimalIntegerLiteral: 0x, 0o or 0b and at least one digit. *)
Definition scan_radix (s : string) : option Z :=
  match s with
  | String "0" (String c (String d ds)) =>
      let base := if (c =? "x")%char || (c =? "X")%char then 16
                  else if (c =? "o")%char || (c =? "O")%char then 8
                  else if (c =? "b")%char || (c =? "B")%char then 2
                  else 0 in
      radix_val base 0 (String d ds)
  | _ => None
  end.

(** [Number(s)] on a string (StringToNumber). *)
Definition string_to_number (s : string) : float :=
  let t := trim s in
  if (t =? "")%string then 0%float
  else match scan_decimal t with
       | Some (x, EmptyString) => x
       | _ => match scan_radix t with
              | Some n => of_Z n
              | None => nan
              end
       end.

(** A value that is a string or a number. *)
Inductive value := VStr (s : string) | VNum (x : float).

(** [Number(v)], [undefined] being [None]. *)
Definition to_number (v : option value) : float :=
  match v with
  | Some (VNum x) => x
  | Some (VStr s) => string_to_number s
  | None => nan
  end.

End JS.

(** ** Rows *)

(** [interface DataItem { [key: string]: string }]. *)
Abbreviation DataItem := (gmap string string).

(** [Record<string, string[]>]: the allow-lists of the active filters. *)
Abbreviation Filters := (JS.obj (list string)).

(** [values.includes(v)]. *)
Definition includes (values : list string) (v : string) : bool :=
  existsb (String.eqb v) values.

(** ** Two-Category Comparator (likert-chart.tsx, second component) *)

Module Comparator.

Record Stat := { left : Z; right : Z; total : Z }.

Record ProcessedDataItem := {
  condition : string;
  leftValue : Z;
  rightValue : Z;
  leftLabel : string;
  rightLabel : string;
  itemTotal : Z  (* [total] in the source *)
}.

Record Result := {
  data : list ProcessedDataItem;
  categories : string * string
}.

Definition empty_result : Result := {| data := []; categories := ("", "") |}.

(** The filter callback of [data.filter]. *)
Definition passes (filters : Filters) (item : DataItem) : bool :=
  forallb
    (fun '(column, values) =>
       match values with
       | [] => true
       | _ =>
           match item !! column with
           | None => false
           | Some v =>
               let itemValue := JS.trim v in
               JS.truthy itemValue && includes values itemValue
           end
       end)
    (JS.obj_entries filters).

Definition filteredData (data : list DataItem) (filters : Filters) : list DataItem :=
  List.filter (passes filters) data.

(** [.filter(Boolean)] on the response values. *)
Definition keep_truthy (l : list (option string)) : list string :=
  flat_map (fun o => match o with
                     | Some s => if JS.truthy s then [s] else []
                     | None => []
                     end) l.

Definition uniqueResponses (fd : list DataItem) (responseColumn : string) : list string :=
  JS.sort_strings
    (keep_truthy (JS.array_from_set (map (fun item => item !! responseColumn) fd))).

(** The property name that [stats[condition]] uses for the value read
    as [condition]: the string itself, or the text of an inherited
    object. *)
Definition key_of (condition : JS.read string) : string :=
  match condition with
  | JS.Own v => v
  | JS.Proto k => JS.object_text k
  | JS.Undef => "undefined"
  end.

(** [response === category], the categories being strings. *)
Definition is_category (response : JS.read string) (category : string) : bool :=
  match response with
  | JS.Own r => (r =? category)%string
  | _ => false
  end.

(** The body of [filteredData.forEach].  When the name of the condition
    is one that [stats] inherits, [stats[condition]] is the inherited
    object: no entry is made, and the counters are written to that
    object, where nothing reads them. *)
Definition tally (conditionColumn responseColumn leftCategory rightCategory : string)
    (stats : JS.obj Stat) (item : DataItem) : JS.obj Stat :=
  let condition := JS.row_read item conditionColumn in
  let response := JS.row_read item responseColumn in
  if negb (JS.read_truthy condition) || negb (JS.read_truthy response) then stats
  else
    match JS.obj_read stats (key_of condition) with
    | JS.Proto _ => stats
    | entry =>
        let c := match entry with
                 | JS.Own c => c
                 | _ => {| left := 0; right := 0; total := 0 |}
                 end in
        let c := {| left := left c; right := right c; total := total c + 1 |} in
        let c :=
          if is_category response leftCategory
          then {| left := left c + 1; right := right c; total := total c |}
          else if is_category response rightCategory
          then {| left := left c; right := right c + 1; total := total c |}
          else c in
        JS.obj_set stats (key_of condition) c
    end.

Definition record_of (leftCategory rightCategory : string)
    (entry : string * Stat) : ProcessedDataItem :=
  let '(condition, counts) := entry in
  {| condition := condition;
     leftValue := - left counts;
     rightValue := right counts;
     leftLabel := leftCategory;
     rightLabel := rightCategory;
     itemTotal := total counts |}.

(** [(a, b) => b.total - a.total] is positive. *)
Definition by_total (a b : ProcessedDataItem) : bool :=
  0 <? itemTotal b - itemTotal a.

Definition processData (data : list DataItem)
    (conditionColumn responseColumn : string) (filters : Filters) : Result :=
  if (length data =? 0)%nat || negb (JS.truthy responseColumn) then empty_result
  else
    let fd := filteredData data filters in
    match uniqueResponses fd responseColumn with
    | leftCategory :: rightCategory :: _ =>
        let stats :=
          fold_left (tally conditionColumn responseColumn leftCategory rightCategory)
            fd [] in
        {| data := JS.sort by_total
                     (map (record_of leftCategory rightCategory) (JS.obj_entries stats));
           categories := (leftCategory, rightCategory) |}
    | _ => empty_result
    end.

End Comparator.


(** ** Tabular Parser (likert-chart.tsx, [parseFile], the csv branch) *)

Module Parser.

Record Parsed := { headers : list string; data : list DataItem }.

Definition LF : string := String "010"%char EmptyString.

(** [values[index]?.trim() || ""]. *)
Definition cell (values : list string) (index : nat) : string :=
  match nth_error values index with
  | Some v => let t := JS.trim v in if JS.truthy t then t else ""
  | None => ""
  end.

(** [headers.reduce((obj, header, index) => ..., obj)], from [index] on. *)
Fixpoint reduce (values : list string) (index : nat) (headers : list string)
    (obj : DataItem) : DataItem :=
  match headers with
  | [] => obj
  | header :: rest =>
      reduce values (S index) rest (JS.row_assign obj header (cell values index))
  end.

Definition row_of (headers : list string) (line : string) : DataItem :=
  reduce (JS.split "," line) 0 headers ∅.

(** [Object.values(item).some((v) => v)]. *)
Definition some_value (item : DataItem) : bool :=
  existsb JS.truthy (map snd (map_to_list item)).

Definition parseFile (result : string) : Parsed :=
  let lines := JS.split LF result in
  let headers := map JS.trim (JS.split "," (hd "" lines)) in
  {| headers := headers;
     data := List.filter some_value (map (row_of headers) (tl lines)) |}.

End Parser.

(** ** Trimming, for the statements about the parsers *)

Module ParserSpec.

(** Only white space. *)
Fixpoint blank (s : string) : bool :=
  match s with
  | EmptyString => true
  | String c s' => JS.is_ws c && blank s'
  end.

Definition first_char (s : string) : option ascii :=
  match s with
  | EmptyString => None
  | String c _ => Some c
  end.

Fixpoint last_char (s : string) : option ascii :=
  match s with
  | EmptyString => None
  | String c EmptyString => Some c
  | String _ s' => last_char s'
  end.

(** [t] is [s] without the white space at its two ends. *)
Definition trimmed_of (s t : string) : Prop :=
  exists pre post,
    s = (pre ++ t ++ post)%string
    /\ blank pre = true
    /\ blank post = true
    /\ (forall c, first_char t = Some c -> JS.is_ws c = false)
    /\ (forall c, last_char t = Some c -> JS.is_ws c = false).

End ParserSpec.

(** ** Group Aggregator (likert-chart.tsx, first component) *)

Module GroupAggregator.

(** One entry of [conditionCounts]. *)
Record Counts := { total : Z; counts : JS.obj float }.

(** [interface ProcessedDataItem]: [condition] and one property per
    selected column. *)
Abbreviation ProcessedDataItem := (JS.obj JS.value).

(** The filter callback of [data.filter]; an inherited object is not
    among the strings of an allow-list. *)
Definition passes (filters : Filters) (item : DataItem) : bool :=
  forallb
    (fun '(column, values) =>
       match values with
       | [] => true
       | _ =>
           match item !! column with
           | Some v => includes values v
           | None => false
           end
       end)
    (JS.obj_entries filters).

Definition filteredData (data : list DataItem) (filters : Filters) : list DataItem :=
  List.filter (passes filters) data.

(** Reading [counts[col]] in arithmetic.  Every selected column is an
    own property from the creation of the group, but for ["__proto__"],
    under which the prototype is read: that converts to NaN, as
    [undefined] does. *)
Definition num (cs : JS.obj float) (col : string) : float :=
  match JS.obj_get cs col with
  | Some x => x
  | None => nan
  end.

(** The body of the inner [selectedColumns.forEach].  An inherited
    object read from the row is truthy and does not parse as a number. *)
Definition add_cell (item : DataItem) (cs : JS.obj float) (col : string) : JS.obj float :=
  match JS.row_read item col with
  | JS.Own value =>
      if JS.truthy value then
        let numValue := JS.parseFloat value in
        if negb (PrimFloat.is_nan numValue)
        then JS.obj_assign cs col (num cs col + numValue)%float
        else JS.obj_assign cs col (num cs col + 1)%float
      else cs
  | JS.Proto _ => JS.obj_assign cs col (num cs col + 1)%float
  | JS.Undef => cs
  end.

Definition new_counts (selectedColumns : list string) : Counts :=
  {| total := 0;
     counts := fold_left (fun cs col => JS.obj_assign cs col 0%float) selectedColumns [] |}.

(** What [conditions.forEach] makes of the entry [c] of a group. *)
Definition counted (selectedColumns : list string) (item : DataItem) (c : Counts)
    : Counts :=
  {| total := total c + 1;
     counts := fold_left (add_cell item) selectedColumns (counts c) |}.

(** [if (value)] on [item[col]]. *)
Definition cell_truthy (item : DataItem) (col : string) : bool :=
  JS.read_truthy (JS.row_read item col).

(** The body of [conditions.forEach].  When the name of the condition
    is one that [conditionCounts] inherits, [conditionCounts[condition]]
    is the inherited object: no group is created, [total] is written to
    that object, and the first selected column with a truthy cell reads
    [counts] of it, which is [undefined], and throws. *)
Definition count_condition (selectedColumns : list string) (item : DataItem)
    (conditionCounts : JS.obj Counts) (condition : string)
    : JS.outcome (JS.obj Counts) :=
  match JS.obj_read conditionCounts condition with
  | JS.Own c =>
      JS.Returns (JS.obj_set conditionCounts condition (counted selectedColumns item c))
  | JS.Undef =>
      JS.Returns (JS.obj_set conditionCounts condition
                    (counted selectedColumns item (new_counts selectedColumns)))
  | JS.Proto _ =>
      if existsb (cell_truthy item) selectedColumns then JS.Throws
      else JS.Returns conditionCounts
  end.

(** The conditions of a row: none when the condition value is empty or
    missing; an inherited object has no method [split]. *)
Definition conditions (conditionColumn : string) (item : DataItem)
    : JS.outcome (list string) :=
  match JS.row_read item conditionColumn with
  | JS.Own v => JS.Returns (if JS.truthy v then JS.split ", " v else [])
  | JS.Proto _ => JS.Throws
  | JS.Undef => JS.Returns []
  end.

(** The body of [filteredData.forEach]. *)
Definition count_row (conditionColumn : string) (selectedColumns : list string)
    (conditionCounts : JS.obj Counts) (item : DataItem) : JS.outcome (JS.obj Counts) :=
  JS.bind (conditions conditionColumn item)
    (fun conds => JS.foldM (count_condition selectedColumns item) conds conditionCounts).

(** [!isNaN(Number.parseFloat(data[0]?.[col] || ""))]; an inherited
    object does not parse as a number, no more than the empty string. *)
Definition isNumeric (data : list DataItem) (col : string) : bool :=
  negb (PrimFloat.is_nan
          (JS.parseFloat
             match data with
             | d :: _ => match d !! col with
                         | Some v => if JS.truthy v then v else ""
                         | None => ""
                         end
             | [] => ""
             end)).

(** The value reported for a column. *)
Definition reported (numeric : bool) (sum : float) (total : Z) : float :=
  if numeric then JS.or0 (sum / JS.of_Z total)%float
  else JS.or0 ((sum / JS.of_Z total) * 100)%float.

(** [Object.fromEntries(pairs)]. *)
Definition fromEntries {V} (pairs : list (string * V)) : JS.obj V :=
  fold_left (fun o kv => JS.obj_set o (fst kv) (snd kv)) pairs [].

(** [{ condition, ...rest }]. *)
Definition record_of (data : list DataItem) (selectedColumns : list string)
    (entry : string * Counts) : ProcessedDataItem :=
  let '(condition, c) := entry in
  fold_left (fun o kv => JS.obj_set o (fst kv) (snd kv))
    (JS.obj_entries
       (fromEntries
          (map (fun col =>
                  (col, JS.VNum (reported (isNumeric data col)
                                   (num (counts c) col) (total c))))
             selectedColumns)))
    [("condition", JS.VStr condition)].

(** [selectedColumns[0]] used as a property key. *)
Definition first_key (selectedColumns : list string) : string :=
  match selectedColumns with
  | col :: _ => col
  | [] => "undefined"
  end.

(** [a[selectedColumns[0]] || 0], as the number the subtraction sees. *)
Definition primary (selectedColumns : list string) (a : ProcessedDataItem) : float :=
  match JS.obj_get a (first_key selectedColumns) with
  | Some (JS.VNum x) => JS.or0 x
  | Some (JS.VStr s) => if JS.truthy s then JS.string_to_number s else 0%float
  | None => 0%float
  end.

(** [(bValue || 0) - (aValue || 0)] is positive. *)
Definition by_first (selectedColumns : list string) (a b : ProcessedDataItem) : bool :=
  (0 <? primary selectedColumns b - primary selectedColumns a)%float.

Definition conditionCounts (data : list DataItem) (conditionColumn : string)
    (selectedColumns : list string) (filters : Filters) : JS.outcome (JS.obj Counts) :=
  JS.foldM (count_row conditionColumn selectedColumns) (filteredData data filters) [].

(** What follows the loop. *)
Definition records (data : list DataItem) (selectedColumns : list string)
    (conditionCounts : JS.obj Counts) : list ProcessedDataItem :=
  firstn 20
    (JS.sort (by_first selectedColumns)
       (map (record_of data selectedColumns) (JS.obj_entries conditionCounts))).

Definition processData (data : list DataItem) (conditionColumn : string)
    (selectedColumns : list string) (filters : Filters)
    : JS.outcome (list ProcessedDataItem) :=
  if (length data =? 0)%nat then JS.Returns []
  else
    JS.bind (conditionCounts data conditionColumn selectedColumns filters)
      (fun store => JS.Returns (records data selectedColumns store)).

End GroupAggregator.

(** ** Condition counts of the medical chart (medical-data-chart.tsx) *)

Module Medical.

(** A value of [counts]: a number, or the text that [+ 1] makes of an
    inherited object. *)
Inductive count := Num (n : Z) | Text (s : string).

(** [(counts[condition] || 0) + 1]. *)
Definition incremented (r : JS.read count) : count :=
  match r with
  | JS.Own (Num n) => Num (n + 1)
  | JS.Own (Text s) => if JS.truthy s then Text (s ++ "1") else Num 1
  | JS.Proto k => Text (JS.object_text k ++ "1")
  | JS.Undef => Num 1
  end.

(** [counts[condition] = (counts[condition] || 0) + 1]. *)
Definition count_condition (counts : JS.obj count) (condition : string) : JS.obj count :=
  JS.obj_assign counts condition (incremented (JS.obj_read counts condition)).

(** The body of [data.forEach]. *)
Definition count_row (counts : JS.obj count) (item : DataItem) : JS.obj count :=
  match item !! "Condition" with
  | Some v => if JS.truthy v then fold_left count_condition (JS.split ", " v) counts
              else counts
  | None => counts
  end.

(** The entries when all their values are numbers. *)
Fixpoint numbers (entries : list (string * count)) : option (list (string * Z)) :=
  match entries with
  | [] => Some []
  | (name, Num n) :: rest => option_map (cons (name, n)) (numbers rest)
  | (_, Text _) :: _ => None
  end.

(** [(a, b) => b[1] - a[1]] is positive. *)
Definition by_count (a b : string * Z) : bool := 0 <? snd b - snd a.

(** With a text among the values, [b[1] - a[1]] is NaN for some pairs
    and the comparator is not consistent: the order that [sort] gives is
    implementation-defined. *)
Definition countConditions (data : list DataItem) : JS.outcome (list (string * Z)) :=
  match numbers (JS.obj_entries (fold_left count_row data [])) with
  | Some entries => JS.Returns (firstn 10 (JS.sort by_count entries))
  | None => JS.Undetermined
  end.

End Medical.

(** ** Pivot Aggregator (pivot-chart.tsx) *)

Module Pivot.

(** [interface DataItem { [key: string]: string | number }]. *)
Abbreviation DataItem := (gmap string JS.value).

Record PivotConfig := {
  rows : list string;
  columns : list string;
  values : list string
}.

(** A cell of the result: the vector of sums, or the object that the
    line of the table inherits under the column key. *)
Inductive cell := Numbers (l : list float) | BuiltIn (k : string).

(** The result: the row keys and the column keys, which are computed
    first, and how the computation of the table of values ends. *)
Record Pivoted := {
  out_rows : list string;
  out_columns : list string;
  out_values : JS.outcome (list (list cell))
}.

(** [pivotTable] and its lines, by their own properties. *)
Abbreviation Table := (gmap string (gmap string (list float))).

Section WithNumberToString.
(** [Number::toString], the decimal text of a number. *)
Variable number_to_string : float -> string.

(** [String(item[column])]. *)
Definition String_ (v : JS.read JS.value) : string :=
  match v with
  | JS.Own (JS.VStr s) => s
  | JS.Own (JS.VNum x) => number_to_string x
  | JS.Proto k => JS.object_text k
  | JS.Undef => "undefined"
  end.

(** The filter callback of [data.filter]. *)
Definition passes (filters : Filters) (item : DataItem) : bool :=
  forallb
    (fun '(column, allowed) =>
       match allowed with
       | [] => true
       | _ => includes allowed (String_ (JS.row_read item column))
       end)
    (JS.obj_entries filters).

Definition filteredData (data : list DataItem) (filters : Filters) : list DataItem :=
  List.filter (passes filters) data.

(** [cols.map((c) => String(item[c])).join("|")]. *)
Definition key (cols : list string) (item : DataItem) : string :=
  JS.join "|" (map (fun c => String_ (JS.row_read item c)) cols).

(** [config.values.map(() => 0)]. *)
Definition zeros (config : PivotConfig) : list float :=
  map (fun _ => 0%float) (values config).

(** [Number(item[value]) || 0]; an inherited object converts to NaN,
    as [undefined] does. *)
Definition contribution (item : DataItem) (value : string) : float :=
  JS.or0 (JS.to_number (item !! value)).

(** The body of [config.values.forEach], from [index] on. *)
Fixpoint add_values (item : DataItem) (index : nat) (vals : list string)
    (cell : list float) : list float :=
  match vals with
  | [] => cell
  | value :: rest =>
      add_values item (S index) rest
        (match cell !! index with
         | Some x => <[index := (x + contribution item value)%float]> cell
         | None => cell
         end)
  end.

(** The body of [filteredData.forEach].  Under a row key that
    [pivotTable] inherits, the line is a built-in object, whose
    properties the loop reads and writes: nothing is said then.  Under a
    column key that the line inherits, the cell is the inherited object:
    no vector is made, and the additions are written to that object;
    under ["__proto__"] it is the prototype of every object, and nothing
    is said either. *)
Definition accumulate (config : PivotConfig) (pivotTable : Table) (item : DataItem)
    : JS.outcome Table :=
  let rowKey := key (rows config) item in
  let colKey := key (columns config) item in
  match JS.row_read pivotTable rowKey with
  | JS.Proto _ => JS.Undetermined
  | line =>
      let row := match line with JS.Own r => r | _ => ∅ end in
      match JS.row_read row colKey with
      | JS.Proto k =>
          if (k =? "__proto__")%string then JS.Undetermined
          else JS.Returns (<[rowKey := row]> pivotTable)
      | c =>
          let cell := match c with JS.Own c => c | _ => zeros config end in
          JS.Returns
            (<[rowKey := <[colKey := add_values item 0 (values config) cell]> row]>
               pivotTable)
      end
  end.

Definition pivotTable (config : PivotConfig) (fd : list DataItem) : JS.outcome Table :=
  JS.foldM (accumulate config) fd ∅.

(** [pivotTable[row]?.[col] || config.values.map(() => 0)]. *)
Definition cell_or_zeros (config : PivotConfig) (table : Table) (row col : string)
    : JS.outcome cell :=
  match JS.row_read table row with
  | JS.Own r =>
      match JS.row_read r col with
      | JS.Own c => JS.Returns (Numbers c)
      | JS.Proto k => JS.Returns (BuiltIn k)
      | JS.Undef => JS.Returns (Numbers (zeros config))
      end
  | JS.Proto _ => JS.Undetermined
  | JS.Undef => JS.Returns (Numbers (zeros config))
  end.

Definition processData (data : list DataItem) (config : PivotConfig)
    (filters : Filters) : Pivoted :=
  let fd := filteredData data filters in
  let uniqueRows := JS.array_from_set (map (key (rows config)) fd) in
  let uniqueColumns := JS.array_from_set (map (key (columns config)) fd) in
  {| out_rows := uniqueRows;
     out_columns := uniqueColumns;
     out_values :=
       JS.bind (pivotTable config fd)
         (fun table =>
            JS.mapM
              (fun row => JS.mapM (fun col => cell_or_zeros config table row col)
                            uniqueColumns)
              uniqueRows) |}.

End WithNumberToString.

End Pivot.

(** ** Matching rows, for the statements about the Pivot Aggregator *)

Module PivotSpec.

(** The row falls in the cell [(rowKey, colKey)]. *)
Definition matches (number_to_string : float -> string) (config : Pivot.PivotConfig)
    (rowKey colKey : string) (item : Pivot.DataItem) : bool :=
  (Pivot.key number_to_string (Pivot.rows config) item =? rowKey)%string
  && (Pivot.key number_to_string (Pivot.columns config) item =? colKey)%string.

End PivotSpec.

(** ** The order of binary64 numbers

    Every number other than NaN gets an integer key, its value in units
    of 2^emin, the infinities lying beyond every finite value. *)

Module FloatOrder.

(** The least exponent of binary64, -1074. *)
Definition emin64 : Z := emin.

(** A bound above the key of every finite number, the key of infinity. *)
Definition key_inf : Z := 2 ^ 2200.

(** The value of a number other than NaN in units of 2^emin. *)
Definition key (x : spec_float) : Z :=
  match x with
  | S754_zero _ => 0
  | S754_infinity s => cond_Zopp s key_inf
  | S754_nan => 0
  | S754_finite s m e => cond_Zopp s (Zpos m * 2 ^ (e - emin64))
  end.

(** Any number but NaN. *)
Definition not_nan (x : spec_float) : Prop :=
  match x with S754_nan => False | _ => True end.

(** Above zero: a positive finite number or plus infinity. *)
Definition positive_sf (x : spec_float) : Prop :=
  match x with
  | S754_finite false _ _ | S754_infinity false => True
  | _ => False
  end.

(** Not above zero: a zero, a negative number or NaN. *)
Definition nonpositive_sf (x : spec_float) : Prop :=
  match x with
  | S754_finite false _ _ | S754_infinity false => False
  | _ => True
  end.

(** The key of a primitive float. *)
Definition fkey (x : float) : Z := key (Prim2SF x).

End FloatOrder.

(** ** Groups, totals and accumulators, for the statements about the
    Group Aggregator *)

Module GroupSpec.

(** The condition tokens of a row: those of its condition value, a
    string. *)
Definition row_tokens (conditionColumn : string) (item : DataItem) : list string :=
  match item !! conditionColumn with
  | Some v => if JS.truthy v then JS.split ", " v else []
  | None => []
  end.

(** The (row, condition) pairs of the rows [fd], in processing order. *)
Definition pairs (conditionColumn : string) (fd : list DataItem)
    : list (DataItem * string) :=
  flat_map (fun item => map (pair item) (row_tokens conditionColumn item)) fd.

(** The pairs whose condition makes a group: its name is not one that
    [conditionCounts] inherits. *)
Definition tracked (ps : list (DataItem * string)) : list (DataItem * string) :=
  List.filter (fun p => negb (JS.inherited (snd p))) ps.

(** A row at which [processData] throws: its condition value is an
    inherited object, or one of its conditions is an inherited name and
    one of the selected columns holds a truthy cell. *)
Definition row_throws (conditionColumn : string) (selectedColumns : list string)
    (item : DataItem) : bool :=
  match JS.row_read item conditionColumn with
  | JS.Proto _ => true
  | _ =>
      existsb JS.inherited (row_tokens conditionColumn item)
      && existsb (GroupAggregator.cell_truthy item) selectedColumns
  end.

(** All the condition tokens of the rows, in order. *)
Definition tokens (conditionColumn : string) (fd : list DataItem) : list string :=
  map snd (pairs conditionColumn fd).

(** The distinct groups, in order of first appearance. *)
Definition groups (conditionColumn : string) (fd : list DataItem) : list string :=
  JS.array_from_set (tokens conditionColumn fd).

(** How many times [g] occurs among the tokens [l]. *)
Definition occurrences (g : string) (l : list string) : Z :=
  Z.of_nat (count_occ string_dec l g).

(** The total of group [g] in [conditionCounts], 0 when it has none. *)
Definition total_of (store : JS.obj GroupAggregator.Counts) (g : string) : Z :=
  match JS.obj_get store g with
  | Some c => GroupAggregator.total c
  | None => 0
  end.

(** What one cell adds to the accumulator of its column: the parsed
    number, 1 when the cell is not empty and does not parse (as an
    inherited object does not), nothing when it is empty or missing. *)
Definition cell_addend (item : DataItem) (col : string) : list float :=
  match JS.row_read item col with
  | JS.Own value =>
      if JS.truthy value
      then [let x := JS.parseFloat value in if PrimFloat.is_nan x then 1%float else x]
      else []
  | JS.Proto _ => [1%float]
  | JS.Undef => []
  end.

(** What one (row, condition) pair adds to the accumulator of [col]:
    once per occurrence of [col] among the selected columns. *)
Definition row_addends (selectedColumns : list string) (col : string)
    (item : DataItem) : list float :=
  flat_map (fun c => if (c =? col)%string then cell_addend item col else [])
    selectedColumns.

Definition pair_addends (selectedColumns : list string) (col g : string)
    (ps : list (DataItem * string)) : list float :=
  flat_map (fun p => if (snd p =? g)%string
                     then row_addends selectedColumns col (fst p) else []) ps.

(** The sum of the addends of column [col] for group [g] over the pairs
    [ps], from 0 in processing order; under the name ["__proto__"] the
    accumulator object keeps no property, and what is read there is not
    a number. *)
Definition summed (selectedColumns : list string) (col g : string)
    (ps : list (DataItem * string)) : float :=
  if (col =? "__proto__")%string then nan
  else fold_left PrimFloat.add (pair_addends selectedColumns col g ps) 0%float.

(** The accumulator of column [col] for group [g]. *)
Definition accumulated (conditionColumn : string) (selectedColumns : list string)
    (col g : string) (fd : list DataItem) : float :=
  summed selectedColumns col g (pairs conditionColumn fd).

(** What the entry of group [g] holds after the pairs [ps]. *)
Definition group_ok (selectedColumns : list string) (ps : list (DataItem * string))
    (g : string) (o : option GroupAggregator.Counts) : Prop :=
  match o with
  | None => ~ In g (map snd ps)
  | Some c =>
      GroupAggregator.total c = occurrences g (map snd ps)
      /\ JS.obj_get (GroupAggregator.counts c) "__proto__" = None
      /\ forall col, In col selectedColumns ->
           GroupAggregator.num (GroupAggregator.counts c) col
           = summed selectedColumns col g ps
  end.

(** The record of group [g], from its total and accumulators. *)
Definition group_record (data : list DataItem) (conditionColumn : string)
    (selectedColumns : list string) (fd : list DataItem) (g : string)
    : GroupAggregator.ProcessedDataItem :=
  fold_left (fun o kv => JS.obj_set o (fst kv) (snd kv))
    (JS.obj_entries
       (GroupAggregator.fromEntries
          (map (fun col =>
                  (col, JS.VNum
                          (GroupAggregator.reported
                             (GroupAggregator.isNumeric data col)
                             (accumulated conditionColumn selectedColumns col g fd)
                             (occurrences g (tokens conditionColumn fd)))))
             selectedColumns)))
    [("condition", JS.VStr g)].

(** The order in which [Object.entries] lists the keys [ks] created in
    this order. *)
Definition key_order (ks : list string) : list string :=
  map fst (JS.obj_entries (map (fun k => (k, tt)) ks)).

(** The spec's reading of the reported value, with a running sum of the
    cells that parse as numbers and a separate running count of the
    non-empty cells that do not. *)
Definition spec_sum (col g : string) (ps : list (DataItem * string)) : float :=
  fold_left PrimFloat.add
    (flat_map (fun p =>
                 if (snd p =? g)%string then
                   match fst p !! col with
                   | Some v => if PrimFloat.is_nan (JS.parseFloat v) then []
                               else [JS.parseFloat v]
                   | None => []
                   end
                 else []) ps) 0%float.

Definition spec_count (col g : string) (ps : list (DataItem * string)) : Z :=
  Z.of_nat
    (length
       (List.filter
          (fun p => (snd p =? g)%string
                    && match fst p !! col with
                       | Some v => JS.truthy v && PrimFloat.is_nan (JS.parseFloat v)
                       | None => false
                       end) ps)).

(** The spec's gloss of the non-numeric case: the percentage of the
    rows of the group with a non-empty value. *)
Definition spec_percentage (conditionColumn col g : string)
    (fd : list DataItem) : float :=
  (JS.of_Z
     (Z.of_nat
        (length
           (List.filter
              (fun p => (snd p =? g)%string
                        && match fst p !! col with
                           | Some v => JS.truthy v
                           | None => false
                           end) (pairs conditionColumn fd))))
   / JS.of_Z (occurrences g (tokens conditionColumn fd)) * 100)%float.

Definition spec_reported (data : list DataItem) (conditionColumn col g : string)
    (fd : list DataItem) : float :=
  let ps := pairs conditionColumn fd in
  let total := JS.of_Z (occurrences g (tokens conditionColumn fd)) in
  if GroupAggregator.isNumeric data col
  then (spec_sum col g ps / total)%float
  else (JS.of_Z (spec_count col g ps) / total * 100)%float.

End GroupSpec.

(** ** Counting rows, for the statements about the Comparator *)

Module ComparatorSpec.

(** A row is tallied for condition [c] when [c] is its condition and
    both its condition and its response are truthy: non-empty strings,
    or an inherited object, whose text is then the condition. *)
Definition tallied (conditionColumn responseColumn c : string)
    (item : DataItem) : bool :=
  JS.read_truthy (JS.row_read item conditionColumn)
  && JS.read_truthy (JS.row_read item responseColumn)
  && (Comparator.key_of (JS.row_read item conditionColumn) =? c)%string.

(** The row's response is [v]. *)
Definition answered (responseColumn v : string) (item : DataItem) : bool :=
  Comparator.is_category (JS.row_read item responseColumn) v.

Definition count (p : DataItem -> bool) (l : list DataItem) : Z :=
  Z.of_nat (length (List.filter p l)).

(** [vals] lists the distinct non-empty values of the response column
    of the rows [fd], in lexicographic order. *)
Definition sorted_responses (fd : list DataItem) (responseColumn : string)
    (vals : list string) : Prop :=
  StronglySorted (fun a b => String.ltb a b = true) vals
  /\ forall v, In v vals <->
        v <> "" /\ exists item, In item fd /\ item !! responseColumn = Some v.

(** What the tally holds for condition [c] after the rows [l]. *)
Definition tally_ok (conditionColumn responseColumn leftCategory rightCategory : string)
    (l : list DataItem) (c : string) (o : option Comparator.Stat) : Prop :=
  match o with
  | None => count (tallied conditionColumn responseColumn c) l = 0
  | Some st =>
      Comparator.total st = count (tallied conditionColumn responseColumn c) l
      /\ Comparator.left st =
         count (fun i => tallied conditionColumn responseColumn c i
                         && answered responseColumn leftCategory i) l
      /\ Comparator.right st =
         count (fun i => tallied conditionColumn responseColumn c i
                         && negb (answered responseColumn leftCategory i)
                         && answered responseColumn rightCategory i) l
  end.

End ComparatorSpec.

(** ** Further functions of the components *)

(** A row as the object it is, for the functions that enumerate its
    properties; [item_of] is the same row read by key. *)
Abbreviation Row := (JS.obj string).

Definition item_of (row : Row) : DataItem := list_to_map row.

(** [Set.prototype.add] on a set kept in insertion order. *)
Definition set_add (s : list string) (v : string) : list string :=
  if decide (v ∈ s) then s else (s ++ [v])%list.

(** The values of a property that holds a set, none when it is missing. *)
Definition set_of (options : JS.obj (list string)) (key : string) : list string :=
  match JS.obj_get options key with
  | Some s => s
  | None => []
  end.

Record FilterOption := { column : string; values : list string }.

(** [getFilterOptions] of the Group Aggregator's chart
    (likert-chart.tsx, first component). *)
Module AggregatorOptions.

(** The body of [Object.entries(item).forEach].  Under a name that
    [options] inherits, [options[key]] is the inherited object: no set
    is made, and the object has no method [add]. *)
Definition add_entry (options : JS.obj (list string)) (kv : string * string)
    : JS.outcome (JS.obj (list string)) :=
  let '(key, value) := kv in
  match JS.obj_read options key with
  | JS.Proto _ => if JS.truthy value then JS.Throws else JS.Returns options
  | entry =>
      let options := match entry with
                     | JS.Own _ => options
                     | _ => JS.obj_set options key []
                     end in
      JS.Returns
        (if JS.truthy value
         then JS.obj_set options key (set_add (set_of options key) value)
         else options)
  end.

Definition options (data : list Row) : JS.outcome (JS.obj (list string)) :=
  JS.foldM (fun o item => JS.foldM add_entry (JS.obj_entries item) o) data [].

Definition getFilterOptions (data : list Row) : JS.outcome (list FilterOption) :=
  JS.bind (options data)
    (fun options =>
       JS.Returns
         (map (fun '(column, values) =>
                 {| column := column; values := JS.sort_strings values |})
            (JS.obj_entries options))).

End AggregatorOptions.

(** [getFilterOptions] of the Comparator's chart (likert-chart.tsx,
    second component). *)
Module ComparatorOptions.

(** The body of [Object.entries(item).forEach]; an inherited name as
    for the Group Aggregator. *)
Definition add_entry (conditionColumn responseColumn : string)
    (options : JS.obj (list string)) (kv : string * string)
    : JS.outcome (JS.obj (list string)) :=
  let '(key, value) := kv in
  if negb ((key =? conditionColumn)%string || (key =? responseColumn)%string)
     && JS.truthy value && negb (JS.trim value =? "")%string
  then
    match JS.obj_read options key with
    | JS.Proto _ => JS.Throws
    | entry =>
        let options := match entry with
                       | JS.Own _ => options
                       | _ => JS.obj_set options key []
                       end in
        JS.Returns (JS.obj_set options key (set_add (set_of options key) (JS.trim value)))
    end
  else JS.Returns options.

Definition options (data : list Row) (conditionColumn responseColumn : string)
    : JS.outcome (JS.obj (list string)) :=
  JS.foldM
    (fun o item =>
       JS.foldM (add_entry conditionColumn responseColumn) (JS.obj_entries item) o)
    data [].

Definition getFilterOptions (data : list Row) (conditionColumn responseColumn : string)
    : JS.outcome (list FilterOption) :=
  JS.bind (options data conditionColumn responseColumn)
    (fun options =>
       JS.Returns
         (map (fun '(column, values) =>
                 {| column := column; values := JS.sort_strings values |})
            (List.filter (fun '(_, values) => (1 <? length values)%nat)
               (JS.obj_entries options)))).

End ComparatorOptions.

(** The handlers that change the filters (both charts of
    likert-chart.tsx). *)
Module FilterState.

(** [{ ...prev }]. *)
Definition copy (prev : Filters) : Filters :=
  fold_left (fun o kv => JS.obj_set o (fst kv) (snd kv)) (JS.obj_entries prev) [].

(** The updater of [onCheckedChange]. *)
Definition onCheckedChange (column value : string) (checked : bool)
    (prev : Filters) : Filters :=
  let newFilters := copy prev in
  let newFilters := match JS.obj_get newFilters column with
                    | Some _ => newFilters
                    | None => JS.obj_set newFilters column []
                    end in
  let current := match JS.obj_get newFilters column with
                 | Some l => l
                 | None => []
                 end in
  if checked
  then JS.obj_set newFilters column (current ++ [value])%list
  else JS.obj_set newFilters column
         (List.filter (fun v => negb (v =? value)%string) current).

(** [Object.entries(filters).filter(([_, values]) => values.length > 0)]. *)
Definition activeFilters (filters : Filters) : list (string * list string) :=
  List.filter (fun '(_, values) => (0 <? length values)%nat) (JS.obj_entries filters).

(** The updater of the remove button of a badge; [None] when
    [prev[column]] is undefined and the call of [filter] throws. *)
Definition onRemove (column value : string) (prev : Filters) : option Filters :=
  match JS.obj_get prev column with
  | Some current =>
      Some (JS.obj_set (copy prev) column
              (List.filter (fun v => negb (v =? value)%string) current))
  | None => None
  end.

End FilterState.

(** The Likert chart without column filters (the unnamed variant with
    the free-text filter). *)
Module Likert.

(** [processData(data, conditionColumn, selectedColumns)]: the loop and
    what follows it are those of the Group Aggregator. *)
Definition processData (data : list DataItem) (conditionColumn : string)
    (selectedColumns : list string)
    : JS.outcome (list GroupAggregator.ProcessedDataItem) :=
  if (length data =? 0)%nat then JS.Returns []
  else
    JS.bind
      (JS.foldM (GroupAggregator.count_row conditionColumn selectedColumns) data [])
      (fun store => JS.Returns (GroupAggregator.records data selectedColumns store)).

(** The lower case of a code unit below 256. *)
Definition lower_char (c : ascii) : ascii :=
  let n := N_of_ascii c in
  if ((65 <=? n) && (n <=? 90) || (192 <=? n) && (n <=? 222) && negb (n =? 215))%N
  then ascii_of_N (n + 32)
  else c.

(** What [toLowerCase] gives for a string of code units below 256: there
    the lower case of a code unit does not depend on its neighbours. *)
Fixpoint lower_latin1 (s : string) : string :=
  match s with
  | EmptyString => EmptyString
  | String c s' => String (lower_char c) (lower_latin1 s')
  end.

(** [String.prototype.includes]. *)
Fixpoint str_includes (s sub : string) : bool :=
  String.prefix sub s
  || match s with
     | EmptyString => false
     | String _ s' => str_includes s' sub
     end.

Section WithToLowerCase.
(** [String.prototype.toLowerCase], the case conversion of the language,
    which depends on the context of a letter. *)
Variable toLowerCase : string -> string.

(** The filter callback of [updateChartData]; an inherited object has no
    method [toLowerCase]. *)
Definition matches_text (conditionColumn filter : string) (item : DataItem)
    : JS.outcome bool :=
  match JS.row_read item conditionColumn with
  | JS.Own v =>
      JS.Returns (JS.truthy v && str_includes (toLowerCase v) (toLowerCase filter))
  | JS.Proto _ => JS.Throws
  | JS.Undef => JS.Returns false
  end.

(** What [updateChartData] passes to [setData]; when the body throws,
    it reports an error and sets no data. *)
Definition updateChartData (rawData : list DataItem) (conditionColumn : string)
    (selectedColumns : list string) (filter : string)
    : JS.outcome (list GroupAggregator.ProcessedDataItem) :=
  JS.bind (JS.filterM (matches_text conditionColumn filter) rawData)
    (fun filteredData => processData filteredData conditionColumn selectedColumns).

End WithToLowerCase.

End Likert.

(** The rest of the medical chart (medical-data-chart.tsx). *)
Module MedicalData.

(** [headers.reduce((obj, header, index) => ..., obj)], from [index] on;
    the key is the trimmed header. *)
Fixpoint reduce (vals : list string) (index : nat) (headers : list string)
    (obj : DataItem) : DataItem :=
  match headers with
  | [] => obj
  | header :: rest =>
      reduce vals (S index) rest
        (JS.row_assign obj (JS.trim header) (Parser.cell vals index))
  end.

(** A property read in a condition: truthy when present and not empty. *)
Definition has (item : DataItem) (key : string) : bool :=
  match item !! key with
  | Some v => JS.truthy v
  | None => false
  end.

Definition parseCSV (csv : string) : list DataItem :=
  let lines := JS.split Parser.LF csv in
  let headers := JS.split "," (hd "" lines) in
  List.filter (fun item => has item "Condition")
    (map (fun line => reduce (JS.split "," line) 0 headers ∅) (tl lines)).

Record SexCounts := { Male : Z; Female : Z; Unknown : Z }.

(** The body of [data.forEach] in [countSex]. *)
Definition count_sex (counts : SexCounts) (item : DataItem) : SexCounts :=
  let sex := item !! "Sex" in
  if bool_decide (sex = Some "M") || bool_decide (sex = Some "Male")
  then {| Male := Male counts + 1; Female := Female counts; Unknown := Unknown counts |}
  else if bool_decide (sex = Some "F") || bool_decide (sex = Some "Female")
  then {| Male := Male counts; Female := Female counts + 1; Unknown := Unknown counts |}
  else {| Male := Male counts; Female := Female counts; Unknown := Unknown counts + 1 |}.

Definition countSex (data : list DataItem) : list (string * Z) :=
  let counts := fold_left count_sex data {| Male := 0; Female := 0; Unknown := 0 |} in
  [("Male", Male counts); ("Female", Female counts); ("Unknown", Unknown counts)].

End MedicalData.

(** The parser of the pivot's standalone page (pivot-chart.tsx, second
    component, the csv branch). *)
Module PivotParser.

Record Parsed := { headers : list string; data : list Pivot.DataItem }.

(** [isNaN(Number(value)) ? value : Number(value)]. *)
Definition convert (value : string) : JS.value :=
  if PrimFloat.is_nan (JS.string_to_number value) then JS.VStr value
  else JS.VNum (JS.string_to_number value).

Fixpoint reduce (vals : list string) (index : nat) (headers : list string)
    (obj : Pivot.DataItem) : Pivot.DataItem :=
  match headers with
  | [] => obj
  | header :: rest =>
      reduce vals (S index) rest
        (JS.row_assign obj header (convert (Parser.cell vals index)))
  end.

(** [Object.values(item).some((v) => v !== "")]. *)
Definition some_value (item : Pivot.DataItem) : bool :=
  existsb (fun v => match v with
                    | JS.VStr s => negb (s =? "")%string
                    | JS.VNum _ => true
                    end)
    (map snd (map_to_list item)).

Definition parseFile (result : string) : Parsed :=
  let lines := JS.split Parser.LF result in
  let headers := map JS.trim (JS.split "," (hd "" lines)) in
  {| headers := headers;
     data := List.filter some_value
               (map (fun line => reduce (JS.split "," line) 0 headers ∅) (tl lines)) |}.

End PivotParser.

(** The upload of the fixed five-column file (file-upload.tsx). *)
Module FileUpload.

Record Item := {
  id : string;
  stronglyDisagree : float;
  disagree : float;
  agree : float;
  stronglyAgree : float
}.

Definition requiredHeaders : list string :=
  ["id"; "stronglyDisagree"; "disagree"; "agree"; "stronglyAgree"].

(** [Number.parseFloat(values[i])]; a missing field reads as the text
    "undefined". *)
Definition field (vals : list string) (i : nat) : float :=
  JS.parseFloat (match nth_error vals i with Some v => v | None => "undefined" end).

Definition item_of_row (row : string) : Item :=
  let vals := JS.split "," row in
  {| id := hd "" vals;
     stronglyDisagree := field vals 1;
     disagree := field vals 2;
     agree := field vals 3;
     stronglyAgree := field vals 4 |}.

(** What the handler reads of the chosen file: [file.type] and
    [await file.text()]. *)
Record File := { file_type : string; file_text : string }.

(** How [handleFileUpload] ends: without effect, with one of its two
    messages, or with the items that it passes to [onDataUpdate]. *)
Inductive Upload :=
| NoFile           (* no file was chosen *)
| NotCsv           (* "Please upload a CSV file" *)
| MissingColumns   (* "CSV must include columns: ..." *)
| Data (items : list Item).

Section WithToLowerCase.
(** [String.prototype.toLowerCase]. *)
Variable toLowerCase : string -> string.

(** [requiredHeaders.every(...)]. *)
Definition hasValidHeaders (headers : list string) : bool :=
  forallb
    (fun header =>
       includes (map (fun h => toLowerCase (JS.trim h)) headers) (toLowerCase header))
    requiredHeaders.

(** [handleFileUpload] on [event.target.files?.[0]]. *)
Definition handleFileUpload (file : option File) : Upload :=
  match file with
  | None => NoFile
  | Some file =>
      if negb (file_type file =? "text/csv")%string then NotCsv
      else
        let rows := JS.split Parser.LF (file_text file) in
        let headers := JS.split "," (hd "" rows) in
        if hasValidHeaders headers
        then Data (List.filter
                     (fun item => negb (PrimFloat.is_nan (stronglyDisagree item)))
                     (map item_of_row (tl rows)))
        else MissingColumns
  end.

End WithToLowerCase.

End FileUpload.

(** * Properties *)

(** ** The built-ins on examples *)

Example split_examples :
  JS.split ", " "A, B" = ["A"; "B"]
  /\ JS.split ", " "A, " = ["A"; ""]
  /\ JS.split ", " "A,B" = ["A,B"]
  /\ JS.split "," "a,,b" = ["a"; ""; "b"]
  /\ JS.split "," "" = [""].
Proof. repeat split. Qed.

Example trim_examples :
  JS.trim "  a b  " = "a b" /\ JS.trim "   " = "" /\ JS.trim "x" = "x".
Proof. repeat split. Qed.

Example entries_examples :
  JS.obj_entries [("b", 1); ("10", 2); ("a", 3); ("2", 4); ("01", 5)]
  = [("2", 4); ("10", 2); ("b", 1); ("a", 3); ("01", 5)].
Proof. reflexivity. Qed.

Example sort_examples :
  JS.sort (fun a b => 0 <? snd b - snd a) [("a", 1); ("b", 2); ("c", 1); ("d", 2)]
  = [("b", 2); ("d", 2); ("a", 1); ("c", 1)]
  /\ JS.sort_strings ["Yes"; "No"; "Maybe"; "no"] = ["Maybe"; "No"; "Yes"; "no"].
Proof. split; reflexivity. Qed.

Example parseFloat_examples :
  JS.parseFloat "41" = 41%float
  /\ JS.parseFloat " 3.5e2x" = 350%float
  /\ JS.parseFloat "-.5" = (-0.5)%float
  /\ JS.parseFloat "1e400" = infinity
  /\ JS.parseFloat "-Infinity" = neg_infinity
  /\ JS.parseFloat "9007199254740993" = 9007199254740992%float
  /\ JS.parseFloat "0.1" = 0x1.999999999999ap-4%float
  /\ PrimFloat.is_nan (JS.parseFloat "Yes") = true
  /\ PrimFloat.is_nan (JS.parseFloat "") = true.
Proof. vm_compute. repeat split. Qed.

Example Number_examples :
  JS.string_to_number " 12 " = 12%float
  /\ JS.string_to_number "" = 0%float
  /\ JS.string_to_number "0x1F" = 31%float
  /\ PrimFloat.is_nan (JS.string_to_number "12px") = true
  /\ PrimFloat.is_nan (JS.to_number None) = true
  /\ JS.or0 (JS.string_to_number "n/a") = 0%float.
Proof. vm_compute. repeat split. Qed.

(** ** The stable sort *)

Section SortFacts.
Context {A : Type} (after : A -> A -> bool).

Lemma sort_insert_perm x l : Permutation (JS.sort_insert after x l) (x :: l).
Proof.
  induction l as [|y l IH]; simpl; [reflexivity|].
  destruct (after x y); [|reflexivity].
  eapply perm_trans; [apply perm_skip, IH|apply perm_swap].
Qed.

Lemma sort_perm l : Permutation (JS.sort after l) l.
Proof.
  induction l as [|x l IH]; simpl; [constructor|].
  eapply perm_trans; [apply sort_insert_perm|apply perm_skip, IH].
Qed.

Lemma sort_In x l : In x (JS.sort after l) <-> In x l.
Proof.
  split; apply Permutation_in; [|symmetry]; apply sort_perm.
Qed.

Lemma sort_length l : length (JS.sort after l) = length l.
Proof. apply Permutation_length, sort_perm. Qed.

(** Stability: a class of elements none of which has to come after
    another one keeps its order. *)
Lemma sort_insert_filter (p : A -> bool) x l :
  (forall y, In y l -> p x = true -> p y = true -> after x y = false) ->
  List.filter p (JS.sort_insert after x l) = List.filter p (x :: l).
Proof.
  induction l as [|y l IH]; intros H; [reflexivity|].
  cbn [JS.sort_insert]. destruct (after x y) eqn:E; [|reflexivity].
  cbn [List.filter]. rewrite IH by (intros; apply H; simpl; auto).
  cbn [List.filter].
  destruct (p x) eqn:Px, (p y) eqn:Py; try reflexivity.
  rewrite H in E; simpl; auto; discriminate.
Qed.

Lemma sort_filter (p : A -> bool) l :
  (forall x y, p x = true -> p y = true -> after x y = false) ->
  List.filter p (JS.sort after l) = List.filter p l.
Proof.
  intros H. induction l as [|x l IH]; [reflexivity|].
  cbn [JS.sort fold_right]. rewrite sort_insert_filter by (intros; apply H; auto).
  cbn [List.filter]. unfold JS.sort in IH. rewrite IH. reflexivity.
Qed.

Hypothesis after_asym : forall a b, after a b = true -> after b a = false.
Hypothesis before_trans :
  forall a b c, after a b = false -> after b c = false -> after a c = false.

Lemma sort_insert_sorted x l :
  StronglySorted (fun a b => after a b = false) l ->
  StronglySorted (fun a b => after a b = false) (JS.sort_insert after x l).
Proof.
  induction 1 as [|y l Hl IH Hy]; simpl; [repeat constructor|].
  destruct (after x y) eqn:E.
  - constructor; [exact IH|].
    rewrite List.Forall_forall in *. intros z Hz.
    apply (Permutation_in _ (sort_insert_perm x l)) in Hz.
    destruct Hz as [<-|Hz]; [apply after_asym, E|apply Hy, Hz].
  - constructor; [constructor; assumption|].
    constructor; [exact E|].
    rewrite List.Forall_forall in *. intros z Hz.
    apply before_trans with y; [exact E|apply Hy, Hz].
Qed.

Lemma sort_sorted l : StronglySorted (fun a b => after a b = false) (JS.sort after l).
Proof.
  induction l as [|x l IH]; simpl; [constructor|].
  apply sort_insert_sorted, IH.
Qed.

End SortFacts.

(** ** Ordered objects *)

Section ObjFacts.
Context {V : Type}.
Implicit Types (o : JS.obj V) (k : string) (v : V).

Lemma obj_get_set_eq o k v : JS.obj_get (JS.obj_set o k v) k = Some v.
Proof.
  induction o as [|[k' v'] o IH]; simpl.
  - now rewrite String.eqb_refl.
  - destruct (String.eqb_spec k' k) as [->|Hne]; simpl.
    + now rewrite String.eqb_refl.
    + destruct (String.eqb_spec k' k); [contradiction|exact IH].
Qed.

Lemma obj_get_set_ne o k k' v :
  k <> k' -> JS.obj_get (JS.obj_set o k v) k' = JS.obj_get o k'.
Proof.
  intros Hne. induction o as [|[k0 v0] o IH]; simpl.
  - destruct (String.eqb_spec k k'); [contradiction|reflexivity].
  - destruct (String.eqb_spec k0 k) as [->|H0]; simpl.
    + destruct (String.eqb_spec k k'); [contradiction|reflexivity].
    + destruct (String.eqb_spec k0 k'); [reflexivity|exact IH].
Qed.

Lemma obj_get_In o k v : JS.obj_get o k = Some v -> In (k, v) o.
Proof.
  induction o as [|[k' v'] o IH]; simpl; [discriminate|].
  destruct (String.eqb_spec k' k) as [->|Hne].
  - intros [= ->]. now left.
  - intros H. right. apply IH, H.
Qed.

Lemma obj_get_None o k : JS.obj_get o k = None -> ~ In k (map fst o).
Proof.
  induction o as [|[k' v'] o IH]; simpl; [tauto|].
  destruct (String.eqb_spec k' k) as [->|Hne]; [discriminate|].
  intros H [E|E]; [contradiction|]. now apply IH.
Qed.

Lemma obj_In_get o k v :
  List.NoDup (map fst o) -> In (k, v) o -> JS.obj_get o k = Some v.
Proof.
  induction o as [|[k' v'] o IH]; simpl; [tauto|].
  intros Hnd [E|E].
  - injection E as -> ->. now rewrite String.eqb_refl.
  - inversion Hnd as [|? ? Hk Ho]; subst.
    destruct (String.eqb_spec k' k) as [->|Hne].
    + exfalso. apply Hk. change k with (fst (k, v)). now apply in_map.
    + now apply IH.
Qed.

Lemma obj_set_keys o k v :
  map fst (JS.obj_set o k v) =
  match JS.obj_get o k with
  | Some _ => map fst o
  | None => (map fst o ++ [k])%list
  end.
Proof.
  induction o as [|[k' v'] o IH]; simpl; [reflexivity|].
  destruct (String.eqb_spec k' k) as [->|Hne]; simpl; [reflexivity|].
  rewrite IH. now destruct (JS.obj_get o k).
Qed.

Lemma obj_set_NoDup o k v :
  List.NoDup (map fst o) -> List.NoDup (map fst (JS.obj_set o k v)).
Proof.
  intros H. rewrite obj_set_keys.
  destruct (JS.obj_get o k) eqn:E; [exact H|].
  apply obj_get_None in E.
  apply List.NoDup_app; [exact H|repeat constructor; simpl; tauto|].
  intros x Hx [<-|[]]. contradiction.
Qed.

Lemma obj_assign_get_eq o k v :
  k <> "__proto__" -> JS.obj_get (JS.obj_assign o k v) k = Some v.
Proof.
  intros Hk. unfold JS.obj_assign.
  destruct (JS.obj_get o k); [apply obj_get_set_eq|].
  destruct (String.eqb_spec k "__proto__"); [contradiction|apply obj_get_set_eq].
Qed.

Lemma obj_assign_get_ne o k k' v :
  k <> k' -> JS.obj_get (JS.obj_assign o k v) k' = JS.obj_get o k'.
Proof.
  intros Hne. unfold JS.obj_assign.
  destruct (JS.obj_get o k); [now apply obj_get_set_ne|].
  destruct (k =? "__proto__")%string; [reflexivity|now apply obj_get_set_ne].
Qed.

Lemma obj_assign_proto o v :
  JS.obj_get o "__proto__" = None ->
  JS.obj_get (JS.obj_assign o "__proto__" v) "__proto__" = None.
Proof. intros H. unfold JS.obj_assign. now rewrite H. Qed.

Lemma obj_entries_perm o : Permutation (JS.obj_entries o) o.
Proof.
  unfold JS.obj_entries.
  eapply perm_trans; [apply Permutation_app_tail, sort_perm|].
  induction o as [|kv o IH]; simpl; [constructor|].
  destruct (JS.is_index kv); simpl.
  - now apply perm_skip.
  - eapply perm_trans; [symmetry; apply Permutation_middle|now apply perm_skip].
Qed.

Lemma obj_entries_In o kv : In kv (JS.obj_entries o) <-> In kv o.
Proof.
  split; apply Permutation_in; [|symmetry]; apply obj_entries_perm.
Qed.

Lemma obj_entries_length o : length (JS.obj_entries o) = length o.
Proof. apply Permutation_length, obj_entries_perm. Qed.

End ObjFacts.

(** ** Binary64: comparison and the sign of a difference *)

Import FloatOrder.

Lemma digits2_pos_size p : digits2_pos p = Pos.size p.
Proof. induction p; simpl; congruence. Qed.

Lemma digits2_bounds p :
  2 ^ (Zpos (digits2_pos p) - 1) <= Zpos p < 2 ^ Zpos (digits2_pos p).
Proof.
  rewrite digits2_pos_size. split.
  - pose proof (Pos.size_le p) as H.
    assert (Hp : (2 ^ Pos.size p <= 2 * p)%positive) by exact H.
    apply Pos2Z.pos_le_pos in Hp. rewrite Pos2Z.inj_mul, Pos2Z.inj_pow in Hp.
    replace (Zpos (Pos.size p)) with (Z.succ (Zpos (Pos.size p) - 1)) in Hp by lia.
    rewrite Z.pow_succ_r in Hp by lia. lia.
  - pose proof (Pos.size_gt p) as H.
    apply Pos2Z.pos_lt_pos in H. now rewrite Pos2Z.inj_pow in H.
Qed.

Lemma iter_xO_val m d : Zpos (Pos.iter xO m d) = Zpos m * 2 ^ Zpos d.
Proof.
  revert m. induction d using Pos.peano_ind; intros m.
  - simpl. lia.
  - rewrite Pos.iter_succ, Pos2Z.inj_succ, Z.pow_succ_r by lia.
    rewrite Pos2Z.inj_xO, IHd. lia.
Qed.

Lemma shl_align_val m e ez :
  ez <= e -> Zpos (fst (shl_align m e ez)) = Zpos m * 2 ^ (e - ez).
Proof.
  intros H. unfold shl_align.
  destruct (ez - e) eqn:E; cbn [fst].
  - replace (e - ez) with 0 by lia. now rewrite Z.pow_0_r, Z.mul_1_r.
  - lia.
  - rewrite iter_xO_val. f_equal. f_equal. lia.
Qed.

Lemma valid_finite s m e :
  valid_binary (S754_finite s m e) = true ->
  emin64 <= e <= emax - prec
  /\ Zpos (digits2_pos m) <= prec
  /\ (emin64 < e -> Zpos (digits2_pos m) = prec).
Proof.
  unfold SpecFloat.valid_binary, bounded, canonical_mantissa, fexp, emin64, SpecFloat.emin.
  intros H. apply andb_true_iff in H. destruct H as [H1 H2].
  apply Z.eqb_eq in H1. apply Z.leb_le in H2.
  unfold prec, emax in *. lia.
Qed.

Lemma key_finite_bounds s m e :
  valid_binary (S754_finite s m e) = true ->
  0 < Zpos m * 2 ^ (e - emin64) < key_inf.
Proof.
  intros H. apply valid_finite in H. destruct H as (He & Hd & _).
  pose proof (digits2_bounds m) as [_ Hm].
  unfold emin64, SpecFloat.emin, prec, emax in *.
  unfold key_inf.
  split; [apply Z.mul_pos_pos; [lia|apply Z.pow_pos_nonneg; lia]|].
  apply Z.lt_le_trans with (2 ^ 53 * 2 ^ (e - (3 - 1024 - 53))).
  - apply Z.mul_lt_mono_pos_r; [apply Z.pow_pos_nonneg; lia|].
    eapply Z.lt_le_trans; [exact Hm|]. apply Z.pow_le_mono_r; lia.
  - rewrite <- Z.pow_add_r by lia. apply Z.pow_le_mono_r; lia.
Qed.

Lemma pos_compare_cont_Eq a b : Pos.compare_cont Eq a b = (Zpos a ?= Zpos b).
Proof. reflexivity. Qed.

Lemma finite_key_compare m1 e1 m2 e2 :
  valid_binary (S754_finite false m1 e1) = true ->
  valid_binary (S754_finite false m2 e2) = true ->
  match e1 ?= e2 with
  | Lt => Lt
  | Gt => Gt
  | Eq => Pos.compare_cont Eq m1 m2
  end = (Zpos m1 * 2 ^ (e1 - emin64) ?= Zpos m2 * 2 ^ (e2 - emin64)).
Proof.
  intros V1 V2.
  apply valid_finite in V1, V2.
  destruct V1 as (He1 & Hd1 & Hn1), V2 as (He2 & Hd2 & Hn2).
  pose proof (digits2_bounds m1) as [Hl1 Hu1].
  pose proof (digits2_bounds m2) as [Hl2 Hu2].
  assert (Hlt : forall ma ea mb eb,
             emin64 <= ea -> ea < eb ->
             Zpos ma < 2 ^ prec -> 2 ^ (prec - 1) <= Zpos mb ->
             Zpos ma * 2 ^ (ea - emin64) < Zpos mb * 2 ^ (eb - emin64)).
  { intros ma ea mb eb Ha Hab Hma Hmb.
    replace (eb - emin64) with ((eb - ea) + (ea - emin64)) by lia.
    rewrite Z.pow_add_r by lia. rewrite Z.mul_assoc.
    apply Z.mul_lt_mono_pos_r; [apply Z.pow_pos_nonneg; lia|].
    apply Z.lt_le_trans with (2 ^ prec); [exact Hma|].
    replace prec with ((prec - 1) + 1) at 1 by lia.
    rewrite Z.pow_add_r by (unfold prec; lia).
    apply Z.mul_le_mono_nonneg.
    - apply Z.pow_nonneg; lia.
    - exact Hmb.
    - lia.
    - apply Z.pow_le_mono_r; lia. }
  assert (Hup : forall m, Zpos (digits2_pos m) <= prec ->
                Zpos m < 2 ^ Zpos (digits2_pos m) -> Zpos m < 2 ^ prec).
  { intros m Hd Hm. eapply Z.lt_le_trans; [exact Hm|].
    apply Z.pow_le_mono_r; lia. }
  destruct (Z.compare_spec e1 e2) as [E|E|E].
  - subst e2.
    rewrite pos_compare_cont_Eq.
    apply Zmult_compare_compat_r.
    assert (0 < 2 ^ (e1 - emin64)) by (apply Z.pow_pos_nonneg; lia). lia.
  - symmetry. apply Z.compare_lt_iff.
    apply Hlt; [lia|lia|now apply Hup|].
    rewrite <- Hn2 by lia. exact Hl2.
  - symmetry. apply Z.compare_gt_iff.
    apply Hlt; [lia|lia|now apply Hup|].
    rewrite <- Hn1 by lia. exact Hl1.
Qed.

Lemma SFcompare_key x y :
  valid_binary x = true -> valid_binary y = true ->
  not_nan x -> not_nan y ->
  SFcompare x y = Some (key x ?= key y).
Proof.
  intros Vx Vy Nx Ny.
  assert (Hbig : 0 < key_inf) by reflexivity.
  destruct x as [sx|sx| |sx mx ex]; try destruct Nx;
    destruct y as [sy|sy| |sy my ey]; try destruct Ny;
    try pose proof (key_finite_bounds _ _ _ Vx) as Bx;
    try pose proof (key_finite_bounds _ _ _ Vy) as By;
    try destruct sx; try destruct sy;
    cbn [SFcompare key cond_Zopp]; f_equal;
    try (symmetry; first [ apply Z.compare_eq_iff; lia
                         | apply Z.compare_lt_iff; lia
                         | apply Z.compare_gt_iff; lia ]).
  - rewrite Z.compare_opp.
    rewrite <- (finite_key_compare my ey mx ex) by assumption.
    rewrite (Z.compare_antisym ex ey).
    destruct (ex ?= ey) eqn:E; cbn [CompOpp]; try reflexivity.
    change (CompOpp (Pos.compare mx my) = Pos.compare my mx).
    symmetry. apply Pos.compare_antisym.
  - now apply finite_key_compare.
Qed.

(** *** Rounding a positive mantissa gives a positive float *)

Lemma shr_1_m mrs : 0 <= shr_m mrs -> shr_m (shr_1 mrs) = shr_m mrs / 2.
Proof.
  destruct mrs as [m r s]. cbn [shr_m]. intros Hm.
  destruct m as [|p|p]; [reflexivity| |lia].
  destruct p as [p|p|]; cbn [shr_1 shr_m].
  - rewrite Pos2Z.inj_xI. apply Z.div_unique with 1; lia.
  - rewrite Pos2Z.inj_xO. apply Z.div_unique with 0; lia.
  - reflexivity.
Qed.

Lemma div_pow2_div a n k :
  0 <= n -> 0 <= k -> a / 2 ^ n / 2 ^ k = a / 2 ^ (n + k).
Proof.
  intros Hn Hk.
  assert (0 < 2 ^ n) by (apply Z.pow_pos_nonneg; lia).
  assert (0 < 2 ^ k) by (apply Z.pow_pos_nonneg; lia).
  rewrite Z.pow_add_r by lia. rewrite Z.div_div by lia. reflexivity.
Qed.

Lemma iter_shr_m p : forall mrs,
  0 <= shr_m mrs -> shr_m (SpecFloat.iter_pos shr_1 p mrs) = shr_m mrs / 2 ^ Zpos p.
Proof.
  assert (Hdiv : forall a n, 0 <= a -> 0 <= n -> 0 <= a / 2 ^ n).
  { intros. apply Z.div_pos; [lia|apply Z.pow_pos_nonneg; lia]. }
  induction p as [p IH|p IH|]; intros mrs Hm; cbn [SpecFloat.iter_pos].
  - assert (H1 : 0 <= shr_m (shr_1 mrs)).
    { rewrite shr_1_m by assumption. apply (Hdiv _ 1); lia. }
    assert (H2 : 0 <= shr_m (SpecFloat.iter_pos shr_1 p (shr_1 mrs))).
    { rewrite IH by assumption. apply Hdiv; lia. }
    rewrite IH, IH, shr_1_m by assumption.
    change 2 with (2 ^ 1) at 1. rewrite !div_pow2_div by lia.
    f_equal. f_equal. lia.
  - assert (H2 : 0 <= shr_m (SpecFloat.iter_pos shr_1 p mrs)).
    { rewrite IH by assumption. apply Hdiv; lia. }
    rewrite IH, IH by assumption. rewrite div_pow2_div by lia.
    f_equal. f_equal. lia.
  - rewrite shr_1_m by assumption. reflexivity.
Qed.

Lemma shr_record_of_loc_m m l : shr_m (shr_record_of_loc m l) = m.
Proof. destruct l as [|[]]; reflexivity. Qed.

Lemma shr_fexp_pos m e l :
  0 < m -> emin64 <= e ->
  0 < shr_m (fst (shr_fexp prec emax m e l))
  /\ emin64 <= snd (shr_fexp prec emax m e l).
Proof.
  intros Hm He. unfold shr_fexp, shr.
  destruct m as [|p|p]; try lia. cbn [Zdigits2].
  pose proof (digits2_bounds p) as [Hl Hu].
  set (d := Zpos (digits2_pos p)) in *.
  assert (Hd : 0 < d) by (unfold d; lia).
  unfold fexp. fold emin64. fold SpecFloat.emin in *.
  change (SpecFloat.emin prec emax) with emin64.
  destruct (Z.max (d + e - prec) emin64 - e) as [|n|n] eqn:En; cbn [fst snd].
  - rewrite shr_record_of_loc_m. lia.
  - rewrite iter_shr_m by (rewrite shr_record_of_loc_m; lia).
    rewrite shr_record_of_loc_m. split; [|lia].
    assert (Hn : Zpos n <= d - 1) by (unfold prec in *; lia).
    apply Z.div_str_pos. split; [apply Z.pow_pos_nonneg; lia|].
    eapply Z.le_trans; [|exact Hl]. apply Z.pow_le_mono_r; lia.
  - rewrite shr_record_of_loc_m. lia.
Qed.

Lemma round_nearest_even_pos m l : 0 < m -> 0 < round_nearest_even m l.
Proof.
  intros H. destruct l as [|[]]; cbn [round_nearest_even]; try lia.
  destruct (Z.even m); lia.
Qed.

Lemma binary_round_aux_pos m e l :
  0 < m -> emin64 <= e -> positive_sf (binary_round_aux prec emax false m e l).
Proof.
  intros Hm He. unfold binary_round_aux.
  destruct (shr_fexp_pos m e l Hm He) as [H1 H2].
  destruct (shr_fexp prec emax m e l) as [mrs' e']. cbn [fst snd] in *.
  pose proof (round_nearest_even_pos _ (loc_of_shr_record mrs') H1) as H3.
  destruct (shr_fexp_pos _ e' loc_Exact H3 H2) as [H4 _].
  destruct (shr_fexp prec emax _ e' loc_Exact) as [mrs'' e'']. cbn [fst] in *.
  destruct (shr_m mrs''); try lia.
  destruct (e'' <=? emax - prec); exact I.
Qed.

Lemma binary_round_aux_neg m e l :
  nonpositive_sf (binary_round_aux prec emax true m e l).
Proof.
  unfold binary_round_aux.
  destruct (shr_fexp prec emax m e l) as [mrs' e'].
  destruct (shr_fexp prec emax _ e' loc_Exact) as [mrs'' e''].
  destruct (shr_m mrs''); try exact I.
  destruct (e'' <=? emax - prec); exact I.
Qed.

Lemma binary_round_pos m e :
  emin64 <= e -> positive_sf (binary_round prec emax false m e).
Proof.
  intros He. unfold binary_round.
  destruct (shl_align m e _) as [mz ez] eqn:E.
  apply binary_round_aux_pos; [lia|].
  unfold shl_align in E.
  destruct (fexp prec emax (Zpos (digits2_pos m) + e) - e) eqn:E';
    injection E as <- <-; try lia.
  unfold fexp. fold emin64. change (SpecFloat.emin prec emax) with emin64. lia.
Qed.

Lemma binary_round_neg m e : nonpositive_sf (binary_round prec emax true m e).
Proof.
  unfold binary_round. destruct (shl_align m e _) as [mz ez].
  apply binary_round_aux_neg.
Qed.

Lemma positive_sf_ltb x : positive_sf x -> SFltb (S754_zero false) x = true.
Proof. destruct x as [| [] | | [] ? ?]; simpl; tauto. Qed.

Lemma nonpositive_sf_ltb x : nonpositive_sf x -> SFltb (S754_zero false) x = false.
Proof. destruct x as [| [] | | [] ? ?]; simpl; tauto. Qed.

(** *** The sign of a difference *)

Lemma SFsub_sign x y :
  valid_binary x = true -> valid_binary y = true ->
  not_nan x -> not_nan y ->
  SFltb (S754_zero false) (SF64sub y x) = (key x <? key y).
Proof.
  intros Vx Vy Nx Ny.
  assert (Hbig : 0 < key_inf) by reflexivity.
  destruct x as [sx|sx| |sx mx ex]; try destruct Nx;
    destruct y as [sy|sy| |sy my ey]; try destruct Ny;
    try pose proof (key_finite_bounds _ _ _ Vx) as Bx;
    try pose proof (key_finite_bounds _ _ _ Vy) as By.
  9: {
    unfold SF64sub, SFsub.
    apply valid_finite in Vx, Vy.
    destruct Vx as (Hx & _), Vy as (Hy & _).
    set (ez := Z.min ey ex).
    rewrite !shl_align_val by lia.
    set (D := cond_Zopp sy (Zpos my * 2 ^ (ey - ez))
              - cond_Zopp sx (Zpos mx * 2 ^ (ex - ez))).
    assert (HD : key (S754_finite sy my ey) - key (S754_finite sx mx ex)
                 = D * 2 ^ (ez - emin64)).
    { unfold D, key. 
      replace (ey - emin64) with ((ey - ez) + (ez - emin64)) by lia.
      replace (ex - emin64) with ((ex - ez) + (ez - emin64)) by lia.
      rewrite !Z.pow_add_r by lia.
      destruct sx, sy; cbn [cond_Zopp]; ring. }
    assert (Hp : 0 < 2 ^ (ez - emin64)) by (apply Z.pow_pos_nonneg; lia).
    unfold binary_normalize.
    set (kx := key (S754_finite sx mx ex)) in *.
    set (ky := key (S754_finite sy my ey)) in *.
    clearbody kx ky.
    destruct D as [|p|p] eqn:ED.
    - change (SFltb (S754_zero false) (S754_zero false)) with false.
      symmetry. apply Z.ltb_ge. lia.
    - rewrite positive_sf_ltb by (apply binary_round_pos; lia).
      symmetry. apply Z.ltb_lt. nia.
    - rewrite nonpositive_sf_ltb by apply binary_round_neg.
      symmetry. apply Z.ltb_ge. nia. }
  all: try destruct sx; try destruct sy; cbn [SF64sub SFsub SFltb SFcompare key cond_Zopp negb];
    symmetry; first [apply Z.ltb_lt; lia | apply Z.ltb_ge; lia].
Qed.

(** *** Primitive floats *)

Lemma is_nan_not_nan x : PrimFloat.is_nan x = false -> not_nan (Prim2SF x).
Proof.
  unfold PrimFloat.is_nan. rewrite FloatAxioms.eqb_spec. intros H.
  destruct (Prim2SF x); try exact I. discriminate H.
Qed.

Lemma ltb_fkey x y :
  PrimFloat.is_nan x = false -> PrimFloat.is_nan y = false ->
  (x <? y)%float = (fkey x <? fkey y).
Proof.
  intros Hx Hy. rewrite FloatAxioms.ltb_spec. unfold SFltb, fkey.
  rewrite SFcompare_key by (try apply Prim2SF_valid; now apply is_nan_not_nan).
  unfold Z.ltb. now destruct (key (Prim2SF x) ?= key (Prim2SF y)).
Qed.

Lemma eqb_fkey x y :
  PrimFloat.is_nan x = false -> PrimFloat.is_nan y = false ->
  (x =? y)%float = (fkey x =? fkey y).
Proof.
  intros Hx Hy. rewrite FloatAxioms.eqb_spec. unfold SFeqb, fkey.
  rewrite SFcompare_key by (try apply Prim2SF_valid; now apply is_nan_not_nan).
  destruct (Z.compare_spec (key (Prim2SF x)) (key (Prim2SF y))) as [E|E|E];
    symmetry; [apply Z.eqb_eq|apply Z.eqb_neq|apply Z.eqb_neq]; lia.
Qed.

Lemma sub_pos_fkey x y :
  PrimFloat.is_nan x = false -> PrimFloat.is_nan y = false ->
  (0 <? y - x)%float = (fkey x <? fkey y).
Proof.
  intros Hx Hy. rewrite FloatAxioms.ltb_spec, FloatAxioms.sub_spec.
  change (Prim2SF 0) with (S754_zero false).
  apply SFsub_sign; try apply Prim2SF_valid; now apply is_nan_not_nan.
Qed.

(** ** Two-Category Comparator *)

Import ComparatorSpec.

Lemma count_nil p : count p [] = 0.
Proof. reflexivity. Qed.

Lemma count_snoc p l x :
  count p (l ++ [x]) = count p l + (if p x then 1 else 0).
Proof.
  unfold count. rewrite List.filter_app, List.length_app. simpl.
  destruct (p x); simpl; lia.
Qed.

Lemma count_nonneg p l : 0 <= count p l.
Proof. unfold count. lia. Qed.

(** A count is at most the number of rows, which an array keeps below
    2^32: the counters stay in the range where binary64 is exact. *)
Lemma count_le_length p l : count p l <= Z.of_nat (length l).
Proof.
  unfold count. apply Nat2Z.inj_le, List.filter_length_le.
Qed.

Lemma count_and_le p q l : count (fun i => p i && q i) l <= count p l.
Proof.
  induction l as [|x l IH] using rev_ind; [reflexivity|].
  rewrite !count_snoc. destruct (p x), (q x); simpl; lia.
Qed.

Section ComparatorFold.
Variables conditionColumn responseColumn leftCategory rightCategory : string.

Let stats_of (l : list DataItem) : JS.obj Comparator.Stat :=
  fold_left
    (Comparator.tally conditionColumn responseColumn leftCategory rightCategory)
    l [].

Let ok := tally_ok conditionColumn responseColumn leftCategory rightCategory.

Lemma read_cases {V} (o : JS.obj V) k :
  match JS.obj_get o k with
  | Some v => JS.obj_read o k = JS.Own v
  | None => JS.obj_read o k = if JS.inherited k then JS.Proto k else JS.Undef
  end.
Proof. unfold JS.obj_read. now destruct (JS.obj_get o k). Qed.

(** No entry is ever made under an inherited name. *)
Lemma tally_keys l k : In k (map fst (stats_of l)) -> JS.inherited k = false.
Proof.
  induction l as [|x l IH] using rev_ind; [intros []|].
  unfold stats_of in *. rewrite fold_left_app. cbn [fold_left].
  set (stats := fold_left (Comparator.tally _ _ _ _) l []) in *.
  unfold Comparator.tally. cbv zeta.
  destruct (_ || _); [exact IH|].
  set (k0 := Comparator.key_of _).
  pose proof (read_cases stats k0) as Hr.
  destruct (JS.obj_get stats k0) as [st|] eqn:E; [|destruct (JS.inherited k0) eqn:Ei];
    rewrite Hr; try exact IH;
    rewrite obj_set_keys, E; try exact IH.
  intros H. apply in_app_or in H. destruct H as [H|[<-|[]]]; [now apply IH|exact Ei].
Qed.

Lemma tally_step l x c :
  JS.inherited c = false ->
  ok l c (JS.obj_get (stats_of l) c) ->
  ok (l ++ [x]) c (JS.obj_get (stats_of (l ++ [x])) c).
Proof.
  intros Hc. unfold stats_of. rewrite fold_left_app. cbn [fold_left].
  set (stats := fold_left (Comparator.tally _ _ _ _) l []).
  set (t := tallied conditionColumn responseColumn c).
  set (a := answered responseColumn).
  assert (Hskip : t x = false -> ok l c (JS.obj_get stats c) ->
                  ok (l ++ [x]) c (JS.obj_get stats c)).
  { intros Hx. unfold ok, tally_ok. fold t a. rewrite !count_snoc, Hx.
    cbn [andb]. now rewrite !Z.add_0_r. }
  unfold Comparator.tally. cbv zeta.
  set (cond := JS.row_read x conditionColumn).
  set (resp := JS.row_read x responseColumn).
  assert (Ht : t x = JS.read_truthy cond && JS.read_truthy resp
                     && (Comparator.key_of cond =? c)%string) by reflexivity.
  assert (Ha : forall v, a v x = Comparator.is_category resp v) by reflexivity.
  destruct (JS.read_truthy cond); [|now apply Hskip].
  destruct (JS.read_truthy resp); [|apply Hskip; rewrite Ht; reflexivity].
  cbn [negb orb andb] in *.
  set (k := Comparator.key_of cond) in *.
  pose proof (read_cases stats k) as Hr. clearbody k.
  destruct (String.eqb_spec k c) as [E|Hne].
  - subst k. clear Hskip. rewrite Hc in Hr.
    pose proof (count_and_le t (a leftCategory) l) as Hl.
    pose proof (count_and_le (fun i => t i && negb (a leftCategory i))
                  (a rightCategory) l) as Hr0.
    pose proof (count_and_le t (fun i => negb (a leftCategory i)) l) as Hr'.
    pose proof (count_nonneg (fun i => t i && a leftCategory i) l).
    pose proof (count_nonneg
                  (fun i => t i && negb (a leftCategory i) && a rightCategory i) l).
    unfold ok, tally_ok. fold t a. rewrite !count_snoc, Ht, !Ha.
    clearbody t a. cbv beta in *.
    destruct (JS.obj_get stats c) as [st|]; rewrite Hr, obj_get_set_eq;
      destruct (Comparator.is_category resp leftCategory);
      destruct (Comparator.is_category resp rightCategory);
      cbn [andb negb Comparator.total Comparator.left Comparator.right];
      intros Hst; repeat split; lia.
  - assert (Hx : t x = false) by (rewrite Ht; reflexivity).
    destruct (JS.obj_get stats k) as [st|]; [|destruct (JS.inherited k)];
      rewrite Hr; rewrite ?obj_get_set_ne by assumption; now apply Hskip.
Qed.

Lemma tally_fold l c :
  JS.inherited c = false -> ok l c (JS.obj_get (stats_of l) c).
Proof.
  intros Hc. induction l as [|x l IH] using rev_ind; [reflexivity|].
  now apply tally_step.
Qed.

Lemma tally_NoDup l : List.NoDup (map fst (stats_of l)).
Proof.
  induction l as [|x l IH] using rev_ind; [constructor|].
  unfold stats_of in *. rewrite fold_left_app. cbn [fold_left].
  set (stats := fold_left (Comparator.tally _ _ _ _) l []) in *.
  unfold Comparator.tally. cbv zeta.
  destruct (_ || _); [exact IH|].
  destruct (JS.obj_read stats _); try exact IH; apply obj_set_NoDup, IH.
Qed.

End ComparatorFold.

(** *** The sorted distinct responses *)

Lemma ascii_compare_refl a : Ascii.compare a a = Eq.
Proof. unfold Ascii.compare. apply N.compare_refl. Qed.

Lemma string_compare_lt_trans a b c :
  String.compare a b = Lt -> String.compare b c = Lt -> String.compare a c = Lt.
Proof.
  revert b c. induction a as [|x a IH]; intros [|y b] [|z c]; simpl; try easy.
  destruct (Ascii.compare x y) eqn:Exy; try discriminate;
    destruct (Ascii.compare y z) eqn:Eyz; try discriminate.
  - apply Ascii.compare_eq_iff in Exy, Eyz. subst.
    rewrite ascii_compare_refl. apply IH.
  - apply Ascii.compare_eq_iff in Exy. subst. now rewrite Eyz.
  - apply Ascii.compare_eq_iff in Eyz. subst. now rewrite Exy.
  - assert (Ascii.compare x z = Lt) as ->; [|reflexivity].
    unfold Ascii.compare in *. rewrite N.compare_lt_iff in *. lia.
Qed.

Lemma string_ltb_trans a b c :
  String.ltb a b = true -> String.ltb b c = true -> String.ltb a c = true.
Proof.
  unfold String.ltb. intros H1 H2.
  destruct (String.compare a b) eqn:E1; try discriminate.
  destruct (String.compare b c) eqn:E2; try discriminate.
  now rewrite (string_compare_lt_trans _ _ _ E1 E2).
Qed.

Lemma string_ltb_irrefl a : String.ltb a a = false.
Proof.
  unfold String.ltb. destruct (String.compare a a) eqn:E; try reflexivity.
  pose proof (String.compare_antisym a a) as H. rewrite E in H. discriminate.
Qed.

Lemma string_ltb_asym a b : String.ltb a b = true -> String.ltb b a = false.
Proof.
  unfold String.ltb. rewrite (String.compare_antisym a b).
  now destruct (String.compare b a).
Qed.

Lemma string_ltb_total a b : a <> b -> String.ltb b a = false -> String.ltb a b = true.
Proof.
  unfold String.ltb. rewrite (String.compare_antisym a b). intros Hne.
  destruct (String.compare b a) eqn:E; try easy.
  apply String.compare_eq_iff in E. congruence.
Qed.

Lemma string_geb_trans a b c :
  String.ltb b a = false -> String.ltb c b = false -> String.ltb c a = false.
Proof.
  intros H1 H2. destruct (String.ltb c a) eqn:E; [|reflexivity].
  destruct (String.eqb_spec a b) as [->|Hab]; [congruence|].
  destruct (String.eqb_spec b c) as [->|Hbc]; [congruence|].
  pose proof (string_ltb_total _ _ Hab H1) as Lab.
  pose proof (string_ltb_total _ _ Hbc H2) as Lbc.
  pose proof (string_ltb_trans _ _ _ Lab Lbc) as Lac.
  apply string_ltb_asym in Lac. congruence.
Qed.

Lemma sort_strings_sorted l :
  List.NoDup l ->
  StronglySorted (fun a b => String.ltb a b = true) (JS.sort_strings l).
Proof.
  intros Hnd.
  assert (Hs : StronglySorted (fun a b => String.ltb b a = false) (JS.sort_strings l)).
  { apply sort_sorted.
    - intros a b. apply string_ltb_asym.
    - intros a b c. apply string_geb_trans. }
  assert (Hn : List.NoDup (JS.sort_strings l)).
  { eapply Permutation_NoDup; [symmetry; apply sort_perm|exact Hnd]. }
  induction Hs as [|x l' Hl IH Hx]; [constructor|].
  inversion Hn as [|? ? Hx' Hn']; subst.
  constructor; [now apply IH|].
  rewrite List.Forall_forall in *. intros y Hy.
  apply string_ltb_total; [intros ->; contradiction|now apply Hx].
Qed.

Lemma array_from_set_acc {A} `{EqDecision A} (l acc : list A) :
  let r := fold_left (fun seen x => if decide (x ∈ seen) then seen else (seen ++ [x])%list)
             l acc in
  (forall x, In x r <-> In x acc \/ In x l) /\ (List.NoDup acc -> List.NoDup r).
Proof.
  revert acc. induction l as [|y l IH]; intros acc; simpl.
  - split; [intros x; tauto|auto].
  - destruct (IH (if decide (y ∈ acc) then acc else (acc ++ [y])%list)) as [IH1 IH2].
    split.
    + intros x. rewrite IH1. destruct (decide (y ∈ acc)) as [Hy|Hy].
      * apply list_elem_of_In in Hy. intuition (subst; auto).
      * rewrite in_app_iff. simpl. tauto.
    + intros Hnd. apply IH2. destruct (decide (y ∈ acc)) as [Hy|Hy]; [exact Hnd|].
      apply List.NoDup_app; [exact Hnd|repeat constructor; simpl; tauto|].
      intros x Hx [<-|[]]. apply Hy, list_elem_of_In, Hx.
Qed.

Lemma array_from_set_In {A} `{EqDecision A} (l : list A) x :
  In x (JS.array_from_set l) <-> In x l.
Proof.
  destruct (array_from_set_acc l []) as [H _]. unfold JS.array_from_set.
  rewrite H. simpl. tauto.
Qed.

Lemma array_from_set_NoDup {A} `{EqDecision A} (l : list A) :
  List.NoDup (JS.array_from_set l).
Proof.
  destruct (array_from_set_acc l []) as [_ H]. apply H. constructor.
Qed.

Lemma keep_truthy_In l s :
  In s (Comparator.keep_truthy l) <-> In (Some s) l /\ s <> "".
Proof.
  unfold Comparator.keep_truthy. rewrite in_flat_map. split.
  - intros [[t|] [Hin Hs]]; [|destruct Hs].
    unfold JS.truthy in Hs. destruct (String.eqb_spec t ""); simpl in Hs; [destruct Hs|].
    destruct Hs as [<-|[]]. auto.
  - intros [Hin Hne]. exists (Some s). split; [exact Hin|].
    unfold JS.truthy. destruct (String.eqb_spec s ""); [contradiction|simpl; auto].
Qed.

Lemma keep_truthy_NoDup l : List.NoDup l -> List.NoDup (Comparator.keep_truthy l).
Proof.
  induction 1 as [|o l Ho Hl IH]; [constructor|].
  unfold Comparator.keep_truthy in *. cbn [flat_map].
  destruct o as [s|]; [|exact IH].
  destruct (JS.truthy s); [|exact IH].
  simpl. constructor; [|exact IH].
  intros Hin. apply keep_truthy_In in Hin. tauto.
Qed.

Lemma uniqueResponses_spec fd rc :
  sorted_responses fd rc (Comparator.uniqueResponses fd rc).
Proof.
  unfold sorted_responses, Comparator.uniqueResponses. split.
  - apply sort_strings_sorted, keep_truthy_NoDup, array_from_set_NoDup.
  - intros v. unfold JS.sort_strings. rewrite sort_In, keep_truthy_In, array_from_set_In.
    rewrite in_map_iff. split.
    + intros [[item [E Hin]] Hne]. split; [exact Hne|]. now exists item.
    + intros [Hne [item [Hin E]]]. split; [|exact Hne]. now exists item.
Qed.

Section SortedUnique.
Context {A : Type} (R : A -> A -> Prop).
Hypothesis R_irrefl : forall a, ~ R a a.
Hypothesis R_trans : forall a b c, R a b -> R b c -> R a c.

Lemma sorted_same_elements l1 l2 :
  StronglySorted R l1 -> StronglySorted R l2 ->
  (forall x, In x l1 <-> In x l2) -> l1 = l2.
Proof.
  intros H1. revert l2. induction H1 as [|a l1 Hl1 IH Ha]; intros l2 H2 Hin.
  - destruct l2 as [|b l2]; [reflexivity|]. exfalso. apply (Hin b). now left.
  - destruct H2 as [|b l2 Hl2 Hb]; [exfalso; apply (Hin a); now left|].
    rewrite List.Forall_forall in Ha, Hb.
    assert (a = b) as <-.
    { destruct (proj1 (Hin a) (or_introl eq_refl)) as [E|E]; [now symmetry|].
      destruct (proj2 (Hin b) (or_introl eq_refl)) as [E'|E']; [exact E'|].
      exfalso. apply (R_irrefl a). eapply R_trans; [apply Ha, E'|apply Hb, E]. }
    f_equal. apply IH; [exact Hl2|]. intros x. split; intros Hx.
    + destruct (proj1 (Hin x) (or_intror Hx)) as [<-|E]; [|exact E].
      exfalso. apply (R_irrefl a), Ha, Hx.
    + destruct (proj2 (Hin x) (or_intror Hx)) as [<-|E]; [|exact E].
      exfalso. apply (R_irrefl a), Hb, Hx.
Qed.
End SortedUnique.

Lemma sorted_responses_unique fd rc vals :
  sorted_responses fd rc vals -> vals = Comparator.uniqueResponses fd rc.
Proof.
  intros [Hs Hin]. destruct (uniqueResponses_spec fd rc) as [Hs' Hin'].
  apply (sorted_same_elements (fun a b => String.ltb a b = true)); auto.
  - intros a. rewrite string_ltb_irrefl. discriminate.
  - apply string_ltb_trans.
  - intros x. now rewrite Hin, Hin'.
Qed.

(** *** The emitted records *)

Lemma count_ext p q l : (forall x, In x l -> p x = q x) -> count p l = count q l.
Proof.
  intros H. unfold count. f_equal. f_equal. apply List.filter_ext_in, H.
Qed.

Lemma count_split p q l :
  count p l = count (fun i => p i && q i) l + count (fun i => p i && negb (q i)) l.
Proof.
  induction l as [|x l IH] using rev_ind; [reflexivity|].
  rewrite !count_snoc. destruct (p x), (q x); simpl; lia.
Qed.

(** Every record comes from the tally of its condition, and the two
    categories are different. *)
Lemma comparator_records data cc rc filters r :
  In r (Comparator.data (Comparator.processData data cc rc filters)) ->
  exists L R rest st,
    Comparator.uniqueResponses (Comparator.filteredData data filters) rc
      = L :: R :: rest
    /\ L <> R
    /\ Comparator.categories (Comparator.processData data cc rc filters) = (L, R)
    /\ tally_ok cc rc L R (Comparator.filteredData data filters)
         (Comparator.condition r) (Some st)
    /\ r = Comparator.record_of L R (Comparator.condition r, st).
Proof.
  unfold Comparator.processData.
  destruct (_ || _); [intros []|].
  set (fd := Comparator.filteredData data filters).
  destruct (uniqueResponses_spec fd rc) as [Hs _].
  destruct (Comparator.uniqueResponses fd rc) as [|L [|R rest]]; try (intros []).
  cbn [Comparator.data Comparator.categories].
  rewrite sort_In, in_map_iff. intros [[c st] [<- Hin]].
  exists L, R, rest, st. cbn [Comparator.record_of Comparator.condition].
  split; [reflexivity|]. split.
  { inversion Hs as [|? ? _ HL]; subst. inversion HL as [|? ? HLR _]; subst.
    intros ->. rewrite string_ltb_irrefl in HLR. discriminate. }
  split; [reflexivity|]. split; [|reflexivity].
  apply (proj1 (obj_entries_In _ _)) in Hin.
  assert (Hc : JS.inherited c = false).
  { apply (tally_keys cc rc L R fd). apply in_map_iff. now exists (c, st). }
  apply obj_In_get in Hin; [|apply tally_NoDup].
  rewrite <- Hin. now apply tally_fold.
Qed.

(** C5: on the three rows X/Yes, X/No, Y/Yes and no filter, the
    Comparator returns the categories ("No", "Yes") and the records
    X (-1, 1, total 2) and Y (0, 1, total 1), in that order. *)
Theorem comparator_end_to_end :
  Comparator.processData
    [ {[ "cond" := "X"; "resp" := "Yes" ]};
      {[ "cond" := "X"; "resp" := "No" ]};
      {[ "cond" := "Y"; "resp" := "Yes" ]} ]
    "cond" "resp" []
  = {| Comparator.data :=
         [ {| Comparator.condition := "X"; Comparator.leftValue := -1;
              Comparator.rightValue := 1; Comparator.leftLabel := "No";
              Comparator.rightLabel := "Yes"; Comparator.itemTotal := 2 |};
           {| Comparator.condition := "Y"; Comparator.leftValue := 0;
              Comparator.rightValue := 1; Comparator.leftLabel := "No";
              Comparator.rightLabel := "Yes"; Comparator.itemTotal := 1 |} ];
       Comparator.categories := ("No", "Yes") |}.
Proof. vm_compute. reflexivity. Qed.

(** C6: for a call with a response column (the callers make the call
    only when one is selected, so that its name is not empty): with
    fewer than two distinct non-empty response values among the filtered
    rows the Comparator returns the empty result, and it returns it, it
    does not throw; with two or more, the categories are the first two
    of these values in lexicographic order. *)
Theorem comparator_categories data cc rc filters vals :
  rc <> "" ->
  sorted_responses (Comparator.filteredData data filters) rc vals ->
  ((length vals < 2)%nat ->
   Comparator.processData data cc rc filters = Comparator.empty_result)
  /\ (forall l r rest, vals = l :: r :: rest ->
      Comparator.categories (Comparator.processData data cc rc filters) = (l, r)).
Proof.
  intros Hrc Hv. apply sorted_responses_unique in Hv. subst vals.
  unfold Comparator.processData. split.
  - intros Hlen. destruct (_ || _); [reflexivity|].
    destruct (Comparator.uniqueResponses _ rc) as [|l [|r rest]];
      [reflexivity|reflexivity|simpl in Hlen; lia].
  - intros l r rest E.
    assert (JS.truthy rc = true) as ->.
    { unfold JS.truthy. now destruct (String.eqb_spec rc ""). }
    destruct data as [|d data].
    + unfold Comparator.filteredData, Comparator.uniqueResponses in E.
      discriminate E.
    + cbn [length Nat.eqb negb orb]. now rewrite E.
Qed.

Lemma comparator_categories_witness :
  Comparator.categories
    (Comparator.processData
       [ {[ "cond" := "X"; "resp" := "Yes" ]};
         {[ "cond" := "X"; "resp" := "No" ]} ] "cond" "resp" [])
  = ("No", "Yes").
Proof.
  refine (proj2 (comparator_categories _ "cond" "resp" [] _ _
                   (uniqueResponses_spec _ _)) "No" "Yes" [] _).
  - discriminate.
  - vm_compute. reflexivity.
Defined.

(** C7: in every record, [leftValue] is minus the number of filtered
    rows of that condition whose response is the left category,
    [rightValue] is the number of those whose response is the right
    category; so [leftValue <= 0 <= rightValue]. *)
Theorem comparator_sign data cc rc filters r :
  In r (Comparator.data (Comparator.processData data cc rc filters)) ->
  let fd := Comparator.filteredData data filters in
  let cats := Comparator.categories (Comparator.processData data cc rc filters) in
  Comparator.leftValue r =
    - count (fun i => tallied cc rc (Comparator.condition r) i
                      && answered rc (fst cats) i) fd
  /\ Comparator.rightValue r =
       count (fun i => tallied cc rc (Comparator.condition r) i
                       && answered rc (snd cats) i) fd
  /\ Comparator.leftValue r <= 0
  /\ 0 <= Comparator.rightValue r.
Proof.
  intros Hin fd cats.
  destruct (comparator_records _ _ _ _ _ Hin)
    as (L & R & rest & st & _ & Hne & Hc & (_ & Hl & Hr) & Hrec).
  subst cats. rewrite Hc. cbn [fst snd]. fold fd in Hl, Hr.
  rewrite Hrec. cbn [Comparator.record_of Comparator.leftValue
                       Comparator.rightValue Comparator.condition].
  assert (Hr' : Comparator.right st =
                count (fun i => tallied cc rc (Comparator.condition r) i
                                && answered rc R i) fd).
  { rewrite Hr. apply count_ext. intros x _. unfold answered, Comparator.is_category.
    destruct (JS.row_read x rc) as [resp| |]; try (now rewrite !andb_false_r).
    destruct (String.eqb_spec resp L) as [->|]; [|now rewrite andb_true_r].
    destruct (String.eqb_spec L R); [contradiction|now rewrite !andb_false_r]. }
  rewrite Hl, Hr'. repeat split; try reflexivity.
  - pose proof (count_nonneg (fun i => tallied cc rc (Comparator.condition r) i
                                       && answered rc L i) fd). lia.
  - apply count_nonneg.
Qed.

Lemma comparator_sign_witness :
  exists r,
    In r (Comparator.data
            (Comparator.processData
               [ {[ "cond" := "X"; "resp" := "Yes" ]};
                 {[ "cond" := "X"; "resp" := "No" ]} ] "cond" "resp" []))
    /\ Comparator.leftValue r <= 0 /\ 0 <= Comparator.rightValue r.
Proof.
  exists {| Comparator.condition := "X"; Comparator.leftValue := -1;
            Comparator.rightValue := 1; Comparator.leftLabel := "No";
            Comparator.rightLabel := "Yes"; Comparator.itemTotal := 2 |}.
  assert (H : In {| Comparator.condition := "X"; Comparator.leftValue := -1;
                    Comparator.rightValue := 1; Comparator.leftLabel := "No";
                    Comparator.rightLabel := "Yes"; Comparator.itemTotal := 2 |}
                (Comparator.data
                   (Comparator.processData
                      [ {[ "cond" := "X"; "resp" := "Yes" ]};
                        {[ "cond" := "X"; "resp" := "No" ]} ] "cond" "resp" []))).
  { vm_compute. left. reflexivity. }
  split; [exact H|].
  exact (proj2 (proj2 (comparator_sign _ _ _ _ _ H))).
Defined.

(** C9: in every record the two side counts add up to at most the
    total; the difference is the number of filtered rows of that
    condition whose non-empty response is neither category. *)
Theorem comparator_total data cc rc filters r :
  In r (Comparator.data (Comparator.processData data cc rc filters)) ->
  let fd := Comparator.filteredData data filters in
  let cats := Comparator.categories (Comparator.processData data cc rc filters) in
  - Comparator.leftValue r + Comparator.rightValue r <= Comparator.itemTotal r
  /\ Comparator.itemTotal r =
       - Comparator.leftValue r + Comparator.rightValue r
       + count (fun i => tallied cc rc (Comparator.condition r) i
                         && negb (answered rc (fst cats) i)
                         && negb (answered rc (snd cats) i)) fd.
Proof.
  intros Hin fd cats.
  destruct (comparator_records _ _ _ _ _ Hin)
    as (L & R & rest & st & _ & Hne & Hc & (Ht & Hl & Hr) & Hrec).
  subst cats. rewrite Hc. cbn [fst snd]. fold fd in Ht, Hl, Hr.
  rewrite Hrec. cbn [Comparator.record_of Comparator.leftValue
                       Comparator.rightValue Comparator.itemTotal
                       Comparator.condition].
  set (t := tallied cc rc (Comparator.condition r)) in *.
  pose proof (count_split t (answered rc L) fd) as H1.
  pose proof (count_split (fun i => t i && negb (answered rc L i))
                (answered rc R) fd) as H2.
  pose proof (count_nonneg (fun i => t i && negb (answered rc L i)
                                     && negb (answered rc R i)) fd) as H3.
  cbv beta in *. lia.
Qed.

Lemma comparator_total_witness :
  exists r,
    In r (Comparator.data
            (Comparator.processData
               [ {[ "cond" := "X"; "resp" := "Yes" ]};
                 {[ "cond" := "X"; "resp" := "No" ]};
                 {[ "cond" := "X"; "resp" := "Maybe" ]} ] "cond" "resp" []))
    /\ - Comparator.leftValue r + Comparator.rightValue r <= Comparator.itemTotal r.
Proof.
  exists {| Comparator.condition := "X"; Comparator.leftValue := -1;
            Comparator.rightValue := 1; Comparator.leftLabel := "Maybe";
            Comparator.rightLabel := "No"; Comparator.itemTotal := 3 |}.
  assert (H : In {| Comparator.condition := "X"; Comparator.leftValue := -1;
                    Comparator.rightValue := 1; Comparator.leftLabel := "Maybe";
                    Comparator.rightLabel := "No"; Comparator.itemTotal := 3 |}
                (Comparator.data
                   (Comparator.processData
                      [ {[ "cond" := "X"; "resp" := "Yes" ]};
                        {[ "cond" := "X"; "resp" := "No" ]};
                        {[ "cond" := "X"; "resp" := "Maybe" ]} ] "cond" "resp" []))).
  { vm_compute. left. reflexivity. }
  split; [exact H|].
  exact (proj1 (comparator_total _ _ _ _ _ H)).
Defined.


(** ** Group Aggregator *)

Import GroupSpec.

Lemma obj_get_Some_In {V} (o : JS.obj V) k :
  JS.obj_get o k <> None <-> In k (map fst o).
Proof.
  split.
  - destruct (JS.obj_get o k) as [v|] eqn:E; [|congruence]. intros _.
    apply obj_get_In in E. change k with (fst (k, v)). now apply in_map.
  - intros Hin E. now apply obj_get_None in E.
Qed.

Lemma occurrences_snoc g l t :
  occurrences g (l ++ [t]) = occurrences g l + (if (t =? g)%string then 1 else 0).
Proof.
  unfold occurrences. rewrite count_occ_app. cbn [count_occ].
  destruct (string_dec t g) as [->|Hne].
  - rewrite String.eqb_refl. lia.
  - destruct (String.eqb_spec t g); [contradiction|lia].
Qed.

Lemma occurrences_app g l1 l2 :
  occurrences g (l1 ++ l2) = occurrences g l1 + occurrences g l2.
Proof. unfold occurrences. rewrite count_occ_app. lia. Qed.

Lemma occurrences_pos g l : In g l <-> 0 < occurrences g l.
Proof.
  unfold occurrences. rewrite (count_occ_In string_dec). lia.
Qed.

Lemma fold_assign_zero_get cols (o : JS.obj float) col :
  col <> "__proto__" ->
  In col cols \/ JS.obj_get o col = Some 0%float ->
  JS.obj_get (fold_left (fun cs c => JS.obj_assign cs c 0%float) cols o) col
  = Some 0%float.
Proof.
  intros Hp. revert o. induction cols as [|c cols IH]; intros o H; cbn [fold_left].
  - destruct H as [[]|H]. exact H.
  - apply IH. destruct (string_dec c col) as [->|Hne].
    + right. now apply obj_assign_get_eq.
    + destruct H as [[E|Hin]|H]; [contradiction|now left|].
      right. now rewrite obj_assign_get_ne.
Qed.

Lemma fold_assign_zero_proto cols (o : JS.obj float) :
  JS.obj_get o "__proto__" = None ->
  JS.obj_get (fold_left (fun cs c => JS.obj_assign cs c 0%float) cols o) "__proto__"
  = None.
Proof.
  revert o. induction cols as [|c cols IH]; intros o H; cbn [fold_left]; [exact H|].
  apply IH. destruct (String.eqb_spec c "__proto__") as [->|Hne].
  - now apply obj_assign_proto.
  - now rewrite obj_assign_get_ne.
Qed.

Lemma tracked_app ps qs : tracked (ps ++ qs) = (tracked ps ++ tracked qs)%list.
Proof. unfold tracked. apply List.filter_app. Qed.

Lemma tracked_In g ps :
  In g (map snd (tracked ps)) <-> In g (map snd ps) /\ JS.inherited g = false.
Proof.
  unfold tracked. rewrite !in_map_iff. split.
  - intros [p [<- Hp]]. apply filter_In in Hp. destruct Hp as [Hp Hi].
    split; [now exists p|]. now destruct (JS.inherited (snd p)).
  - intros [[p [<- Hp]] Hi]. exists p. split; [reflexivity|].
    apply filter_In. split; [exact Hp|]. now rewrite Hi.
Qed.

Lemma tracked_occurrences g ps :
  JS.inherited g = false ->
  occurrences g (map snd (tracked ps)) = occurrences g (map snd ps).
Proof.
  intros Hg. unfold occurrences. f_equal.
  induction ps as [|[i t] ps IH]; [reflexivity|].
  unfold tracked in *. cbn [List.filter snd map count_occ].
  destruct (JS.inherited t) eqn:Ht; cbn [negb map count_occ snd].
  - destruct (string_dec t g) as [->|_]; [congruence|exact IH].
  - now rewrite IH.
Qed.

Lemma tracked_addends cols col g ps :
  JS.inherited g = false ->
  pair_addends cols col g (tracked ps) = pair_addends cols col g ps.
Proof.
  intros Hg. unfold pair_addends.
  induction ps as [|[i t] ps IH]; [reflexivity|].
  unfold tracked in *. cbn [List.filter snd fst flat_map].
  destruct (JS.inherited t) eqn:Ht; cbn [negb flat_map snd fst].
  - destruct (String.eqb_spec t g) as [->|_]; [congruence|exact IH].
  - now rewrite IH.
Qed.

Lemma tracked_all ps :
  (forall g, In g (map snd ps) -> JS.inherited g = false) -> tracked ps = ps.
Proof.
  intros H. induction ps as [|p ps IH]; [reflexivity|].
  unfold tracked in *. cbn [List.filter].
  rewrite (H (snd p)) by now left. cbn [negb]. f_equal.
  apply IH. intros g Hg. apply H. now right.
Qed.

Section GroupFold.
Variable conditionColumn : string.
Variable selectedColumns : list string.

(** What the body of [conditions.forEach] does with a condition whose
    name is not inherited. *)
Let step (st : JS.obj GroupAggregator.Counts) (p : DataItem * string) :=
  JS.obj_set st (snd p)
    (GroupAggregator.counted selectedColumns (fst p)
       match JS.obj_get st (snd p) with
       | Some c => c
       | None => GroupAggregator.new_counts selectedColumns
       end).

Let keys_ok (st : JS.obj GroupAggregator.Counts) : Prop :=
  forall k, In k (map fst st) -> JS.inherited k = false.

Lemma step_keys_ok st p :
  keys_ok st -> JS.inherited (snd p) = false -> keys_ok (step st p).
Proof.
  intros Hst Hp k Hk. unfold step in Hk. rewrite obj_set_keys in Hk.
  destruct (JS.obj_get st (snd p)); [now apply Hst|].
  apply in_app_or in Hk. destruct Hk as [Hk|[<-|[]]]; [now apply Hst|exact Hp].
Qed.

Lemma steps_keys_ok ps : forall st,
  keys_ok st -> keys_ok (fold_left step (tracked ps) st).
Proof.
  induction ps as [|p ps IH]; intros st Hst; [exact Hst|].
  unfold tracked in *. cbn [List.filter].
  destruct (JS.inherited (snd p)) eqn:Hp; cbn [negb fold_left].
  - now apply IH.
  - apply IH, step_keys_ok; assumption.
Qed.

Lemma count_condition_step item st tok :
  JS.inherited tok = false ->
  GroupAggregator.count_condition selectedColumns item st tok
  = JS.Returns (step st (item, tok)).
Proof.
  intros Hi. unfold GroupAggregator.count_condition, JS.obj_read, step.
  cbn [fst snd]. destruct (JS.obj_get st tok); [reflexivity|]. now rewrite Hi.
Qed.

Lemma count_condition_inherited item st tok :
  keys_ok st -> JS.inherited tok = true ->
  GroupAggregator.count_condition selectedColumns item st tok
  = if existsb (GroupAggregator.cell_truthy item) selectedColumns
    then JS.Throws else JS.Returns st.
Proof.
  intros Hst Hi. unfold GroupAggregator.count_condition, JS.obj_read.
  destruct (JS.obj_get st tok) as [c|] eqn:E.
  - apply obj_get_In, (in_map fst), Hst in E. cbn [fst] in E. congruence.
  - now rewrite Hi.
Qed.

Lemma count_conditions item toks : forall st,
  keys_ok st ->
  JS.foldM (GroupAggregator.count_condition selectedColumns item) toks st
  = if existsb JS.inherited toks
       && existsb (GroupAggregator.cell_truthy item) selectedColumns
    then JS.Throws
    else JS.Returns (fold_left step (tracked (map (pair item) toks)) st).
Proof.
  induction toks as [|t toks IH]; intros st Hst; [reflexivity|].
  cbn [JS.foldM existsb map]. unfold tracked in *. cbn [List.filter snd].
  destruct (JS.inherited t) eqn:Hi; cbn [negb orb].
  - rewrite count_condition_inherited by assumption.
    destruct (existsb (GroupAggregator.cell_truthy item) selectedColumns) eqn:Ec;
      cbn [andb JS.bind]; [reflexivity|].
    rewrite IH by assumption. now rewrite andb_false_r.
  - rewrite count_condition_step by assumption. cbn [JS.bind fold_left].
    now rewrite IH by (apply step_keys_ok; assumption).
Qed.

Lemma count_row_outcome item st :
  keys_ok st ->
  GroupAggregator.count_row conditionColumn selectedColumns st item
  = if row_throws conditionColumn selectedColumns item then JS.Throws
    else JS.Returns
           (fold_left step
              (tracked (map (pair item) (row_tokens conditionColumn item))) st).
Proof.
  intros Hst.
  unfold GroupAggregator.count_row, GroupAggregator.conditions, row_throws,
    row_tokens, JS.row_read.
  destruct (item !! conditionColumn) as [v|] eqn:E.
  - cbn [JS.bind]. now apply count_conditions.
  - now destruct (JS.inherited conditionColumn).
Qed.

Lemma count_rows_outcome fd : forall st,
  keys_ok st ->
  JS.foldM (GroupAggregator.count_row conditionColumn selectedColumns) fd st
  = if existsb (row_throws conditionColumn selectedColumns) fd then JS.Throws
    else JS.Returns (fold_left step (tracked (pairs conditionColumn fd)) st).
Proof.
  induction fd as [|item fd IH]; intros st Hst; [reflexivity|].
  cbn [JS.foldM existsb]. rewrite count_row_outcome by assumption.
  destruct (row_throws conditionColumn selectedColumns item);
    cbn [orb JS.bind]; [reflexivity|].
  rewrite IH by (apply steps_keys_ok; assumption).
  unfold pairs. cbn [flat_map]. now rewrite tracked_app, fold_left_app.
Qed.

Lemma num_add_cell item cs c col :
  col <> "__proto__" ->
  GroupAggregator.num (GroupAggregator.add_cell item cs c) col =
  fold_left PrimFloat.add
    (if (c =? col)%string then cell_addend item col else [])
    (GroupAggregator.num cs col).
Proof.
  intros Hp. unfold GroupAggregator.add_cell, cell_addend.
  destruct (String.eqb_spec c col) as [->|Hne].
  - destruct (JS.row_read item col) as [value|k|]; [| |reflexivity].
    + destruct (JS.truthy value); [|reflexivity].
      destruct (PrimFloat.is_nan (JS.parseFloat value)); cbn [negb fold_left];
        unfold GroupAggregator.num at 1; now rewrite obj_assign_get_eq.
    + cbn [fold_left]. unfold GroupAggregator.num at 1.
      now rewrite obj_assign_get_eq.
  - destruct (JS.row_read item c) as [value|k|]; [| |reflexivity].
    + destruct (JS.truthy value); [|reflexivity].
      destruct (PrimFloat.is_nan (JS.parseFloat value)); cbn [negb fold_left];
        unfold GroupAggregator.num at 1; now rewrite obj_assign_get_ne.
    + cbn [fold_left]. unfold GroupAggregator.num at 1.
      now rewrite obj_assign_get_ne.
Qed.

Lemma add_cell_proto item cs c :
  JS.obj_get cs "__proto__" = None ->
  JS.obj_get (GroupAggregator.add_cell item cs c) "__proto__" = None.
Proof.
  intros H. unfold GroupAggregator.add_cell.
  destruct (String.eqb_spec c "__proto__") as [->|Hne].
  - destruct (JS.row_read item "__proto__") as [value|k|]; [| |exact H].
    + destruct (JS.truthy value); [|exact H].
      destruct (negb (PrimFloat.is_nan (JS.parseFloat value)));
        now apply obj_assign_proto.
    + now apply obj_assign_proto.
  - destruct (JS.row_read item c) as [value|k|]; [| |exact H].
    + destruct (JS.truthy value); [|exact H].
      destruct (negb (PrimFloat.is_nan (JS.parseFloat value)));
        now rewrite obj_assign_get_ne.
    + now rewrite obj_assign_get_ne.
Qed.

Lemma num_add_cells item cols cs col :
  col <> "__proto__" ->
  GroupAggregator.num (fold_left (GroupAggregator.add_cell item) cols cs) col =
  fold_left PrimFloat.add (row_addends cols col item) (GroupAggregator.num cs col).
Proof.
  intros Hp. revert cs. induction cols as [|c cols IH]; intros cs; [reflexivity|].
  unfold row_addends. cbn [fold_left flat_map]. rewrite fold_left_app.
  rewrite IH, num_add_cell by assumption. reflexivity.
Qed.

Lemma add_cells_proto item cols : forall cs,
  JS.obj_get cs "__proto__" = None ->
  JS.obj_get (fold_left (GroupAggregator.add_cell item) cols cs) "__proto__" = None.
Proof.
  induction cols as [|c cols IH]; intros cs H; [exact H|].
  cbn [fold_left]. now apply IH, add_cell_proto.
Qed.

Lemma num_new_counts col :
  col <> "__proto__" ->
  In col selectedColumns ->
  GroupAggregator.num
    (GroupAggregator.counts (GroupAggregator.new_counts selectedColumns)) col
  = 0%float.
Proof.
  intros Hp Hin. unfold GroupAggregator.new_counts, GroupAggregator.num.
  cbn [GroupAggregator.counts]. rewrite fold_assign_zero_get; auto.
Qed.

Lemma num_proto cs :
  JS.obj_get cs "__proto__" = None -> GroupAggregator.num cs "__proto__" = nan.
Proof. intros H. unfold GroupAggregator.num. now rewrite H. Qed.

Lemma pair_addends_nil col g ps :
  ~ In g (map snd ps) -> pair_addends selectedColumns col g ps = [].
Proof.
  induction ps as [|[i t] l IH]; intros Hnot; [reflexivity|].
  unfold pair_addends in *. cbn [flat_map fst snd]. cbn [map snd] in Hnot.
  destruct (String.eqb_spec t g) as [->|_]; [exfalso; apply Hnot; now left|].
  apply IH. intros H. apply Hnot. now right.
Qed.

Lemma group_step ps p g st :
  group_ok selectedColumns ps g (JS.obj_get st g) ->
  group_ok selectedColumns (ps ++ [p]) g (JS.obj_get (step st p) g).
Proof.
  destruct p as [item tok]. unfold step. cbn [fst snd].
  assert (Hocc : occurrences g (map snd (ps ++ [(item, tok)])) =
                 occurrences g (map snd ps) + (if (tok =? g)%string then 1 else 0)).
  { rewrite map_app. apply occurrences_snoc. }
  assert (Hadd : forall col,
             pair_addends selectedColumns col g (ps ++ [(item, tok)]) =
             (pair_addends selectedColumns col g ps
              ++ (if (tok =? g)%string then row_addends selectedColumns col item
                  else []))%list).
  { intros col. unfold pair_addends. rewrite flat_map_app. cbn [flat_map fst snd].
    now rewrite app_nil_r. }
  unfold group_ok. rewrite Hocc.
  destruct (String.eqb_spec tok g) as [->|Hne].
  - rewrite obj_get_set_eq. unfold GroupAggregator.counted.
    cbn [GroupAggregator.total GroupAggregator.counts].
    destruct (JS.obj_get st g) as [c|].
    + intros (Ht & Hp & Hc). split; [lia|]. split; [now apply add_cells_proto|].
      intros col Hcol. specialize (Hc col Hcol). unfold summed in *.
      destruct (String.eqb_spec col "__proto__") as [E|Hcp].
      * rewrite E. now apply num_proto, add_cells_proto.
      * now rewrite Hadd, num_add_cells, fold_left_app, Hc.
    + intros Hnot.
      assert (Hnew : JS.obj_get
                       (GroupAggregator.counts
                          (GroupAggregator.new_counts selectedColumns)) "__proto__"
                     = None)
        by now apply fold_assign_zero_proto.
      split; [|split].
      * pose proof (occurrences_pos g (map snd ps)) as Hp.
        assert (occurrences g (map snd ps) = 0); [|cbn; lia].
        unfold occurrences in *.
        destruct (count_occ string_dec (map snd ps) g) eqn:E; [reflexivity|].
        exfalso. apply Hnot, Hp. lia.
      * now apply add_cells_proto.
      * intros col Hcol. unfold summed.
        destruct (String.eqb_spec col "__proto__") as [E|Hcp].
        -- rewrite E. now apply num_proto, add_cells_proto.
        -- now rewrite Hadd, num_add_cells, num_new_counts, fold_left_app,
             pair_addends_nil.
  - rewrite obj_get_set_ne by assumption. rewrite Z.add_0_r.
    destruct (JS.obj_get st g) as [c|].
    + intros (Ht & Hp & Hc). split; [exact Ht|]. split; [exact Hp|].
      intros col Hcol. specialize (Hc col Hcol). unfold summed in *.
      now rewrite Hadd, app_nil_r.
    + intros Hnot Hin. rewrite map_app in Hin.
      apply in_app_or in Hin. destruct Hin as [Hin|[E|[]]]; auto.
Qed.

Lemma group_fold ps g :
  group_ok selectedColumns ps g (JS.obj_get (fold_left step ps []) g).
Proof.
  induction ps as [|p ps IH] using rev_ind; [cbn; tauto|].
  rewrite fold_left_app. cbn [fold_left]. apply group_step, IH.
Qed.

Lemma group_keys ps st :
  map fst (fold_left step ps st) =
  fold_left (fun seen x => if decide (x ∈ seen) then seen else (seen ++ [x])%list)
    (map snd ps) (map fst st).
Proof.
  revert st. induction ps as [|[item tok] ps IH]; intros st; [reflexivity|].
  cbn [fold_left map snd]. rewrite IH. f_equal.
  unfold step. cbn [fst snd].
  rewrite obj_set_keys.
  destruct (decide (tok ∈ map fst st)) as [Hin|Hin].
  - apply list_elem_of_In, obj_get_Some_In in Hin.
    now destruct (JS.obj_get st tok).
  - destruct (JS.obj_get st tok) eqn:E; [|reflexivity].
    exfalso. apply Hin, list_elem_of_In, obj_get_Some_In. congruence.
Qed.

(** The store after the rows [fd], when no row throws. *)
Lemma conditionCounts_steps data filters :
  let fd := GroupAggregator.filteredData data filters in
  GroupAggregator.conditionCounts data conditionColumn selectedColumns filters
  = if existsb (row_throws conditionColumn selectedColumns) fd then JS.Throws
    else JS.Returns (fold_left step (tracked (pairs conditionColumn fd)) []).
Proof.
  intros fd. unfold GroupAggregator.conditionCounts. fold fd.
  apply count_rows_outcome. intros k [].
Qed.

(** How [conditionCounts] ends, and what it holds when the loop
    returns: one entry per condition whose name is not inherited, in
    order of first appearance, with its total and accumulators. *)
Lemma conditionCounts_cases data filters :
  let fd := GroupAggregator.filteredData data filters in
  match GroupAggregator.conditionCounts data conditionColumn selectedColumns filters with
  | JS.Returns store =>
      existsb (row_throws conditionColumn selectedColumns) fd = false
      /\ map fst store
         = JS.array_from_set (map snd (tracked (pairs conditionColumn fd)))
      /\ forall g, group_ok selectedColumns (tracked (pairs conditionColumn fd)) g
                     (JS.obj_get store g)
  | JS.Throws => existsb (row_throws conditionColumn selectedColumns) fd = true
  | JS.Undetermined => False
  end.
Proof.
  intros fd. rewrite conditionCounts_steps. fold fd.
  destruct (existsb (row_throws conditionColumn selectedColumns) fd); [reflexivity|].
  split; [reflexivity|]. split.
  - now rewrite group_keys.
  - intros g. apply group_fold.
Qed.

End GroupFold.

(** *** Splitting the condition value *)

Lemma append_nil b : ("" ++ b)%string = b.
Proof. reflexivity. Qed.

Lemma append_cons c a b : (String c a ++ b)%string = String c (a ++ b).
Proof. reflexivity. Qed.

Lemma rev_string_app acc s t :
  (JS.rev_string acc s ++ t = JS.rev_string "" s ++ (acc ++ t))%string.
Proof.
  revert acc t. induction s as [|c s IH]; intros acc t; [reflexivity|].
  cbn [JS.rev_string]. rewrite IH, (IH (String c "")).
  now rewrite !append_cons, append_nil.
Qed.

Lemma split_from_skip sep u : forall k cur rest,
  String.length u = k ->
  JS.split_from sep k cur (u ++ rest) = JS.split_from sep 0 cur rest.
Proof.
  induction u as [|c u IH]; intros k cur rest Hk; cbn in Hk; subst k.
  - reflexivity.
  - rewrite append_cons. cbn [JS.split_from]. now apply IH.
Qed.

Lemma prefix_append sep s :
  String.prefix sep s = true -> exists rest, s = (sep ++ rest)%string.
Proof.
  revert s. induction sep as [|a sep IH]; intros s H.
  - now exists s.
  - destruct s as [|b s]; [discriminate|]. cbn [String.prefix] in H.
    destruct (ascii_dec a b) as [->|]; [|discriminate].
    destruct (IH _ H) as [rest ->]. now exists rest.
Qed.

Lemma string_length_append a b :
  String.length (a ++ b) = (String.length a + String.length b)%nat.
Proof.
  induction a as [|c a IH]; [reflexivity|].
  rewrite append_cons. cbn [String.length]. now rewrite IH.
Qed.

Lemma string_append_nil_r a : (a ++ "")%string = a.
Proof.
  induction a as [|c a IH]; [reflexivity|]. now rewrite append_cons, IH.
Qed.

Lemma split_from_join sep :
  sep <> "" ->
  forall n s cur, (String.length s <= n)%nat ->
    JS.split_from sep 0 cur s <> []
    /\ JS.join sep (JS.split_from sep 0 cur s) = (JS.rev_string "" cur ++ s)%string.
Proof.
  intros Hsep. induction n as [|n IH]; intros s cur Hlen.
  - destruct s; [|cbn in Hlen; lia]. cbn. split; [discriminate|].
    now rewrite string_append_nil_r.
  - destruct s as [|c s].
    { cbn. split; [discriminate|]. now rewrite string_append_nil_r. }
    cbn [JS.split_from].
    destruct (String.prefix sep (String c s)) eqn:Hp.
    + split; [discriminate|].
      destruct (prefix_append _ _ Hp) as [rest E].
      destruct sep as [|c0 sep']; [contradiction|].
      rewrite append_cons in E. injection E as -> ->.
      cbn [String.length Nat.pred].
      rewrite split_from_skip by reflexivity.
      destruct (IH rest "" ) as [Hne Hj].
      { cbn in Hlen. rewrite string_length_append in Hlen. lia. }
      unfold JS.join in *. cbn [String.concat].
      destruct (JS.split_from (String c0 sep') 0 "" rest) as [|t ts] eqn:Et;
        [contradiction|].
      rewrite Hj. cbn [JS.rev_string]. now rewrite append_nil, append_cons.
    + destruct (IH s (String c cur)) as [Hne Hj]; [cbn in Hlen; lia|].
      split; [exact Hne|]. rewrite Hj. cbn [JS.rev_string].
      now rewrite rev_string_app.
Qed.

Lemma split_join sep s :
  sep <> "" -> JS.split sep s <> [] /\ JS.join sep (JS.split sep s) = s.
Proof.
  intros Hsep. unfold JS.split.
  destruct (split_from_join sep Hsep (String.length s) s "" (Nat.le_refl _)) as [H1 H2].
  split; [exact H1|exact H2].
Qed.

(** *** Totals *)

Lemma tokens_cons cc item fd :
  tokens cc (item :: fd) = (row_tokens cc item ++ tokens cc fd)%list.
Proof.
  unfold tokens, pairs. cbn [flat_map]. rewrite map_app, map_map. cbn [snd].
  now rewrite map_id.
Qed.

Lemma tokens_In cc fd g :
  In g (tokens cc fd) <-> exists item, In item fd /\ In g (row_tokens cc item).
Proof.
  induction fd as [|item fd IH].
  - split; [intros []|intros [? [[] _]]].
  - rewrite tokens_cons, in_app_iff, IH. split.
    + intros [H|[i [Hi H]]]; [exists item; split; [now left|exact H]|].
      exists i. split; [now right|exact H].
    + intros [i [[<-|Hi] H]]; [now left|right; now exists i].
Qed.

Lemma store_total cols ps g c :
  group_ok cols ps g (Some c) -> GroupAggregator.total c = occurrences g (map snd ps).
Proof. now intros [H _]. Qed.

(** C1 fails on the code for a condition named like a property that
    every object inherits.  The row (c = "constructor", m = "1") makes
    no group: the test [!conditionCounts[condition]] finds the inherited
    function, and reading [counts] of it throws.  When the measure is
    empty nothing is read and nothing throws: the row
    (c = "toString, A", m = "") has two conditions and counts for the
    group "A" only.  For the same name the medical chart stores a text
    instead of a count. *)
Theorem aggregator_inherited_condition :
  GroupAggregator.processData [ {[ "c" := "constructor"; "m" := "1" ]} ] "c" ["m"] []
  = JS.Throws
  /\ GroupSpec.row_tokens "c" {[ "c" := "toString, A"; "m" := "" ]} = ["toString"; "A"]
  /\ GroupAggregator.conditionCounts
       [ {[ "c" := "toString, A"; "m" := "" ]} ] "c" ["m"] []
     = JS.Returns [("A", {| GroupAggregator.total := 1;
                            GroupAggregator.counts := [("m", 0%float)] |})]
  /\ GroupAggregator.processData
       [ {[ "c" := "toString, A"; "m" := "" ]} ] "c" ["m"] []
     = JS.Returns [ [("condition", JS.VStr "A"); ("m", JS.VNum 0%float)] ]
  /\ fold_left Medical.count_row [ {[ "Condition" := "constructor" ]} ] []
     = [("constructor", Medical.Text "function Object() { [native code] }1")].
Proof. vm_compute. repeat split. Qed.

(** Multi-membership: the loop of [processData] either throws, at a row
    of the kind described by [row_throws], and so does [processData], or
    leaves in [conditionCounts] one entry for every condition whose name
    is not inherited, and no other, from which [processData] makes its
    records; the total of such a group is the number of times it occurs
    among the conditions of the filtered rows, at least 1 for every
    condition of a row.  A non-empty condition value is split on ", "
    into one or more conditions, which joined give the value back; an
    empty one gives none. *)
Theorem aggregator_group_totals data cc cols filters :
  let fd := GroupAggregator.filteredData data filters in
  match GroupAggregator.conditionCounts data cc cols filters with
  | JS.Returns store =>
      existsb (row_throws cc cols) fd = false
      /\ (forall g, JS.inherited g = false ->
            total_of store g = occurrences g (tokens cc fd))
      /\ (forall g, In g (map fst store)
                    <-> In g (tokens cc fd) /\ JS.inherited g = false)
      /\ (forall item v, In item fd -> item !! cc = Some v -> v <> "" ->
            GroupAggregator.conditions cc item = JS.Returns (JS.split ", " v)
            /\ JS.split ", " v <> []
            /\ JS.join ", " (JS.split ", " v) = v
            /\ forall g, In g (JS.split ", " v) -> JS.inherited g = false ->
                 1 <= total_of store g)
      /\ (forall item, In item fd -> item !! cc = Some "" ->
            GroupAggregator.conditions cc item = JS.Returns [])
      /\ GroupAggregator.processData data cc cols filters
         = JS.Returns (if (length data =? 0)%nat then []
                       else GroupAggregator.records data cols store)
  | JS.Throws =>
      existsb (row_throws cc cols) fd = true
      /\ GroupAggregator.processData data cc cols filters = JS.Throws
  | JS.Undetermined => False
  end.
Proof.
  intros fd. pose proof (conditionCounts_cases cc cols data filters) as H.
  cbv zeta in H. fold fd in H. unfold GroupAggregator.processData.
  destruct (GroupAggregator.conditionCounts data cc cols filters)
    as [store| |] eqn:Ecc; [| |exact H].
  2:{ split; [exact H|]. destruct data as [|d data]; [discriminate Ecc|reflexivity]. }
  destruct H as (Hno & Hkeys & Hok).
  assert (Htot : forall g, JS.inherited g = false ->
                   total_of store g = occurrences g (tokens cc fd)).
  { intros g Hg. specialize (Hok g). unfold total_of.
    destruct (JS.obj_get store g) as [c|].
    - rewrite (store_total _ _ _ _ Hok). now apply tracked_occurrences.
    - cbn [group_ok] in Hok. rewrite tracked_In in Hok.
      unfold tokens, occurrences.
      destruct (count_occ string_dec (map snd (pairs cc fd)) g) eqn:E; [reflexivity|].
      exfalso. apply Hok. split; [|exact Hg].
      apply (count_occ_In string_dec). lia. }
  split; [exact Hno|]. split; [exact Htot|]. split; [|split; [|split]].
  - intros g. rewrite Hkeys, array_from_set_In. apply tracked_In.
  - intros item v Hin Hv Hne.
    assert (Ht : JS.truthy v = true).
    { unfold JS.truthy. now destruct (String.eqb_spec v ""). }
    destruct (split_join ", " v) as [H1 H2]; [discriminate|].
    split; [|split; [exact H1|split; [exact H2|]]].
    + unfold GroupAggregator.conditions, JS.row_read. now rewrite Hv, Ht.
    + intros g Hg Hi. rewrite (Htot g Hi).
      assert (In g (tokens cc fd)) as Hin'.
      { apply tokens_In. exists item. split; [exact Hin|].
        unfold row_tokens. now rewrite Hv, Ht. }
      apply occurrences_pos in Hin'. lia.
  - intros item _ Hv. unfold GroupAggregator.conditions, JS.row_read.
    now rewrite Hv.
  - now destruct (length data =? 0)%nat.
Qed.

Lemma aggregator_group_totals_witness :
  let data : list DataItem := [ {[ "c" := "A, B"; "m" := "1" ]}; {[ "c" := "A" ]} ] in
  exists store,
    GroupAggregator.conditionCounts data "c" ["m"] [] = JS.Returns store
    /\ total_of store "A" = 2 /\ total_of store "B" = 1.
Proof.
  intros data.
  pose proof (aggregator_group_totals data "c" ["m"] []) as H. cbv zeta in H.
  destruct (GroupAggregator.conditionCounts data "c" ["m"] []) as [store| |] eqn:E;
    [|vm_compute in E; discriminate|destruct H].
  exists store. split; [reflexivity|].
  destruct H as (_ & Ht & _).
  rewrite (Ht "A" eq_refl), (Ht "B" eq_refl). split; vm_compute; reflexivity.
Defined.

(** *** From the accumulator object to the records *)

Lemma sort_insert_ext {A} (after after' : A -> A -> bool) x l :
  (forall y, In y l -> after x y = after' x y) ->
  JS.sort_insert after x l = JS.sort_insert after' x l.
Proof.
  induction l as [|y l IH]; intros H; [reflexivity|].
  cbn [JS.sort_insert]. rewrite <- (H y) by now left.
  destruct (after x y); [|reflexivity].
  f_equal. apply IH. intros z Hz. apply H. now right.
Qed.

Lemma sort_ext {A} (after after' : A -> A -> bool) l :
  (forall x y, In x l -> In y l -> after x y = after' x y) ->
  JS.sort after l = JS.sort after' l.
Proof.
  induction l as [|x l IH]; intros H; [reflexivity|].
  cbn [JS.sort fold_right]. fold (JS.sort after l) (JS.sort after' l).
  rewrite <- IH by (intros; apply H; now right).
  apply sort_insert_ext. intros y Hy. apply H; [now left|].
  right. now apply (sort_In after).
Qed.

Lemma sort_map {A B} (h : A -> B) (after : A -> A -> bool) (after' : B -> B -> bool) l :
  (forall a b, after' (h a) (h b) = after a b) ->
  JS.sort after' (map h l) = map h (JS.sort after l).
Proof.
  intros H. induction l as [|x l IH]; [reflexivity|].
  cbn [map JS.sort fold_right]. fold (JS.sort after l) (JS.sort after' (map h l)).
  rewrite IH. generalize (JS.sort after l). intros s.
  induction s as [|y s IHs]; [reflexivity|].
  cbn [map JS.sort_insert]. rewrite H. destruct (after x y); [|reflexivity].
  cbn [map]. now rewrite IHs.
Qed.

Lemma filter_map_comm {A B} (h : A -> B) (p : A -> bool) (q : B -> bool) l :
  (forall a, q (h a) = p a) ->
  List.filter q (map h l) = map h (List.filter p l).
Proof.
  intros H. induction l as [|x l IH]; [reflexivity|].
  cbn [map List.filter]. rewrite H. destruct (p x); cbn [map]; now rewrite IH.
Qed.

Lemma obj_entries_map {V W} (h : string * V -> string * W) (o : JS.obj V) :
  (forall kv, fst (h kv) = fst kv) ->
  JS.obj_entries (map h o) = map h (JS.obj_entries o).
Proof.
  intros H. unfold JS.obj_entries. rewrite map_app. f_equal.
  - rewrite (filter_map_comm h JS.is_index JS.is_index)
      by (intros; unfold JS.is_index; now rewrite H).
    apply sort_map. intros a b. unfold JS.index_after. now rewrite !H.
  - apply filter_map_comm. intros. unfold JS.is_index. now rewrite H.
Qed.

Lemma obj_entries_keys {V} (o : JS.obj V) :
  map fst (JS.obj_entries o) = key_order (map fst o).
Proof.
  unfold key_order. rewrite map_map.
  rewrite (obj_entries_map (fun kv : string * V => (fst kv, tt))) by reflexivity.
  now rewrite map_map.
Qed.

Lemma key_order_length ks : length (key_order ks) = length ks.
Proof.
  unfold key_order. now rewrite length_map, obj_entries_length, length_map.
Qed.

Lemma key_order_In ks k : In k (key_order ks) <-> In k ks.
Proof.
  unfold key_order. rewrite !in_map_iff. split.
  - intros [[k' []] [<- H]]. apply (proj1 (obj_entries_In _ _)) in H.
    apply in_map_iff in H. destruct H as [k'' [[= ->] H]]. exact H.
  - intros H. exists (k, tt). split; [reflexivity|].
    apply obj_entries_In, in_map_iff. now exists k.
Qed.

Section FoldSet.
Context {V : Type}.

Let set (o : JS.obj V) (kv : string * V) := JS.obj_set o (fst kv) (snd kv).

Lemma fold_set_NoDup kvs o :
  List.NoDup (map fst o) -> List.NoDup (map fst (fold_left set kvs o)).
Proof.
  revert o. induction kvs as [|kv kvs IH]; intros o H; [exact H|].
  cbn [fold_left]. apply IH, obj_set_NoDup, H.
Qed.

Lemma fold_set_get kvs o k v :
  In (k, v) kvs -> (forall v', In (k, v') kvs -> v' = v) ->
  JS.obj_get (fold_left set kvs o) k = Some v.
Proof.
  revert o. induction kvs as [|[k' v'] kvs IH] using rev_ind; intros o Hin Hv;
    [destruct Hin|].
  rewrite fold_left_app. cbn [fold_left]. unfold set at 1. cbn [fst snd].
  destruct (string_dec k' k) as [->|Hne].
  - rewrite obj_get_set_eq. f_equal. apply Hv, in_or_app. right. now left.
  - rewrite obj_get_set_ne by assumption. apply IH.
    + apply in_app_or in Hin. destruct Hin as [Hin|[[= -> ->]|[]]];
        [exact Hin|contradiction].
    + intros v0 H0. apply Hv, in_or_app. now left.
Qed.

Lemma fold_set_keys kvs o k :
  In k (map fst (fold_left set kvs o)) -> In k (map fst o) \/ In k (map fst kvs).
Proof.
  revert o. induction kvs as [|[k' v'] kvs IH]; intros o H; [now left|].
  cbn [fold_left] in H. apply IH in H. destruct H as [H|H]; [|right; now right].
  unfold set in H. cbn [fst snd] in H. rewrite obj_set_keys in H.
  destruct (JS.obj_get o k'); [now left|].
  apply in_app_or in H. destruct H as [H|[<-|[]]]; [now left|right; now left].
Qed.

Lemma fold_set_get_other kvs o k :
  ~ In k (map fst kvs) -> JS.obj_get (fold_left set kvs o) k = JS.obj_get o k.
Proof.
  revert o. induction kvs as [|[k' v'] kvs IH]; intros o H; [reflexivity|].
  cbn [fold_left]. rewrite IH by (intros Hin; apply H; now right).
  unfold set. cbn [fst snd]. apply obj_get_set_ne. intros ->. apply H. now left.
Qed.

End FoldSet.

(** Reading a selected column of a record built from the values [f]. *)
Lemma record_get (f : string -> JS.value) (cols : list string) (g col : string) :
  In col cols ->
  JS.obj_get
    (fold_left (fun o kv => JS.obj_set o (fst kv) (snd kv))
       (JS.obj_entries (GroupAggregator.fromEntries (map (fun c => (c, f c)) cols)))
       [("condition", JS.VStr g)]) col
  = Some (f col).
Proof.
  intros Hin.
  set (fe := GroupAggregator.fromEntries (map (fun c => (c, f c)) cols)).
  assert (Hnd : List.NoDup (map fst fe)).
  { apply (fold_set_NoDup (V := JS.value)). constructor. }
  assert (Hget : forall c v, JS.obj_get fe c = Some v -> v = f c).
  { intros c v H. destruct (in_dec string_dec c cols) as [Hc|Hc].
    - unfold fe, GroupAggregator.fromEntries in H.
      rewrite (fold_set_get (V := JS.value) _ _ c (f c)) in H.
      + congruence.
      + apply in_map_iff. now exists c.
      + intros v' Hv'. apply in_map_iff in Hv'. destruct Hv' as [c' [[= -> <-] _]].
        reflexivity.
    - unfold fe, GroupAggregator.fromEntries in H.
      rewrite (fold_set_get_other (V := JS.value)) in H; [discriminate|].
      rewrite map_map. cbn [fst]. now rewrite map_id. }
  apply (fold_set_get (V := JS.value)).
  - apply obj_entries_In, obj_get_In.
    unfold fe, GroupAggregator.fromEntries.
    apply (fold_set_get (V := JS.value)).
    + apply in_map_iff. now exists col.
    + intros v' Hv'. apply in_map_iff in Hv'. destruct Hv' as [c' [[= -> <-] _]].
      reflexivity.
  - intros v' Hv'. apply (proj1 (obj_entries_In _ _)) in Hv'.
    apply obj_In_get in Hv'; [|exact Hnd]. now apply Hget.
Qed.

(** Reading the condition of a record. *)
Lemma record_get_condition (f : string -> JS.value) (cols : list string) (g : string) :
  ~ In "condition" cols ->
  JS.obj_get
    (fold_left (fun o kv => JS.obj_set o (fst kv) (snd kv))
       (JS.obj_entries (GroupAggregator.fromEntries (map (fun c => (c, f c)) cols)))
       [("condition", JS.VStr g)]) "condition"
  = Some (JS.VStr g).
Proof.
  intros Hnot. rewrite (fold_set_get_other (V := JS.value)); [reflexivity|].
  intros Hin. apply Hnot. apply in_map_iff in Hin. destruct Hin as [[k v] [Hk Hin]].
  cbn [fst] in Hk. subst k. apply (proj1 (obj_entries_In _ _)) in Hin.
  assert (Hkey : In "condition"
                   (map fst (GroupAggregator.fromEntries (map (fun c => (c, f c)) cols)))).
  { change "condition" with (fst ("condition", v)). now apply in_map. }
  apply (fold_set_keys (V := JS.value)) in Hkey. destruct Hkey as [[]|Hkey].
  rewrite map_map in Hkey. cbn [fst] in Hkey. now rewrite map_id in Hkey.
Qed.

Lemma record_of_group data cc cols fd g c :
  JS.inherited g = false ->
  group_ok cols (tracked (pairs cc fd)) g (Some c) ->
  GroupAggregator.record_of data cols (g, c) = group_record data cc cols fd g.
Proof.
  intros Hg (Ht & _ & Hc). unfold GroupAggregator.record_of, group_record.
  f_equal. f_equal. f_equal. apply map_ext_in. intros col Hcol.
  unfold accumulated, tokens. rewrite Ht, Hc by assumption. unfold summed.
  now rewrite tracked_addends, tracked_occurrences by assumption.
Qed.

(** The functional reading of [processData]: it throws at a row of the
    kind described by [row_throws], and returns otherwise the first 20
    of the records of the groups, taken in [Object.entries] order and
    sorted. *)
Lemma processData_outcome data cc cols filters :
  let fd := GroupAggregator.filteredData data filters in
  GroupAggregator.processData data cc cols filters =
  if existsb (row_throws cc cols) fd then JS.Throws
  else
    JS.Returns
      (firstn 20
         (JS.sort (GroupAggregator.by_first cols)
            (map (group_record data cc cols fd)
               (key_order (JS.array_from_set (map snd (tracked (pairs cc fd)))))))).
Proof.
  intros fd. unfold GroupAggregator.processData.
  destruct data as [|d data]; [reflexivity|].
  cbn [length Nat.eqb].
  pose proof (conditionCounts_cases cc cols (d :: data) filters) as H.
  cbv zeta in H. fold fd in H.
  destruct (GroupAggregator.conditionCounts (d :: data) cc cols filters)
    as [store| |]; cbn [JS.bind].
  - destruct H as (Hno & Hk & Hok). rewrite Hno. f_equal.
    unfold GroupAggregator.records. f_equal. f_equal.
    rewrite <- Hk, <- obj_entries_keys, map_map.
    apply map_ext_in. intros [g c] Hin. cbn [fst].
    apply (proj1 (obj_entries_In _ _)) in Hin.
    assert (Hnd : List.NoDup (map fst store)).
    { rewrite Hk. apply array_from_set_NoDup. }
    assert (Hg : JS.inherited g = false).
    { assert (Hin' : In g (map fst store)).
      { change g with (fst (g, c)). now apply in_map. }
      rewrite Hk in Hin'. apply array_from_set_In, tracked_In in Hin'. tauto. }
    apply record_of_group; [exact Hg|].
    rewrite <- (obj_In_get _ _ _ Hnd Hin). apply Hok.
  - now rewrite H.
  - destruct H.
Qed.

(** No row throws when no row reads an inherited object as its
    condition value and no condition is an inherited name. *)
Lemma no_row_throws cc cols fd :
  (forall item, In item fd -> item !! cc = None -> JS.inherited cc = false) ->
  (forall g, In g (tokens cc fd) -> JS.inherited g = false) ->
  existsb (row_throws cc cols) fd = false.
Proof.
  intros Hcc Htok. apply not_true_is_false. intros H.
  apply existsb_exists in H. destruct H as [item [Hin H]].
  unfold row_throws, JS.row_read in H.
  assert (Hex : existsb JS.inherited (row_tokens cc item) = false).
  { apply not_true_is_false. intros Hex. apply existsb_exists in Hex.
    destruct Hex as [g [Hg Hi]]. rewrite Htok in Hi; [discriminate|].
    apply tokens_In. now exists item. }
  rewrite Hex in H. specialize (Hcc item Hin).
  destruct (item !! cc); [discriminate|]. now rewrite Hcc in H.
Qed.

(** *** The sort key of the records *)

Lemma or0_not_nan x : PrimFloat.is_nan (JS.or0 x) = false.
Proof.
  unfold JS.or0. destruct (PrimFloat.is_nan x) eqn:E; [reflexivity|].
  cbn [orb]. now destruct (PrimFloat.is_zero x).
Qed.

Lemma not_nan_is_nan x : not_nan (Prim2SF x) -> PrimFloat.is_nan x = false.
Proof.
  unfold PrimFloat.is_nan. rewrite FloatAxioms.eqb_spec. unfold SFeqb.
  destruct (Prim2SF x) as [s|s| |s m e]; cbn [SFcompare not_nan]; try tauto; intros _.
  - now destruct s.
  - destruct s; now rewrite Z.compare_refl, Pos.compare_cont_refl.
Qed.

Lemma eqb_true_not_nan x y :
  (x =? y)%float = true -> PrimFloat.is_nan x = false /\ PrimFloat.is_nan y = false.
Proof.
  rewrite FloatAxioms.eqb_spec. unfold SFeqb. intros H.
  split; apply not_nan_is_nan.
  - destruct (Prim2SF x); try exact I. discriminate H.
  - destruct (Prim2SF x), (Prim2SF y); try exact I; discriminate H.
Qed.

Lemma primary_group_record data cc cols fd g :
  PrimFloat.is_nan (GroupAggregator.primary cols (group_record data cc cols fd g))
  = false.
Proof.
  unfold GroupAggregator.primary. destruct cols as [|col0 cols].
  - reflexivity.
  - cbn [GroupAggregator.first_key]. unfold group_record.
    rewrite (record_get
               (fun col => JS.VNum
                  (GroupAggregator.reported
                     (GroupAggregator.isNumeric data col)
                     (accumulated cc (col0 :: cols) col g fd)
                     (occurrences g (tokens cc fd))))) by now left.
    apply or0_not_nan.
Qed.

Lemma StronglySorted_weaken {A} (R R' : A -> A -> Prop) l :
  (forall a b, In a l -> In b l -> R a b -> R' a b) ->
  StronglySorted R l -> StronglySorted R' l.
Proof.
  intros H Hs. induction Hs as [|x l Hl IH Hx]; [constructor|].
  constructor.
  - apply IH. intros a b Ha Hb. apply H; now right.
  - rewrite List.Forall_forall in *. intros y Hy.
    apply H; [now left|now right|now apply Hx].
Qed.

Lemma firstn_In {A} n (l : list A) x : In x (firstn n l) -> In x l.
Proof.
  revert n. induction l as [|y l IH]; intros [|n]; cbn [firstn In]; try tauto.
  intros [->|H]; [now left|right; now apply (IH n)].
Qed.

Lemma StronglySorted_firstn {A} (R : A -> A -> Prop) n l :
  StronglySorted R l -> StronglySorted R (firstn n l).
Proof.
  intros Hs. revert n. induction Hs as [|x l Hl IH Hx]; intros [|n];
    cbn [firstn]; try constructor.
  - apply IH.
  - rewrite List.Forall_forall in *. intros y Hy. apply Hx.
    now apply (firstn_In n l).
Qed.

(** Sorting a list of records without NaN: a stable sort by decreasing
    value. *)
Lemma sort_by_first cols recs :
  (forall r, In r recs -> PrimFloat.is_nan (GroupAggregator.primary cols r) = false) ->
  let all := JS.sort (GroupAggregator.by_first cols) recs in
  Permutation all recs
  /\ StronglySorted
       (fun a b => (GroupAggregator.primary cols a <? GroupAggregator.primary cols b)%float
                   = false) all
  /\ forall v, List.filter (fun r => (GroupAggregator.primary cols r =? v)%float) all
               = List.filter (fun r => (GroupAggregator.primary cols r =? v)%float) recs.
Proof.
  intros Hnan all.
  set (K := fun r => fkey (GroupAggregator.primary cols r)).
  assert (Hall : all = JS.sort (fun a b => K a <? K b) recs).
  { apply sort_ext. intros x y Hx Hy. unfold GroupAggregator.by_first, K.
    apply sub_pos_fkey; now apply Hnan. }
  split; [apply sort_perm|]. split.
  - apply StronglySorted_weaken with (R := fun a b => (K a <? K b) = false).
    + intros a b Ha Hb Hab. apply (sort_In _ _ recs) in Ha, Hb.
      rewrite ltb_fkey by now apply Hnan. exact Hab.
    + rewrite Hall. apply sort_sorted.
      * intros a b H. apply Z.ltb_lt in H. apply Z.ltb_ge. lia.
      * intros a b c H1 H2. apply Z.ltb_ge in H1, H2. apply Z.ltb_ge. lia.
  - intros v. rewrite Hall. apply sort_filter. intros x y Hx Hy.
    destruct (eqb_true_not_nan _ _ Hx) as [Nx Nv].
    destruct (eqb_true_not_nan _ _ Hy) as [Ny _].
    rewrite eqb_fkey in Hx, Hy by assumption.
    apply Z.eqb_eq in Hx, Hy. unfold K. apply Z.ltb_ge. lia.
Qed.

Lemma processData_record data cc cols filters out r :
  GroupAggregator.processData data cc cols filters = JS.Returns out ->
  In r out ->
  exists g, In g (groups cc (GroupAggregator.filteredData data filters))
            /\ JS.inherited g = false
            /\ r = group_record data cc cols
                     (GroupAggregator.filteredData data filters) g.
Proof.
  rewrite processData_outcome.
  destruct (existsb _ _); [discriminate|]. intros [= <-] H.
  apply firstn_In in H.
  apply (proj1 (sort_In _ _ _)) in H. apply in_map_iff in H.
  destruct H as [g [<- Hg]]. exists g.
  apply key_order_In, array_from_set_In, tracked_In in Hg.
  destruct Hg as [Hg Hi]. split; [now apply array_from_set_In|].
  split; [exact Hi|reflexivity].
Qed.

(** C3, amended: whether a column is numeric depends on the first data
    row only; for every emitted record, of a group [g], the value of a
    selected column is [A / T] when the column is numeric and
    [A / T * 100] otherwise, a NaN or zero result being reported as 0,
    where [T] is the total of [g] and [A] the one accumulator of the
    column for [g]: the sum, in processing order, of what every
    (row, condition) pair of [g] adds, the parsed number of a cell that
    parses and 1 for a non-empty cell that does not. *)
Theorem aggregator_reported data cc cols filters out r :
  GroupAggregator.processData data cc cols filters = JS.Returns out ->
  In r out ->
  let fd := GroupAggregator.filteredData data filters in
  exists g,
    In g (groups cc fd)
    /\ (~ In "condition" cols -> JS.obj_get r "condition" = Some (JS.VStr g))
    /\ forall col, In col cols ->
         (forall d rest, data = d :: rest ->
            GroupAggregator.isNumeric data col = GroupAggregator.isNumeric [d] col)
         /\ JS.obj_get r col =
            Some (JS.VNum
                    (let A := accumulated cc cols col g fd in
                     let T := JS.of_Z (occurrences g (tokens cc fd)) in
                     if GroupAggregator.isNumeric data col
                     then JS.or0 (A / T)%float
                     else JS.or0 (A / T * 100)%float)).
Proof.
  intros Hout Hin fd.
  destruct (processData_record _ _ _ _ _ _ Hout Hin) as [g [Hg [_ ->]]].
  exists g. split; [exact Hg|]. split.
  - intros Hnot. unfold group_record.
    now apply (record_get_condition
                 (fun col => JS.VNum
                    (GroupAggregator.reported
                       (GroupAggregator.isNumeric data col)
                       (accumulated cc cols col g fd)
                       (occurrences g (tokens cc fd))))).
  - intros col Hcol. split.
    + intros d rest ->. reflexivity.
    + unfold group_record.
      rewrite (record_get
                 (fun col => JS.VNum
                    (GroupAggregator.reported
                       (GroupAggregator.isNumeric data col)
                       (accumulated cc cols col g fd)
                       (occurrences g (tokens cc fd))))) by assumption.
      reflexivity.
Qed.

Lemma aggregator_reported_witness :
  let data : list DataItem :=
    [ {[ "c" := "B, A"; "m" := "1" ]}; {[ "c" := "A"; "m" := "4" ]} ] in
  let fd := GroupAggregator.filteredData data [] in
  exists g,
    In g (groups "c" fd)
    /\ (~ In "condition" ["m"] ->
        JS.obj_get [("condition", JS.VStr "A"); ("m", JS.VNum 2.5%float)] "condition"
        = Some (JS.VStr g))
    /\ forall col, In col ["m"] ->
         (forall d rest, data = d :: rest ->
            GroupAggregator.isNumeric data col = GroupAggregator.isNumeric [d] col)
         /\ JS.obj_get [("condition", JS.VStr "A"); ("m", JS.VNum 2.5%float)] col =
            Some (JS.VNum
                    (let A := accumulated "c" ["m"] col g fd in
                     let T := JS.of_Z (occurrences g (tokens "c" fd)) in
                     if GroupAggregator.isNumeric data col
                     then JS.or0 (A / T)%float
                     else JS.or0 (A / T * 100)%float)).
Proof.
  intros data fd.
  apply (aggregator_reported data "c" ["m"] []
           [ [("condition", JS.VStr "A"); ("m", JS.VNum 2.5%float)];
             [("condition", JS.VStr "B"); ("m", JS.VNum 1%float)] ]).
  - vm_compute. reflexivity.
  - left. reflexivity.
Defined.

(** C3 as stated fails when the cells of a column are not all of the
    kind of the first row.  With the rows (A, "") and (A, "5") the
    first row is not numeric; the spec's running count is 0 and half of
    the rows have a non-empty value, so the spec reports 0 or 50, and
    the code reports 5 / 2 * 100 = 250.  With (A, "x") and (A, "5") the
    code reports (1 + 5) / 2 * 100 = 300. *)
Lemma aggregator_reported_counterexample :
  let data : list DataItem :=
    [ {[ "c" := "A"; "m" := "" ]}; {[ "c" := "A"; "m" := "5" ]} ] in
  let data' : list DataItem :=
    [ {[ "c" := "A"; "m" := "x" ]}; {[ "c" := "A"; "m" := "5" ]} ] in
  GroupAggregator.processData data "c" ["m"] []
    = JS.Returns [ [("condition", JS.VStr "A"); ("m", JS.VNum 250%float)] ]
  /\ GroupAggregator.isNumeric data "m" = false
  /\ spec_reported data "c" "m" "A" (GroupAggregator.filteredData data [])
     = 0%float
  /\ spec_percentage "c" "m" "A" (GroupAggregator.filteredData data [])
     = 50%float
  /\ GroupAggregator.processData data' "c" ["m"] []
     = JS.Returns [ [("condition", JS.VStr "A"); ("m", JS.VNum 300%float)] ]
  /\ GroupAggregator.isNumeric data' "m" = false
  /\ spec_reported data' "c" "m" "A" (GroupAggregator.filteredData data' [])
     = 50%float
  /\ spec_percentage "c" "m" "A" (GroupAggregator.filteredData data' [])
     = 100%float.
Proof. vm_compute. repeat split. Qed.

(** C4, amended: when no condition is named like a property that every
    object inherits (and no row lacks a condition column of such a
    name), the call returns the first 20 records of a list [all] that
    is a stable sort, by decreasing value of the first measure, of the
    records of the groups taken in [Object.entries] order (the group
    names that are array indices first, in ascending numeric order,
    then the others in order of first appearance); no value is NaN,
    ties keep that order, and the length of the output is min(20,
    number of distinct groups). *)
Theorem aggregator_order data cc cols filters :
  let fd := GroupAggregator.filteredData data filters in
  (forall item, In item fd -> item !! cc = None -> JS.inherited cc = false) ->
  (forall g, In g (tokens cc fd) -> JS.inherited g = false) ->
  let recs := map (group_record data cc cols fd) (key_order (groups cc fd)) in
  let value := GroupAggregator.primary cols in
  exists all,
    GroupAggregator.processData data cc cols filters = JS.Returns (firstn 20 all)
    /\ Permutation all recs
    /\ (forall r, In r all -> PrimFloat.is_nan (value r) = false)
    /\ StronglySorted (fun a b => (value a <? value b)%float = false) all
    /\ (forall v, List.filter (fun r => (value r =? v)%float) all
                  = List.filter (fun r => (value r =? v)%float) recs)
    /\ length (firstn 20 all) = Nat.min 20 (length (groups cc fd))
    /\ List.NoDup (groups cc fd)
    /\ (forall g, In g (groups cc fd) <-> In g (tokens cc fd)).
Proof.
  intros fd Hcc Htok recs value.
  assert (Hnan : forall r, In r recs -> PrimFloat.is_nan (value r) = false).
  { intros r Hr. apply in_map_iff in Hr. destruct Hr as [g [<- _]].
    apply primary_group_record. }
  destruct (sort_by_first cols recs Hnan) as (Hp & Hs & Hf).
  exists (JS.sort (GroupAggregator.by_first cols) recs).
  split.
  { rewrite processData_outcome. fold fd.
    rewrite (no_row_throws cc cols fd Hcc Htok).
    rewrite tracked_all by exact Htok. reflexivity. }
  split; [exact Hp|].
  split; [intros r Hr; apply Hnan; revert Hr; apply Permutation_in, Hp|].
  split; [exact Hs|].
  split; [exact Hf|]. split; [|split].
  - rewrite length_firstn, sort_length. unfold recs.
    now rewrite length_map, key_order_length.
  - apply array_from_set_NoDup.
  - intros g. apply array_from_set_In.
Qed.

Lemma aggregator_order_witness :
  let data : list DataItem :=
    [ {[ "c" := "B, A"; "m" := "1" ]}; {[ "c" := "A"; "m" := "4" ]} ] in
  exists all,
    GroupAggregator.processData data "c" ["m"] [] = JS.Returns (firstn 20 all)
    /\ length (firstn 20 all) = 2%nat.
Proof.
  intros data.
  destruct (aggregator_order data "c" ["m"] []) as [all H].
  - intros item _ _. reflexivity.
  - vm_compute. intros g [<-|[<-|[<-|[]]]]; reflexivity.
  - exists all. split; [exact (proj1 H)|].
    exact (proj1 (proj2 (proj2 (proj2 (proj2 (proj2 H)))))).
Defined.

(** C4 as stated fails on a tie between groups named by numbers: "2"
    appears first, both groups report 1, and "1" comes out first. *)
Lemma aggregator_order_counterexample :
  let data : list DataItem :=
    [ {[ "c" := "2"; "m" := "1" ]}; {[ "c" := "1"; "m" := "1" ]} ] in
  groups "c" (GroupAggregator.filteredData data []) = ["2"; "1"]
  /\ GroupAggregator.processData data "c" ["m"] []
     = JS.Returns [ [("condition", JS.VStr "1"); ("m", JS.VNum 1%float)];
                    [("condition", JS.VStr "2"); ("m", JS.VNum 1%float)] ].
Proof. vm_compute. repeat split. Qed.

(** ** Filter Engine *)

Lemma includes_In values v : includes values v = true <-> In v values.
Proof.
  unfold includes. rewrite existsb_exists. split.
  - intros [x [Hx E]]. apply String.eqb_eq in E. now subst.
  - intros H. exists v. split; [exact H|apply String.eqb_refl].
Qed.

Lemma forallb_entries {V} (p : string * V -> bool) (o : JS.obj V) :
  forallb p (JS.obj_entries o) = true <-> forall kv, In kv o -> p kv = true.
Proof.
  rewrite forallb_forall. split; intros H kv Hkv; apply H.
  - now apply obj_entries_In.
  - now apply (proj1 (obj_entries_In _ _)).
Qed.

(** C2, amended: in each chart a row passes iff every column with a
    non-empty allow-list is matched by exact string equality, with no
    case folding and no partial match; the Comparator compares the
    trimmed value of the row, which must be non-empty, the Group
    Aggregator compares the value as it is (untrimmed), and the Pivot
    Aggregator compares the string conversion of the value. *)
Theorem filter_passes :
  (forall (filters : Filters) (item : DataItem),
     Comparator.passes filters item = true <->
     forall column values, In (column, values) filters -> values <> [] ->
       exists v, item !! column = Some v
                 /\ JS.trim v <> "" /\ In (JS.trim v) values)
  /\ (forall (filters : Filters) (item : DataItem),
        GroupAggregator.passes filters item = true <->
        forall column values, In (column, values) filters -> values <> [] ->
          exists v, item !! column = Some v /\ In v values)
  /\ (forall number_to_string (filters : Filters) (item : Pivot.DataItem),
        Pivot.passes number_to_string filters item = true <->
        forall column values, In (column, values) filters -> values <> [] ->
          In (Pivot.String_ number_to_string (JS.row_read item column)) values).
Proof.
  split; [|split].
  - intros filters item. unfold Comparator.passes. rewrite forallb_entries. split.
    + intros H column values Hin Hne. specialize (H _ Hin). cbn beta iota in H.
      destruct values as [|x xs]; [contradiction|].
      destruct (item !! column) as [v|]; [|discriminate].
      apply andb_true_iff in H. destruct H as [Ht Hi].
      exists v. split; [reflexivity|]. split.
      * unfold JS.truthy in Ht. now destruct (String.eqb_spec (JS.trim v) "").
      * now apply includes_In.
    + intros H [column values] Hin. cbn beta iota.
      destruct values as [|x xs]; [reflexivity|].
      destruct (H _ _ Hin) as [v [-> [Hne Hv]]]; [discriminate|].
      apply andb_true_iff. split; [|now apply includes_In].
      unfold JS.truthy. now destruct (String.eqb_spec (JS.trim v) "").
  - intros filters item. unfold GroupAggregator.passes. rewrite forallb_entries. split.
    + intros H column values Hin Hne. specialize (H _ Hin). cbn beta iota in H.
      destruct values as [|x xs]; [contradiction|].
      destruct (item !! column) as [v|]; [|discriminate].
      exists v. split; [reflexivity|now apply includes_In].
    + intros H [column values] Hin. cbn beta iota.
      destruct values as [|x xs]; [reflexivity|].
      destruct (H _ _ Hin) as [v [-> Hv]]; [discriminate|].
      now apply includes_In.
  - intros nts filters item. unfold Pivot.passes. rewrite forallb_entries. split.
    + intros H column values Hin Hne. specialize (H _ Hin). cbn beta iota in H.
      destruct values as [|x xs]; [contradiction|]. now apply includes_In.
    + intros H [column values] Hin. cbn beta iota.
      destruct values as [|x xs]; [reflexivity|].
      apply includes_In, H; [exact Hin|discriminate].
Qed.

(** C2 as stated fails for the Group Aggregator: the trimmed value of
    the row is in the allow-list, and the row is rejected because the
    value is compared untrimmed. *)
Lemma filter_passes_counterexample :
  let filters : Filters := [("c", ["a"])] in
  let item : DataItem := {[ "c" := " a" ]} in
  (forall column values, In (column, values) filters -> values <> [] ->
     exists v, item !! column = Some v /\ In (JS.trim v) values)
  /\ GroupAggregator.passes filters item = false.
Proof.
  split; [|vm_compute; reflexivity].
  intros column values [[= <- <-]|[]] _. exists " a".
  split; [vm_compute; reflexivity|left; vm_compute; reflexivity].
Qed.

(** ** Tabular Parser *)

Lemma row_assign_plain {V} (obj : gmap string V) h v :
  h <> "__proto__" -> JS.row_assign obj h v = <[h := v]> obj.
Proof.
  intros Hh. unfold JS.row_assign. destruct (obj !! h); [reflexivity|].
  now destruct (String.eqb_spec h "__proto__").
Qed.

Lemma row_assign_proto {V} (obj : gmap string V) v :
  obj !! "__proto__" = None -> JS.row_assign obj "__proto__" v = obj.
Proof. intros H. unfold JS.row_assign. now rewrite H. Qed.

Lemma row_assign_cases {V} (obj : gmap string V) h v :
  JS.row_assign obj h v = <[h := v]> obj \/ JS.row_assign obj h v = obj.
Proof.
  unfold JS.row_assign. destruct (obj !! h); [now left|].
  destruct (h =? "__proto__")%string; [now right|now left].
Qed.

Lemma row_assign_keeps_proto {V} (obj : gmap string V) h v :
  obj !! "__proto__" = None -> JS.row_assign obj h v !! "__proto__" = None.
Proof.
  intros H. destruct (String.eqb_spec h "__proto__") as [->|Hne].
  - now rewrite row_assign_proto.
  - rewrite row_assign_plain by assumption. now rewrite lookup_insert_ne.
Qed.

(** The properties that the assignments create. *)
Lemma reduce_dom values headers : forall index (obj : DataItem),
  obj !! "__proto__" = None ->
  dom (Parser.reduce values index headers obj)
  = dom obj ∪ list_to_set
                (List.filter (fun h => negb (h =? "__proto__")%string) headers).
Proof.
  induction headers as [|h headers IH]; intros index obj Hobj; cbn [Parser.reduce].
  - cbn [List.filter]. rewrite list_to_set_nil. now rewrite union_empty_r_L.
  - rewrite IH by now apply row_assign_keeps_proto. cbn [List.filter].
    destruct (String.eqb_spec h "__proto__") as [->|Hne]; cbn [negb].
    + now rewrite row_assign_proto.
    + rewrite row_assign_plain by assumption.
      rewrite dom_insert_L, list_to_set_cons.
      rewrite (comm_L (∪) {[h]} (dom obj)). now rewrite (assoc_L (∪)).
Qed.

Lemma reduce_lookup_other values headers h : forall index (obj : DataItem),
  ~ In h headers -> Parser.reduce values index headers obj !! h = obj !! h.
Proof.
  induction headers as [|h' headers IH]; intros index obj Hin; [reflexivity|].
  cbn [Parser.reduce]. rewrite IH by (intros H; apply Hin; now right).
  destruct (row_assign_cases obj h' (Parser.cell values index)) as [-> | ->];
    [|reflexivity].
  apply lookup_insert_ne. intros ->. apply Hin. now left.
Qed.

Lemma reduce_lookup values headers h : forall index (obj : DataItem) i,
  h <> "__proto__" ->
  nth_error headers i = Some h ->
  (forall j, (i < j)%nat -> nth_error headers j <> Some h) ->
  Parser.reduce values index headers obj !! h
  = Some (Parser.cell values (index + i)).
Proof.
  induction headers as [|h' headers IH]; intros index obj i Hh Hi Hlast.
  - destruct i; discriminate.
  - cbn [Parser.reduce]. destruct i as [|i].
    + injection Hi as ->. rewrite reduce_lookup_other.
      * rewrite Nat.add_0_r, row_assign_plain by assumption.
        apply lookup_insert_eq.
      * intros Hin. apply In_nth_error in Hin. destruct Hin as [j Hj].
        apply (Hlast (S j)); [lia|exact Hj].
    + rewrite (IH (S index) _ i).
      * f_equal. f_equal. lia.
      * exact Hh.
      * exact Hi.
      * intros j Hj. apply (Hlast (S j)). lia.
Qed.

(** *** What trimming does *)

Lemma trim_start_spec s :
  exists pre, s = (pre ++ JS.trim_start s)%string
              /\ ParserSpec.blank pre = true
              /\ forall c, ParserSpec.first_char (JS.trim_start s) = Some c ->
                           JS.is_ws c = false.
Proof.
  induction s as [|c s (pre & E & Hb & Hf)].
  - exists "". repeat split. intros c [=].
  - cbn [JS.trim_start]. destruct (JS.is_ws c) eqn:Ec.
    + exists (String c pre). rewrite append_cons, <- E.
      split; [reflexivity|]. split; [|exact Hf].
      cbn [ParserSpec.blank]. now rewrite Ec.
    + exists "". split; [reflexivity|]. split; [reflexivity|].
      intros c' [= <-]. exact Ec.
Qed.

Lemma trim_end_spec s :
  exists post, s = (JS.trim_end s ++ post)%string
               /\ ParserSpec.blank post = true
               /\ (forall c, ParserSpec.last_char (JS.trim_end s) = Some c ->
                             JS.is_ws c = false)
               /\ (forall c, ParserSpec.first_char (JS.trim_end s) = Some c ->
                             ParserSpec.first_char s = Some c).
Proof.
  induction s as [|c s (post & E & Hb & Hl & Hf)].
  - exists "". repeat split; intros c [=].
  - cbn [JS.trim_end]. destruct (JS.trim_end s) as [|d t] eqn:Et.
    + destruct (JS.is_ws c) eqn:Ec.
      * exists (String c post). rewrite append_nil in *. subst s.
        split; [reflexivity|]. split; [cbn [ParserSpec.blank]; now rewrite Ec|].
        split; intros c' [=].
      * exists post. rewrite append_nil in E. subst s.
        split; [reflexivity|]. split; [exact Hb|].
        split; [intros c' [= <-]; exact Ec|intros c' H; exact H].
    + exists post. rewrite append_cons, <- E.
      split; [reflexivity|]. split; [exact Hb|].
      split; [|intros c' H; exact H].
      intros c' H. apply Hl. exact H.
Qed.

Lemma trim_spec s : ParserSpec.trimmed_of s (JS.trim s).
Proof.
  unfold JS.trim, ParserSpec.trimmed_of.
  destruct (trim_start_spec s) as (pre & E1 & Hb1 & Hf1).
  destruct (trim_end_spec (JS.trim_start s)) as (post & E2 & Hb2 & Hl2 & Hf2).
  exists pre, post. split; [now rewrite <- E2|].
  split; [exact Hb1|]. split; [exact Hb2|]. split; [|exact Hl2].
  intros c Hc. apply Hf1, Hf2, Hc.
Qed.

(** C10 fails on the code for a column named ["__proto__"]: the
    assignment of a string under this name creates no property, and the
    row has one key for two headers. *)
Theorem parser_proto_header :
  let content := ("__proto__,a" ++ Parser.LF ++ "x,y")%string in
  Parser.parseFile content
  = {| Parser.headers := ["__proto__"; "a"]; Parser.data := [ {[ "a" := "y" ]} ] |}
  /\ dom ({[ "a" := "y" ]} : DataItem) <> list_to_set ["__proto__"; "a"].
Proof.
  split; [vm_compute; reflexivity|].
  intros H.
  assert (Hin : "__proto__" ∈ (list_to_set ["__proto__"; "a"] : gset string))
    by set_solver.
  rewrite <- H in Hin. apply elem_of_dom in Hin. destruct Hin as [v Hv].
  vm_compute in Hv. discriminate.
Qed.

(** Every row returned by the CSV parser has as keys the header names
    other than ["__proto__"]; a header name is the header field without
    the white space at its two ends; the row comes from a data line, and
    under each of its keys it holds the trimmed field at the header's
    position (the last position, for a repeated header), the empty
    string when the line has no field there. *)
Theorem parser_rows_keys (content : string) (row : DataItem) :
  In row (Parser.data (Parser.parseFile content)) ->
  let headers := Parser.headers (Parser.parseFile content) in
  let fields := JS.split "," (hd "" (JS.split Parser.LF content)) in
  length headers = length fields
  /\ (forall i field, nth_error fields i = Some field ->
        exists h, nth_error headers i = Some h /\ ParserSpec.trimmed_of field h)
  /\ dom row
     = list_to_set (List.filter (fun h => negb (h =? "__proto__")%string) headers)
  /\ exists line,
       In line (tl (JS.split Parser.LF content))
       /\ forall i h,
            h <> "__proto__" ->
            nth_error headers i = Some h ->
            (forall j, (i < j)%nat -> nth_error headers j <> Some h) ->
            exists v,
              row !! h = Some v
              /\ match nth_error (JS.split "," line) i with
                 | Some field => ParserSpec.trimmed_of field v
                 | None => v = ""
                 end.
Proof.
  unfold Parser.parseFile. cbn [Parser.data Parser.headers].
  intros Hin. apply filter_In in Hin. destruct Hin as [Hin _].
  apply in_map_iff in Hin. destruct Hin as [line [<- Hline]].
  split; [apply length_map|]. split; [|split].
  - intros i field Hi. exists (JS.trim field).
    split; [|apply trim_spec]. rewrite nth_error_map. now rewrite Hi.
  - unfold Parser.row_of. rewrite reduce_dom by apply lookup_empty.
    now rewrite dom_empty_L, union_empty_l_L.
  - exists line. split; [exact Hline|]. intros i h Hh Hi Hlast.
    unfold Parser.row_of. rewrite (reduce_lookup _ _ h 0 _ i Hh Hi Hlast).
    eexists. split; [reflexivity|].
    unfold Parser.cell. cbn [Nat.add].
    destruct (nth_error (JS.split "," line) i) as [v|]; [|reflexivity].
    cbn zeta. unfold JS.truthy.
    destruct (String.eqb_spec (JS.trim v) "") as [E|_]; cbn [negb].
    + rewrite <- E. apply trim_spec.
    + apply trim_spec.
Qed.

Lemma parser_rows_keys_witness :
  let content := ("id, a,b" ++ Parser.LF ++ "S1, 41")%string in
  let row : DataItem := {[ "id" := "S1"; "a" := "41"; "b" := "" ]} in
  dom row
  = list_to_set
      (List.filter (fun h => negb (h =? "__proto__")%string)
         (Parser.headers (Parser.parseFile content))).
Proof.
  intros content row.
  refine (proj1 (proj2 (proj2 (parser_rows_keys content row _)))).
  vm_compute. left. reflexivity.
Defined.

(** ** Pivot Aggregator *)

Import PivotSpec.

Lemma lookup_map {A B} (f : A -> B) (l : list A) i :
  map f l !! i = option_map f (l !! i).
Proof.
  revert i. induction l as [|x l IH]; intros [|i]; try reflexivity. apply IH.
Qed.

Lemma add_values_length item vals : forall index cell,
  length (Pivot.add_values item index vals cell) = length cell.
Proof.
  induction vals as [|v vals IH]; intros index cell; [reflexivity|].
  cbn [Pivot.add_values]. rewrite IH.
  destruct (cell !! index); [apply length_insert|reflexivity].
Qed.

Lemma add_values_lookup item vals : forall index cell k,
  Pivot.add_values item index vals cell !! k =
  match (if (index <=? k)%nat then vals !! (k - index)%nat else None) with
  | Some v => option_map (fun x => (x + Pivot.contribution item v)%float) (cell !! k)
  | None => cell !! k
  end.
Proof.
  induction vals as [|v vals IH]; intros index cell k.
  - cbn [Pivot.add_values]. destruct (index <=? k)%nat; [|reflexivity].
    now rewrite lookup_nil.
  - cbn [Pivot.add_values]. rewrite IH.
    destruct (Nat.leb_spec index k) as [Hle|Hlt].
    + destruct (Nat.eq_dec index k) as [->|Hne].
      * replace (S k <=? k)%nat with false by (symmetry; apply Nat.leb_gt; lia).
        rewrite Nat.sub_diag. cbn [lookup list_lookup].
        destruct (cell !! k) as [x|] eqn:E; [|now rewrite E].
        rewrite list_lookup_insert_eq; [reflexivity|].
        now apply lookup_lt_Some in E.
      * replace (S index <=? k)%nat with true by (symmetry; apply Nat.leb_le; lia).
        replace (k - index)%nat with (S (k - S index)) by lia.
        cbn [lookup list_lookup].
        assert (Hk : match cell !! index with
                     | Some x => <[index:=(x + Pivot.contribution item v)%float]> cell
                     | None => cell
                     end !! k = cell !! k).
        { destruct (cell !! index); [|reflexivity].
          now apply list_lookup_insert_ne. }
        now rewrite Hk.
    + replace (S index <=? k)%nat with false by (symmetry; apply Nat.leb_gt; lia).
      destruct (cell !! index); [|reflexivity].
      apply list_lookup_insert_ne. lia.
Qed.

Lemma mapM_returns {A B} (f : A -> JS.outcome B) (g : A -> B) l :
  (forall x, In x l -> f x = JS.Returns (g x)) ->
  JS.mapM f l = JS.Returns (map g l).
Proof.
  induction l as [|x l IH]; intros H; [reflexivity|].
  cbn [JS.mapM map]. rewrite (H x) by now left. cbn [JS.bind].
  rewrite IH by (intros y Hy; apply H; now right). reflexivity.
Qed.

Section PivotFacts.
Variable number_to_string : float -> string.
Variable config : Pivot.PivotConfig.

Let add (cell : list float) (item : Pivot.DataItem) : list float :=
  Pivot.add_values item 0 (Pivot.values config) cell.

Let rowKey_of := Pivot.key number_to_string (Pivot.rows config).
Let colKey_of := Pivot.key number_to_string (Pivot.columns config).

(** What the body of the loop does under a row key that the table does
    not inherit and a column key other than ["__proto__"]. *)
Let step (table : Pivot.Table) (item : Pivot.DataItem) : Pivot.Table :=
  let row := default ∅ (table !! rowKey_of item) in
  match row !! colKey_of item with
  | Some c => <[rowKey_of item := <[colKey_of item := add c item]> row]> table
  | None =>
      if JS.inherited (colKey_of item) then <[rowKey_of item := row]> table
      else <[rowKey_of item := <[colKey_of item := add (Pivot.zeros config) item]> row]>
             table
  end.

(** The own cell of a line. *)
Let own (table : Pivot.Table) (r c : string) : option (list float) :=
  match table !! r with
  | Some row => row !! c
  | None => None
  end.

Let cellz (table : Pivot.Table) (r c : string) : list float :=
  default (Pivot.zeros config) (own table r c).

Lemma accumulate_step table item :
  JS.inherited (rowKey_of item) = false ->
  colKey_of item <> "__proto__" ->
  Pivot.accumulate number_to_string config table item = JS.Returns (step table item).
Proof.
  intros Hr Hc. unfold Pivot.accumulate, step, JS.row_read.
  fold (rowKey_of item) (colKey_of item). cbv zeta.
  destruct (table !! rowKey_of item) as [row|]; cbn [default from_option id].
  - destruct (row !! colKey_of item); [reflexivity|].
    destruct (JS.inherited (colKey_of item)); [|reflexivity].
    now destruct (String.eqb_spec (colKey_of item) "__proto__").
  - rewrite Hr, lookup_empty.
    destruct (JS.inherited (colKey_of item)); [|reflexivity].
    now destruct (String.eqb_spec (colKey_of item) "__proto__").
Qed.

Lemma pivotTable_steps fd : forall table,
  (forall item, In item fd ->
     JS.inherited (rowKey_of item) = false /\ colKey_of item <> "__proto__") ->
  JS.foldM (Pivot.accumulate number_to_string config) fd table
  = JS.Returns (fold_left step fd table).
Proof.
  induction fd as [|item fd IH]; intros table H; [reflexivity|].
  cbn [JS.foldM fold_left].
  destruct (H item) as [Hr Hc]; [now left|].
  rewrite accumulate_step by assumption. cbn [JS.bind].
  apply IH. intros i Hi. apply H. now right.
Qed.

Lemma own_step table item r c :
  own (step table item) r c
  = if matches number_to_string config r c item
    then match own table r c with
         | Some v => Some (add v item)
         | None => if JS.inherited c then None
                   else Some (add (Pivot.zeros config) item)
         end
    else own table r c.
Proof.
  unfold own, step, matches. fold (rowKey_of item) (colKey_of item). cbv zeta.
  destruct (String.eqb_spec (rowKey_of item) r) as [<-|Hr]; cbn [andb].
  - destruct (String.eqb_spec (colKey_of item) c) as [<-|Hc].
    + destruct (table !! rowKey_of item) as [row|]; cbn [default from_option id].
      * destruct (row !! colKey_of item) as [v|] eqn:E.
        -- now rewrite !lookup_insert_eq.
        -- destruct (JS.inherited (colKey_of item));
             now rewrite lookup_insert_eq, ?lookup_insert_eq.
      * rewrite lookup_empty.
        destruct (JS.inherited (colKey_of item));
          now rewrite lookup_insert_eq, ?lookup_insert_eq, ?lookup_empty.
    + destruct (default ∅ (table !! rowKey_of item) !! colKey_of item) eqn:E.
      * rewrite lookup_insert_eq, lookup_insert_ne by assumption.
        destruct (table !! rowKey_of item); [reflexivity|apply lookup_empty].
      * destruct (JS.inherited (colKey_of item));
          rewrite lookup_insert_eq, ?lookup_insert_ne by assumption;
          (destruct (table !! rowKey_of item); [reflexivity|apply lookup_empty]).
  - destruct (default ∅ (table !! rowKey_of item) !! colKey_of item);
      [|destruct (JS.inherited (colKey_of item))];
      now rewrite lookup_insert_ne by assumption.
Qed.

Lemma own_inherited fd r c :
  JS.inherited c = true -> own (fold_left step fd ∅) r c = None.
Proof.
  intros Hc. induction fd as [|item fd IH] using rev_ind.
  - cbn [fold_left]. unfold own. now rewrite lookup_empty.
  - rewrite fold_left_app. cbn [fold_left]. rewrite own_step, IH, Hc.
    now destruct (matches number_to_string config r c item).
Qed.

Lemma cellz_steps fd r c :
  JS.inherited c = false ->
  cellz (fold_left step fd ∅) r c
  = fold_left add (List.filter (matches number_to_string config r c) fd)
      (Pivot.zeros config).
Proof.
  intros Hc. unfold cellz. induction fd as [|item fd IH] using rev_ind.
  - cbn [fold_left]. unfold own. now rewrite lookup_empty.
  - rewrite fold_left_app, List.filter_app. cbn [fold_left List.filter].
    rewrite own_step, Hc.
    destruct (matches number_to_string config r c item).
    + rewrite fold_left_app. cbn [fold_left]. rewrite <- IH.
      now destruct (own (fold_left step fd ∅) r c).
    + now rewrite app_nil_r.
Qed.

Lemma line_present fd r :
  In r (map rowKey_of fd) -> (fold_left step fd ∅) !! r <> None.
Proof.
  induction fd as [|item fd IH] using rev_ind; [intros []|].
  rewrite map_app, in_app_iff, fold_left_app. cbn [fold_left map In].
  intros Hin. set (table := fold_left step fd ∅) in *.
  destruct (String.eqb_spec (rowKey_of item) r) as [E|Hne].
  - unfold step. cbv zeta. rewrite E.
    destruct (default ∅ (table !! r) !! colKey_of item);
      [|destruct (JS.inherited (colKey_of item))];
      now rewrite lookup_insert_eq.
  - assert (Ht : table !! r <> None).
    { apply IH. destruct Hin as [H|[H|[]]]; [exact H|contradiction]. }
    unfold step. cbv zeta.
    destruct (default ∅ (table !! rowKey_of item) !! colKey_of item);
      [|destruct (JS.inherited (colKey_of item))];
      now rewrite lookup_insert_ne by assumption.
Qed.

(** The cell that the result shows for a row key that was met. *)
Lemma cell_steps fd r c :
  JS.inherited r = false ->
  In r (map rowKey_of fd) ->
  Pivot.cell_or_zeros config (fold_left step fd ∅) r c
  = JS.Returns
      (if JS.inherited c then Pivot.BuiltIn c
       else Pivot.Numbers
              (fold_left add (List.filter (matches number_to_string config r c) fd)
                 (Pivot.zeros config))).
Proof.
  intros Hr Hin. pose proof (line_present fd r Hin) as Hl.
  unfold Pivot.cell_or_zeros, JS.row_read.
  destruct (JS.inherited c) eqn:Hc.
  - pose proof (own_inherited fd r c Hc) as Ho. unfold own in Ho.
    destruct (fold_left step fd ∅ !! r) as [row|]; [|contradiction].
    now rewrite Ho.
  - pose proof (cellz_steps fd r c Hc) as Hz. unfold cellz, own in Hz.
    destruct (fold_left step fd ∅ !! r) as [row|]; [|contradiction].
    rewrite <- Hz. now destruct (row !! c).
Qed.

Lemma fold_add_length l : forall cell, length (fold_left add l cell) = length cell.
Proof.
  induction l as [|item l IH]; intros cell; [reflexivity|].
  cbn [fold_left]. rewrite IH. apply add_values_length.
Qed.

Lemma fold_add_lookup l k value : forall cell x,
  Pivot.values config !! k = Some value ->
  cell !! k = Some x ->
  fold_left add l cell !! k
  = Some (fold_left PrimFloat.add
            (map (fun item => Pivot.contribution item value) l) x).
Proof.
  induction l as [|item l IH]; intros cell x Hv Hx; [exact Hx|].
  cbn [fold_left map]. apply IH; [exact Hv|].
  unfold add. rewrite add_values_lookup. cbn [Nat.leb].
  now rewrite Nat.sub_0_r, Hv, Hx.
Qed.

Lemma zeros_lookup k value :
  Pivot.values config !! k = Some value -> Pivot.zeros config !! k = Some 0%float.
Proof.
  intros H. unfold Pivot.zeros. now rewrite lookup_map, H.
Qed.

(** The table of values, when no row key is an inherited name and no
    column key is ["__proto__"]. *)
Lemma out_values_returns data filters :
  let fd := Pivot.filteredData number_to_string data filters in
  (forall item, In item fd ->
     JS.inherited (rowKey_of item) = false /\ colKey_of item <> "__proto__") ->
  Pivot.out_values (Pivot.processData number_to_string data config filters)
  = JS.Returns
      (map (fun r =>
              map (fun c =>
                     if JS.inherited c then Pivot.BuiltIn c
                     else Pivot.Numbers
                            (fold_left add
                               (List.filter (matches number_to_string config r c) fd)
                               (Pivot.zeros config)))
                (JS.array_from_set (map colKey_of fd)))
         (JS.array_from_set (map rowKey_of fd))).
Proof.
  intros fd H. unfold Pivot.processData. cbn [Pivot.out_values]. fold fd.
  unfold Pivot.pivotTable. rewrite pivotTable_steps by exact H. cbn [JS.bind].
  apply mapM_returns. intros r Hr. apply mapM_returns. intros c _.
  apply (proj1 (array_from_set_In _ _)) in Hr. apply cell_steps; [|exact Hr].
  apply in_map_iff in Hr. destruct Hr as [item [<- Hitem]]. now apply H.
Qed.

End PivotFacts.

(** C8 fails on the code for a column key named like a property that
    every object inherits: for such a key the cell of every row is the
    inherited function, also where no source row matches (the row "y"
    here), and never a vector of zeros. *)
Theorem pivot_inherited_column :
  let data : list Pivot.DataItem :=
    [ {[ "r" := JS.VStr "x"; "c" := JS.VStr "toString"; "v" := JS.VNum 1%float ]};
      {[ "r" := JS.VStr "y"; "c" := JS.VStr "B"; "v" := JS.VNum 2%float ]} ] in
  let config := {| Pivot.rows := ["r"]; Pivot.columns := ["c"];
                   Pivot.values := ["v"] |} in
  let out := Pivot.processData (fun _ => "") data config [] in
  Pivot.out_rows out = ["x"; "y"]
  /\ Pivot.out_columns out = ["toString"; "B"]
  /\ Pivot.out_values out
     = JS.Returns [ [Pivot.BuiltIn "toString"; Pivot.Numbers [0%float]];
                    [Pivot.BuiltIn "toString"; Pivot.Numbers [2%float]] ]
  /\ List.filter (matches (fun _ => "") config "y" "toString") data = [].
Proof. vm_compute. repeat split. Qed.

(** Zero fill: when no row key is named like an inherited property and
    no column key is ["__proto__"], the table has a cell for every
    listed row key and column key; under a column key that is not an
    inherited name it is a vector with one slot per value column, the
    vector of zeros when no filtered row falls in the cell; slot [k] is
    the sum, over the filtered rows that fall in the cell, of
    [Number(value) || 0] for the [k]-th value column, which is 0 for a
    value that does not convert to a number. *)
Theorem pivot_zero_fill (number_to_string : float -> string)
    (data : list Pivot.DataItem) (config : Pivot.PivotConfig) (filters : Filters) :
  let fd := Pivot.filteredData number_to_string data filters in
  let out := Pivot.processData number_to_string data config filters in
  (forall item, In item fd ->
     JS.inherited (Pivot.key number_to_string (Pivot.rows config) item) = false
     /\ Pivot.key number_to_string (Pivot.columns config) item <> "__proto__") ->
  exists table,
    Pivot.out_values out = JS.Returns table
    /\ (forall i j rowKey colKey,
          Pivot.out_rows out !! i = Some rowKey ->
          Pivot.out_columns out !! j = Some colKey ->
          exists row cell,
            table !! i = Some row
            /\ row !! j = Some cell
            /\ if JS.inherited colKey then cell = Pivot.BuiltIn colKey
               else
                 exists v,
                   cell = Pivot.Numbers v
                   /\ length v = length (Pivot.values config)
                   /\ ((forall item, In item fd ->
                          matches number_to_string config rowKey colKey item = false) ->
                       v = map (fun _ => 0%float) (Pivot.values config))
                   /\ (forall k value,
                         Pivot.values config !! k = Some value ->
                         v !! k =
                         Some (fold_left PrimFloat.add
                                 (map (fun item => JS.or0 (JS.to_number (item !! value)))
                                    (List.filter
                                       (matches number_to_string config rowKey colKey)
                                       fd))
                                 0%float)))
    /\ (forall (item : Pivot.DataItem) value,
          PrimFloat.is_nan (JS.to_number (item !! value)) = true ->
          JS.or0 (JS.to_number (item !! value)) = 0%float).
Proof.
  intros fd out H. eexists. split; [|split].
  - apply (out_values_returns number_to_string config data filters H).
  - intros i j rowKey colKey Hi Hj. unfold out, Pivot.processData in Hi, Hj.
    cbn [Pivot.out_rows Pivot.out_columns] in Hi, Hj. subst fd.
    eexists _, _. split; [rewrite lookup_map, Hi; reflexivity|].
    split; [rewrite lookup_map, Hj; reflexivity|].
    cbv beta. destruct (JS.inherited colKey); [reflexivity|].
    eexists. split; [reflexivity|]. split; [|split].
    + rewrite fold_add_length. unfold Pivot.zeros. apply length_map.
    + intros Hnone.
      assert (E : List.filter (matches number_to_string config rowKey colKey)
                    (Pivot.filteredData number_to_string data filters) = []).
      { clear -Hnone.
        induction (Pivot.filteredData number_to_string data filters) as [|x l IH];
          [reflexivity|].
        cbn [List.filter]. rewrite (Hnone x) by now left.
        apply IH. intros item H. apply Hnone. now right. }
      now rewrite E.
    + intros k value Hv.
      apply (fold_add_lookup config _ k value); [exact Hv|].
      now apply (zeros_lookup _ k value).
  - intros item value Hn. unfold JS.or0. now rewrite Hn.
Qed.

Lemma pivot_zero_fill_witness :
  let data : list Pivot.DataItem :=
    [ {[ "r" := JS.VStr "a"; "c" := JS.VStr "x"; "v" := JS.VNum 1%float ]};
      {[ "r" := JS.VStr "b"; "c" := JS.VStr "y"; "v" := JS.VStr "n/a" ]} ] in
  let config := {| Pivot.rows := ["r"]; Pivot.columns := ["c"];
                   Pivot.values := ["v"] |} in
  exists table,
    Pivot.out_values (Pivot.processData (fun _ => "") data config [])
      = JS.Returns table
    /\ exists row, table !! 0%nat = Some row
                   /\ row !! 1%nat = Some (Pivot.Numbers [0%float]).
Proof.
  intros data config.
  destruct (pivot_zero_fill (fun _ => "") data config []) as (table & Ht & Hcells & _).
  - intros item [<-|[<-|[]]]; split; vm_compute; congruence.
  - exists table. split; [exact Ht|].
    destruct (Hcells 0%nat 1%nat "a" "y") as (row & cell & Hrow & Hcell & Hv).
    + vm_compute. reflexivity.
    + vm_compute. reflexivity.
    + exists row. split; [exact Hrow|]. rewrite Hcell. f_equal.
      change (JS.inherited "y") with false in Hv. cbv iota in Hv.
      destruct Hv as (v & -> & _ & Hzero & _). f_equal.
      apply Hzero. intros item [<-|[<-|[]]]; vm_compute; reflexivity.
Defined.

(** * Further properties of the components *)

(** ** Filtering before processing *)

Lemma filter_all {A} (p : A -> bool) (l : list A) :
  (forall x, In x l -> p x = true) -> List.filter p l = l.
Proof.
  induction l as [|x l IH]; intros H; [reflexivity|].
  cbn [List.filter]. rewrite (H x) by now left.
  f_equal. apply IH. intros y Hy. apply H. now right.
Qed.

Lemma comparator_no_filters data : Comparator.filteredData data [] = data.
Proof. apply filter_all. reflexivity. Qed.

Lemma aggregator_no_filters data : GroupAggregator.filteredData data [] = data.
Proof. apply filter_all. reflexivity. Qed.

Lemma pivot_no_filters nts data : Pivot.filteredData nts data [] = data.
Proof. apply filter_all. reflexivity. Qed.

(** The Comparator and the Pivot Aggregator on filtered rows: the
    result is the one they give, without filters, on the rows that pass
    the filters. *)
Theorem filters_apply_first nts (data : list DataItem) (cc rc : string)
    (pdata : list Pivot.DataItem) (config : Pivot.PivotConfig) (filters : Filters) :
  Comparator.processData data cc rc filters
  = Comparator.processData (Comparator.filteredData data filters) cc rc []
  /\ Pivot.processData nts pdata config filters
     = Pivot.processData nts (Pivot.filteredData nts pdata filters) config [].
Proof.
  split.
  - unfold Comparator.processData. rewrite comparator_no_filters.
    destruct data as [|d data']; [reflexivity|].
    destruct (Comparator.filteredData (d :: data') filters) as [|x fd] eqn:E.
    + cbn. now destruct (negb (JS.truthy rc)).
    + reflexivity.
  - unfold Pivot.processData. now rewrite pivot_no_filters.
Qed.

(** The chart without column filters computes what the Group Aggregator
    computes with no filter set.  The Group Aggregator reads the type
    of a column off the first row of the unfiltered data: filtering
    first gives the same result when that row passes the filters, or
    when no row does. *)
Theorem aggregator_filter_first data cc cols filters :
  Likert.processData data cc cols = GroupAggregator.processData data cc cols []
  /\ ((exists d rest, data = d :: rest /\ GroupAggregator.passes filters d = true)
      \/ GroupAggregator.filteredData data filters = [] ->
      GroupAggregator.processData data cc cols filters
      = Likert.processData (GroupAggregator.filteredData data filters) cc cols).
Proof.
  unfold Likert.processData, GroupAggregator.processData,
    GroupAggregator.conditionCounts.
  split; [now rewrite aggregator_no_filters|].
  intros [(d & rest & -> & Hd)|E].
  - unfold GroupAggregator.filteredData. cbn [List.filter]. rewrite Hd.
    reflexivity.
  - rewrite E. now destruct data.
Qed.

Lemma aggregator_filter_first_witness :
  GroupAggregator.processData
    [ {[ "c" := "A"; "x" := "1" ]}; {[ "c" := "B"; "x" := "2" ]} ]
    "c" ["x"] [("c", ["A"])]
  = Likert.processData
      (GroupAggregator.filteredData
         [ {[ "c" := "A"; "x" := "1" ]}; {[ "c" := "B"; "x" := "2" ]} ]
         [("c", ["A"])])
      "c" ["x"].
Proof.
  apply (aggregator_filter_first
           [ {[ "c" := "A"; "x" := "1" ]}; {[ "c" := "B"; "x" := "2" ]} ]
           "c" ["x"] [("c", ["A"])]).
  left. eexists _, _. split; [reflexivity|]. vm_compute. reflexivity.
Defined.

(** ** The filter handlers *)

Lemma copy_get (prev : Filters) k :
  List.NoDup (map fst prev) ->
  JS.obj_get (FilterState.copy prev) k = JS.obj_get prev k.
Proof.
  intros Hnd. unfold FilterState.copy.
  destruct (JS.obj_get prev k) as [v|] eqn:E.
  - apply fold_set_get.
    + apply obj_entries_In, obj_get_In, E.
    + intros v' Hin. apply (proj1 (obj_entries_In _ _)) in Hin.
      apply (obj_In_get _ _ _ Hnd) in Hin. congruence.
  - rewrite fold_set_get_other; [reflexivity|].
    intros Hin. apply in_map_iff in Hin. destruct Hin as [[k' v] [Hk Hin]].
    cbn in Hk. subst k'. apply (proj1 (obj_entries_In _ _)) in Hin.
    apply (obj_get_None _ _ E). apply in_map_iff. now exists (k, v).
Qed.

Lemma copy_NoDup (prev : Filters) : List.NoDup (map fst (FilterState.copy prev)).
Proof. apply fold_set_NoDup. constructor. Qed.

Lemma onCheckedChange_NoDup column value checked prev :
  List.NoDup (map fst (FilterState.onCheckedChange column value checked prev)).
Proof.
  unfold FilterState.onCheckedChange.
  destruct (JS.obj_get (FilterState.copy prev) column), checked;
    repeat apply obj_set_NoDup; apply copy_NoDup.
Qed.

Lemma onCheckedChange_get column value checked prev :
  List.NoDup (map fst prev) ->
  JS.obj_get (FilterState.onCheckedChange column value checked prev) column
  = Some (if checked then (set_of prev column ++ [value])%list
          else List.filter (fun v => negb (v =? value)%string) (set_of prev column))
  /\ forall c, c <> column ->
       JS.obj_get (FilterState.onCheckedChange column value checked prev) c
       = JS.obj_get prev c.
Proof.
  intros Hnd. unfold FilterState.onCheckedChange, set_of.
  pose proof (copy_get prev column Hnd) as Hc.
  destruct (JS.obj_get (FilterState.copy prev) column) as [l|] eqn:E.
  - rewrite E, <- Hc. split.
    + destruct checked; apply obj_get_set_eq.
    + intros c Hne. rewrite <- (copy_get prev c Hnd).
      destruct checked; apply obj_get_set_ne; congruence.
  - rewrite obj_get_set_eq, <- Hc. split.
    + destruct checked; apply obj_get_set_eq.
    + intros c Hne. rewrite <- (copy_get prev c Hnd).
      destruct checked; rewrite !obj_get_set_ne by congruence; reflexivity.
Qed.

Lemma onCheckedChange_set_of column value checked prev c :
  List.NoDup (map fst prev) ->
  set_of (FilterState.onCheckedChange column value checked prev) c
  = if (c =? column)%string
    then if checked then (set_of prev column ++ [value])%list
         else List.filter (fun v => negb (v =? value)%string) (set_of prev column)
    else set_of prev c.
Proof.
  intros Hnd. destruct (onCheckedChange_get column value checked prev Hnd) as [H1 H2].
  unfold set_of at 1. destruct (String.eqb_spec c column) as [->|Hne].
  - now rewrite H1.
  - now rewrite H2.
Qed.

Lemma filter_neq_absent value (l : list string) :
  ~ In value l -> List.filter (fun v => negb (v =? value)%string) l = l.
Proof.
  intros H. apply filter_all. intros x Hx.
  destruct (String.eqb_spec x value) as [->|]; [contradiction|reflexivity].
Qed.

(** Two filter objects with the same allow-lists, a missing column
    counting as an empty list, are told apart by no predicate that
    accepts the empty list. *)
Lemma forallb_allow_lists (p : string * list string -> bool) (f g : Filters) :
  (forall c, p (c, []) = true) ->
  List.NoDup (map fst f) ->
  (forall c, set_of f c = set_of g c) ->
  forallb p (JS.obj_entries g) = true -> forallb p (JS.obj_entries f) = true.
Proof.
  intros Hnil Hf Heq H. apply forallb_entries. intros [c vs] Hin.
  rewrite forallb_entries in H.
  apply (obj_In_get _ _ _ Hf) in Hin.
  specialize (Heq c). unfold set_of in Heq. rewrite Hin in Heq.
  destruct (JS.obj_get g c) as [vs'|] eqn:E.
  - subst vs'. apply H, obj_get_In, E.
  - subst vs. apply Hnil.
Qed.

Lemma forallb_allow_lists_eq (p : string * list string -> bool) (f g : Filters) :
  (forall c, p (c, []) = true) ->
  List.NoDup (map fst f) -> List.NoDup (map fst g) ->
  (forall c, set_of f c = set_of g c) ->
  forallb p (JS.obj_entries f) = forallb p (JS.obj_entries g).
Proof.
  intros Hnil Hf Hg Heq. apply eq_true_iff_eq. split.
  - apply forallb_allow_lists; auto.
  - apply forallb_allow_lists; auto.
Qed.

Lemma toggle_set_of column value prev c :
  List.NoDup (map fst prev) -> ~ In value (set_of prev column) ->
  set_of (FilterState.onCheckedChange column value false
            (FilterState.onCheckedChange column value true prev)) c
  = set_of prev c.
Proof.
  intros Hnd Hv.
  rewrite onCheckedChange_set_of by apply onCheckedChange_NoDup.
  rewrite !onCheckedChange_set_of by exact Hnd.
  rewrite String.eqb_refl.
  destruct (String.eqb_spec c column) as [->|Hne]; [|reflexivity].
  rewrite List.filter_app. cbn [List.filter]. rewrite String.eqb_refl.
  cbn [negb]. rewrite app_nil_r. now apply filter_neq_absent.
Qed.

(** Checking a value that is not selected and unchecking it again gives
    filters that select the same rows as before, in each of the three
    charts: the column may be left with an empty allow-list, which
    constrains nothing. *)
Theorem toggle_round_trip nts column value (prev : Filters) :
  List.NoDup (map fst prev) -> ~ In value (set_of prev column) ->
  let next := FilterState.onCheckedChange column value false
                (FilterState.onCheckedChange column value true prev) in
  (forall item, Comparator.passes next item = Comparator.passes prev item)
  /\ (forall item, GroupAggregator.passes next item = GroupAggregator.passes prev item)
  /\ (forall item, Pivot.passes nts next item = Pivot.passes nts prev item).
Proof.
  intros Hnd Hv next.
  assert (Hn : List.NoDup (map fst next)) by apply onCheckedChange_NoDup.
  assert (Hs : forall c, set_of next c = set_of prev c)
    by (intros c; now apply toggle_set_of).
  repeat split; intros item; apply forallb_allow_lists_eq; auto.
Qed.

Lemma toggle_round_trip_witness :
  let prev := [("Sex", ["F"])] in
  let next := FilterState.onCheckedChange "Age" "30" false
                (FilterState.onCheckedChange "Age" "30" true prev) in
  next = [("Sex", ["F"]); ("Age", [])]
  /\ forall item, Comparator.passes next item = Comparator.passes prev item.
Proof.
  split; [reflexivity|].
  apply (toggle_round_trip (fun _ => "") "Age" "30" [("Sex", ["F"])]).
  - repeat constructor; cbn; intuition discriminate.
  - cbn. tauto.
Defined.

(** What a toggle does to the allow-lists: the column of the box gets
    the value appended, or every occurrence of it removed; every other
    column keeps its list; property names stay distinct. *)
Theorem toggle_lookup column value checked (prev : Filters) :
  List.NoDup (map fst prev) ->
  let next := FilterState.onCheckedChange column value checked prev in
  JS.obj_get next column
  = Some (if checked then (set_of prev column ++ [value])%list
          else List.filter (fun v => negb (v =? value)%string) (set_of prev column))
  /\ (forall c, c <> column -> JS.obj_get next c = JS.obj_get prev c)
  /\ (checked = false -> ~ In value (set_of next column))
  /\ (checked = true -> In value (set_of next column))
  /\ List.NoDup (map fst next).
Proof.
  intros Hnd next.
  destruct (onCheckedChange_get column value checked prev Hnd) as [H1 H2].
  split; [exact H1|]. split; [exact H2|].
  unfold set_of. fold next in H1. rewrite H1.
  repeat split.
  - intros -> Hin. apply filter_In in Hin. destruct Hin as [_ Hin].
    now rewrite String.eqb_refl in Hin.
  - intros ->. apply in_or_app. right. now left.
  - apply onCheckedChange_NoDup.
Qed.

Lemma toggle_lookup_witness :
  JS.obj_get (FilterState.onCheckedChange "Sex" "F" false [("Sex", ["F"; "M"; "F"])])
    "Sex" = Some ["M"].
Proof.
  apply (toggle_lookup "Sex" "F" false [("Sex", ["F"; "M"; "F"])]).
  repeat constructor; cbn; intuition discriminate.
Defined.

(** The remove button of a badge does what unchecking the box of the
    same value does; a badge is shown for the values of the active
    filters only, for which the call cannot throw. *)
Theorem badge_remove_is_uncheck column value values (filters : Filters) :
  List.NoDup (map fst filters) ->
  In (column, values) (FilterState.activeFilters filters) ->
  FilterState.onRemove column value filters
  = Some (FilterState.onCheckedChange column value false filters).
Proof.
  intros Hnd Hin. unfold FilterState.activeFilters in Hin.
  apply filter_In in Hin. destruct Hin as [Hin _].
  apply (proj1 (obj_entries_In _ _)) in Hin.
  apply (obj_In_get _ _ _ Hnd) in Hin.
  unfold FilterState.onRemove, FilterState.onCheckedChange.
  rewrite Hin, (copy_get _ _ Hnd), Hin, (copy_get _ _ Hnd), Hin. reflexivity.
Qed.

Lemma badge_remove_is_uncheck_witness :
  FilterState.onRemove "Sex" "F" [("Sex", ["F"; "M"])]
  = Some (FilterState.onCheckedChange "Sex" "F" false [("Sex", ["F"; "M"])]).
Proof.
  apply (badge_remove_is_uncheck "Sex" "F" ["F"; "M"] [("Sex", ["F"; "M"])]).
  - repeat constructor; cbn; intuition discriminate.
  - cbn. now left.
Defined.

Lemma includes_app l value x :
  includes l x = true -> includes (l ++ [value]) x = true.
Proof.
  rewrite !includes_In. intros H. apply in_or_app. now left.
Qed.

Lemma check_widens_gen (p : string * list string -> bool) column value (prev : Filters) :
  List.NoDup (map fst prev) ->
  (forall l, l <> [] -> p (column, l) = true -> p (column, (l ++ [value])%list) = true) ->
  set_of prev column <> [] ->
  forallb p (JS.obj_entries prev) = true ->
  forallb p (JS.obj_entries (FilterState.onCheckedChange column value true prev)) = true.
Proof.
  intros Hnd Hmono Hcur H. rewrite forallb_entries in H.
  apply forallb_entries. intros [c vs] Hin.
  apply (obj_In_get _ _ _ (onCheckedChange_NoDup _ _ _ _)) in Hin.
  destruct (onCheckedChange_get column value true prev Hnd) as [H1 H2].
  destruct (string_dec c column) as [->|Hne].
  - rewrite H1 in Hin. injection Hin as <-.
    apply Hmono; [exact Hcur|]. apply H. unfold set_of in *.
    destruct (JS.obj_get prev column) as [cur|] eqn:E; [|contradiction].
    apply obj_get_In, E.
  - rewrite H2 in Hin by exact Hne. apply H, obj_get_In, Hin.
Qed.

Lemma first_check_narrows_gen (p : string * list string -> bool) column value
    (prev : Filters) :
  List.NoDup (map fst prev) ->
  p (column, []) = true ->
  set_of prev column = [] ->
  forallb p (JS.obj_entries (FilterState.onCheckedChange column value true prev)) = true ->
  forallb p (JS.obj_entries prev) = true.
Proof.
  intros Hnd Hnil Hcur H. rewrite forallb_entries in H.
  apply forallb_entries. intros [c vs] Hin.
  apply (obj_In_get _ _ _ Hnd) in Hin.
  destruct (onCheckedChange_get column value true prev Hnd) as [H1 H2].
  destruct (string_dec c column) as [->|Hne].
  - unfold set_of in Hcur. rewrite Hin in Hcur. now subst vs.
  - apply H, obj_get_In. now rewrite H2.
Qed.

(** Checking a box: when its column already has a selection, every row
    that passed still passes (a longer allow-list admits more); when the
    column had none, only rows that passed before can pass.  This holds
    for the filters of the three charts. *)
Theorem check_effect nts column value (prev : Filters) :
  List.NoDup (map fst prev) ->
  let next := FilterState.onCheckedChange column value true prev in
  (set_of prev column <> [] ->
   (forall item, Comparator.passes prev item = true ->
                 Comparator.passes next item = true)
   /\ (forall item, GroupAggregator.passes prev item = true ->
                    GroupAggregator.passes next item = true)
   /\ (forall item, Pivot.passes nts prev item = true ->
                    Pivot.passes nts next item = true))
  /\ (set_of prev column = [] ->
      (forall item, Comparator.passes next item = true ->
                    Comparator.passes prev item = true)
      /\ (forall item, GroupAggregator.passes next item = true ->
                       GroupAggregator.passes prev item = true)
      /\ (forall item, Pivot.passes nts next item = true ->
                       Pivot.passes nts prev item = true)).
Proof.
  intros Hnd next. split; intros Hcur.
  - repeat split; intros item; apply check_widens_gen; auto;
      intros [|a l] Hl; try contradiction; cbn [app].
    + destruct (item !! column) as [v|]; [|easy].
      intros H. apply andb_true_iff in H. destruct H as [Ht Hi].
      rewrite Ht. cbn [andb]. now apply (includes_app (a :: l)).
    + destruct (item !! column) as [v|]; [|easy].
      apply (includes_app (a :: l)).
    + apply (includes_app (a :: l)).
  - repeat split; intros item; apply first_check_narrows_gen; auto.
Qed.

Lemma check_effect_witness :
  let prev := [("Sex", ["F"])] in
  let item : DataItem := {[ "Sex" := "F"; "Age" := "30" ]} in
  Comparator.passes prev item = true
  /\ Comparator.passes (FilterState.onCheckedChange "Sex" "M" true prev) item = true.
Proof.
  split; [reflexivity|].
  refine (proj1 (proj1 (check_effect (fun _ => "") "Sex" "M" [("Sex", ["F"])] _) _) _ _).
  - repeat constructor; cbn; intuition discriminate.
  - cbn. discriminate.
  - reflexivity.
Defined.

(** ** The filter options *)

Lemma set_add_In s v x : In x (set_add s v) <-> In x s \/ x = v.
Proof.
  unfold set_add. destruct (decide (v ∈ s)) as [H|H].
  - apply list_elem_of_In in H. split; [now left|]. now intros [H'| ->].
  - rewrite in_app_iff. cbn. intuition.
Qed.

Lemma set_add_NoDup s v : List.NoDup s -> List.NoDup (set_add s v).
Proof.
  intros Hs. unfold set_add. destruct (decide (v ∈ s)) as [H|H]; [exact Hs|].
  apply List.NoDup_app; repeat split.
  - exact Hs.
  - repeat constructor. intros [].
  - intros x Hx [<-|[]]. apply H, list_elem_of_In, Hx.
Qed.

Lemma set_of_set (o : JS.obj (list string)) k s c :
  set_of (JS.obj_set o k s) c = if (c =? k)%string then s else set_of o c.
Proof.
  unfold set_of. destruct (String.eqb_spec c k) as [->|Hne].
  - now rewrite obj_get_set_eq.
  - now rewrite obj_get_set_ne by congruence.
Qed.

Section Collect.
(** What a property of a row contributes: nothing, a column, or a
    column and a value for its set. *)
Variable contrib : string * string -> option (string * option string).

Let ensure (o : JS.obj (list string)) (k : string) : JS.obj (list string) :=
  match JS.obj_get o k with
  | Some _ => o
  | None => JS.obj_set o k []
  end.

Let step (o : JS.obj (list string)) (kv : string * string) : JS.obj (list string) :=
  match contrib kv with
  | None => o
  | Some (k, None) => ensure o k
  | Some (k, Some x) => JS.obj_set (ensure o k) k (set_add (set_of (ensure o k) k) x)
  end.

Lemma ensure_set_of o k c : set_of (ensure o k) c = set_of o c.
Proof.
  unfold ensure. destruct (JS.obj_get o k) eqn:E; [reflexivity|].
  rewrite set_of_set. destruct (String.eqb_spec c k) as [->|]; [|reflexivity].
  unfold set_of. now rewrite E.
Qed.

Lemma ensure_keys o k c :
  In c (map fst (ensure o k)) <-> In c (map fst o) \/ c = k.
Proof.
  unfold ensure. destruct (JS.obj_get o k) eqn:E.
  - split; [now left|]. intros [H| ->]; [exact H|].
    apply obj_get_Some_In. congruence.
  - rewrite obj_set_keys, E, in_app_iff. cbn. intuition.
Qed.

Lemma ensure_NoDup o k : List.NoDup (map fst o) -> List.NoDup (map fst (ensure o k)).
Proof.
  intros H. unfold ensure. destruct (JS.obj_get o k); [exact H|].
  now apply obj_set_NoDup.
Qed.

Lemma set_keys (o : JS.obj (list string)) k s c :
  In k (map fst o) -> In c (map fst (JS.obj_set o k s)) <-> In c (map fst o).
Proof.
  intros H. rewrite obj_set_keys. apply obj_get_Some_In in H.
  now destruct (JS.obj_get o k).
Qed.

Lemma step_set_of o kv c y :
  In y (set_of (step o kv) c) <-> In y (set_of o c) \/ contrib kv = Some (c, Some y).
Proof.
  unfold step. destruct (contrib kv) as [[k [x|]]|].
  - rewrite set_of_set. destruct (String.eqb_spec c k) as [->|Hne].
    + rewrite set_add_In, ensure_set_of. split; intros [H|H]; auto.
      * subst. now right.
      * injection H as ->. now right.
    + rewrite ensure_set_of. split; [now left|]. intros [H|H]; [exact H|congruence].
  - rewrite ensure_set_of. split; [now left|]. now intros [H|H].
  - split; [now left|]. now intros [H|H].
Qed.

Lemma step_keys o kv c :
  In c (map fst (step o kv))
  <-> In c (map fst o) \/ exists ov, contrib kv = Some (c, ov).
Proof.
  unfold step. destruct (contrib kv) as [[k [x|]]|].
  - rewrite set_keys by (apply ensure_keys; now right).
    rewrite ensure_keys. split; intros [H|H]; auto.
    + subst. right. now eexists.
    + destruct H as [ov [= -> _]]. now right.
  - rewrite ensure_keys. split; intros [H|H]; auto.
    + subst. right. now eexists.
    + destruct H as [ov [= -> _]]. now right.
  - split; [now left|]. intros [H|[ov H]]; [exact H|discriminate].
Qed.

Lemma step_NoDup o kv : List.NoDup (map fst o) -> List.NoDup (map fst (step o kv)).
Proof.
  intros H. unfold step. destruct (contrib kv) as [[k [x|]]|]; auto.
  - now apply obj_set_NoDup, ensure_NoDup.
  - now apply ensure_NoDup.
Qed.

Lemma step_sets_NoDup o kv :
  (forall c, List.NoDup (set_of o c)) -> forall c, List.NoDup (set_of (step o kv) c).
Proof.
  intros H c. unfold step. destruct (contrib kv) as [[k [x|]]|]; auto.
  - rewrite set_of_set. destruct (String.eqb_spec c k) as [->|Hne].
    + apply set_add_NoDup. now rewrite ensure_set_of.
    + now rewrite ensure_set_of.
  - now rewrite ensure_set_of.
Qed.

Lemma collect_fold kvs : forall o,
  let r := fold_left step kvs o in
  (List.NoDup (map fst o) -> List.NoDup (map fst r))
  /\ ((forall c, List.NoDup (set_of o c)) -> forall c, List.NoDup (set_of r c))
  /\ (forall c, In c (map fst r)
                <-> In c (map fst o)
                    \/ exists kv ov, In kv kvs /\ contrib kv = Some (c, ov))
  /\ (forall c y, In y (set_of r c)
                  <-> In y (set_of o c)
                      \/ exists kv, In kv kvs /\ contrib kv = Some (c, Some y)).
Proof.
  induction kvs as [|kv kvs IH]; intros o r.
  - subst r. cbn. repeat split; auto.
    + intros [H|(kv & ov & [] & _)]. exact H.
    + intros [H|(kv & [] & _)]. exact H.
  - subst r. cbn [fold_left]. destruct (IH (step o kv)) as (I1 & I2 & I3 & I4).
    repeat split.
    + intros H. now apply I1, step_NoDup.
    + intros H. now apply I2, step_sets_NoDup.
    + intros H. apply I3 in H. rewrite step_keys in H.
      destruct H as [[H|[ov H]]|(kv' & ov & Hin & H)]; auto.
      * right. exists kv, ov. split; [now left|exact H].
      * right. exists kv', ov. split; [now right|exact H].
    + intros H. apply I3. rewrite step_keys.
      destruct H as [H|(kv' & ov & [<-|Hin] & H)]; eauto.
    + intros H. apply I4 in H. rewrite step_set_of in H.
      destruct H as [[H|H]|(kv' & Hin & H)]; auto.
      * right. exists kv. split; [now left|exact H].
      * right. exists kv'. split; [now right|exact H].
    + intros H. apply I4. rewrite step_set_of.
      destruct H as [H|(kv' & [<-|Hin] & H)]; eauto.
Qed.

(** The loop with a body that throws at some properties and does
    [step] at the others. *)
Variable throws : string * string -> bool.
Variable add_entry :
  JS.obj (list string) -> string * string -> JS.outcome (JS.obj (list string)).

Let keys_ok (o : JS.obj (list string)) : Prop :=
  forall k, In k (map fst o) -> JS.inherited k = false.

Hypothesis add_entry_step : forall o kv,
  keys_ok o ->
  add_entry o kv = if throws kv then JS.Throws else JS.Returns (step o kv).
Hypothesis contrib_ok : forall kv c ov,
  contrib kv = Some (c, ov) -> JS.inherited c = false.

Lemma collect_keys_ok o kv : keys_ok o -> keys_ok (step o kv).
Proof.
  intros Ho k Hk. apply step_keys in Hk. destruct Hk as [Hk|[ov Hk]].
  - now apply Ho.
  - now apply contrib_ok in Hk.
Qed.

Lemma collect_foldM kvs : forall o,
  keys_ok o ->
  JS.foldM add_entry kvs o
  = if existsb throws kvs then JS.Throws else JS.Returns (fold_left step kvs o).
Proof.
  induction kvs as [|kv kvs IH]; intros o Ho; [reflexivity|].
  cbn [JS.foldM existsb fold_left]. rewrite add_entry_step by exact Ho.
  destruct (throws kv); [reflexivity|]. cbn [orb JS.bind].
  apply IH, collect_keys_ok, Ho.
Qed.

(** What the loop gives from the empty object. *)
Lemma collect_outcome kvs :
  match JS.foldM add_entry kvs [] with
  | JS.Returns r =>
      (forall kv, In kv kvs -> throws kv = false)
      /\ List.NoDup (map fst r)
      /\ (forall c, List.NoDup (set_of r c))
      /\ (forall c, In c (map fst r)
                    <-> exists kv ov, In kv kvs /\ contrib kv = Some (c, ov))
      /\ (forall c y, In y (set_of r c)
                      <-> exists kv, In kv kvs /\ contrib kv = Some (c, Some y))
  | JS.Throws => exists kv, In kv kvs /\ throws kv = true
  | JS.Undetermined => False
  end.
Proof.
  rewrite collect_foldM by (intros k []).
  destruct (existsb throws kvs) eqn:E.
  - now apply existsb_exists in E.
  - destruct (collect_fold kvs []) as (H1 & H2 & H3 & H4).
    split; [|split; [|split; [|split]]].
    + intros kv Hkv. apply not_true_is_false. intros Ht.
      assert (existsb throws kvs = true) by (apply existsb_exists; now exists kv).
      congruence.
    + apply H1. constructor.
    + apply H2. intros c. constructor.
    + intros c. rewrite H3. split; [intros [[]|H]; exact H|now right].
    + intros c y. rewrite H4. split; [intros [[]|H]; exact H|now right].
Qed.

End Collect.

Lemma foldM_app {A B} (f : A -> B -> JS.outcome A) l1 l2 : forall a,
  JS.foldM f (l1 ++ l2) a = JS.bind (JS.foldM f l1 a) (JS.foldM f l2).
Proof.
  induction l1 as [|x l1 IH]; intros a; [reflexivity|].
  cbn [app JS.foldM]. destruct (f a x); cbn [JS.bind]; [apply IH|reflexivity..].
Qed.

Lemma foldM_rows {A B C} (f : A -> B -> JS.outcome A) (g : C -> list B) (l : list C) :
  forall a,
  JS.foldM (fun a x => JS.foldM f (g x) a) l a = JS.foldM f (flat_map g l) a.
Proof.
  induction l as [|x l IH]; intros a; [reflexivity|].
  cbn [JS.foldM flat_map]. rewrite foldM_app.
  destruct (JS.foldM f (g x) a); cbn [JS.bind]; [apply IH|reflexivity..].
Qed.

Lemma in_rows (data : list Row) kv :
  In kv (flat_map JS.obj_entries data) <-> exists row, In row data /\ In kv row.
Proof.
  rewrite in_flat_map. split; intros (row & Hr & H); exists row; split; auto;
    now apply obj_entries_In.
Qed.

Lemma truthy_ne s : JS.truthy s = true <-> s <> "".
Proof.
  unfold JS.truthy. destruct (String.eqb_spec s ""); cbn; split; congruence.
Qed.

Lemma keys_ok_get {V} (o : JS.obj V) k :
  (forall k, In k (map fst o) -> JS.inherited k = false) ->
  JS.inherited k = true -> JS.obj_get o k = None.
Proof.
  intros Ho Hk. destruct (JS.obj_get o k) eqn:E; [|reflexivity].
  apply obj_get_In, (in_map fst), Ho in E. cbn [fst] in E. congruence.
Qed.

(** The sets collected by the Group Aggregator's [getFilterOptions]:
    the loop throws at a non-empty value under an inherited name, and
    collects otherwise the columns whose names are not inherited. *)
Lemma aggregator_options_spec (data : list Row) :
  match AggregatorOptions.options data with
  | JS.Returns o =>
      (forall row c v, In row data -> In (c, v) row -> JS.inherited c = true -> v = "")
      /\ List.NoDup (map fst o)
      /\ (forall c, List.NoDup (set_of o c))
      /\ (forall c, In c (map fst o)
                    <-> JS.inherited c = false
                        /\ exists row v, In row data /\ In (c, v) row)
      /\ (forall c y, In y (set_of o c)
                      <-> y <> "" /\ exists row, In row data /\ In (c, y) row)
  | JS.Throws =>
      exists row c v, In row data /\ In (c, v) row
                      /\ JS.inherited c = true /\ v <> ""
  | JS.Undetermined => False
  end.
Proof.
  unfold AggregatorOptions.options. rewrite foldM_rows.
  set (contrib := fun kv : string * string =>
         if JS.inherited (fst kv) then None
         else Some (fst kv, if JS.truthy (snd kv) then Some (snd kv) else None)).
  set (throws := fun kv : string * string =>
         JS.inherited (fst kv) && JS.truthy (snd kv)).
  assert (Hstep : forall o kv,
            (forall k, In k (map fst o) -> JS.inherited k = false) ->
            AggregatorOptions.add_entry o kv
            = if throws kv then JS.Throws
              else JS.Returns
                     match contrib kv with
                     | None => o
                     | Some (k, None) =>
                         match JS.obj_get o k with
                         | Some _ => o
                         | None => JS.obj_set o k []
                         end
                     | Some (k, Some x) =>
                         let o' := match JS.obj_get o k with
                                   | Some _ => o
                                   | None => JS.obj_set o k []
                                   end in
                         JS.obj_set o' k (set_add (set_of o' k) x)
                     end).
  { intros o [k v] Ho. unfold contrib, throws, AggregatorOptions.add_entry,
      JS.obj_read. cbn [fst snd].
    destruct (JS.inherited k) eqn:Hk; cbn [andb].
    - rewrite (keys_ok_get o k Ho Hk). now destruct (JS.truthy v).
    - destruct (JS.obj_get o k); now destruct (JS.truthy v). }
  assert (Hok : forall kv c ov, contrib kv = Some (c, ov) -> JS.inherited c = false).
  { intros [k v] c ov. unfold contrib. cbn [fst snd].
    destruct (JS.inherited k) eqn:Hk; [discriminate|]. now intros [= <- _]. }
  pose proof (collect_outcome contrib throws AggregatorOptions.add_entry Hstep Hok
                (flat_map JS.obj_entries data)) as H.
  destruct (JS.foldM AggregatorOptions.add_entry (flat_map JS.obj_entries data) [])
    as [o| |]; [|clear Hstep Hok|exact H].
  2:{ destruct H as ([c v] & Hin & Ht). unfold throws in Ht. cbn [fst snd] in Ht.
      apply andb_true_iff in Ht. destruct Ht as [Hc Hv].
      apply in_rows in Hin. destruct Hin as (row & Hr & Hin).
      exists row, c, v. repeat split; auto. now apply truthy_ne. }
  destruct H as (H0 & H1 & H2 & H3 & H4).
  assert (Hempty : forall row c v, In row data -> In (c, v) row ->
                     JS.inherited c = true -> v = "").
  { intros row c v Hr Hin Hc.
    specialize (H0 (c, v)). unfold throws in H0. cbn [fst snd] in H0.
    rewrite Hc in H0. cbn [andb] in H0.
    destruct (String.eqb_spec v "") as [->|Hne]; [reflexivity|].
    apply truthy_ne in Hne. rewrite H0 in Hne; [discriminate|].
    apply in_rows. now exists row. }
  split; [exact Hempty|]. split; [exact H1|]. split; [exact H2|]. split.
  + intros c. rewrite H3. split.
    * intros ([k v] & ov & Hin & Hc). unfold contrib in Hc. cbn [fst snd] in Hc.
      destruct (JS.inherited k) eqn:Hk; [discriminate|].
      injection Hc as <- _. split; [exact Hk|].
      apply in_rows in Hin. destruct Hin as (row & Hr & Hin). now exists row, v.
    * intros (Hc & row & v & Hr & Hin). exists (c, v). eexists.
      split; [apply in_rows; now exists row|].
      unfold contrib. cbn [fst snd]. now rewrite Hc.
  + intros c y. rewrite H4. split.
    * intros ([k v] & Hin & Hc). unfold contrib in Hc. cbn [fst snd] in Hc.
      destruct (JS.inherited k); [discriminate|].
      destruct (JS.truthy v) eqn:E; [|discriminate].
      injection Hc as -> ->. split; [now apply truthy_ne|].
      now apply in_rows in Hin.
    * intros (Hy & row & Hr & Hin). exists (c, y).
      split; [apply in_rows; now exists row|].
      unfold contrib. cbn [fst snd].
      destruct (JS.inherited c) eqn:Hc.
      -- now rewrite (Hempty row c y Hr Hin Hc) in Hy.
      -- apply truthy_ne in Hy. now rewrite Hy.
Qed.

(** The sets collected by the Comparator's [getFilterOptions]: the loop
    throws at a value that it would collect under an inherited name. *)
Lemma comparator_options_spec (data : list Row) (cc rc : string) :
  match ComparatorOptions.options data cc rc with
  | JS.Returns o =>
      (forall row c raw, In row data -> In (c, raw) row -> JS.inherited c = true ->
         c = cc \/ c = rc \/ JS.trim raw = "")
      /\ List.NoDup (map fst o)
      /\ (forall c, List.NoDup (set_of o c))
      /\ (forall c, In c (map fst o) -> c <> cc /\ c <> rc)
      /\ (forall c y, In y (set_of o c)
                      <-> c <> cc /\ c <> rc /\ y <> ""
                          /\ exists row raw, In row data /\ In (c, raw) row
                                             /\ JS.trim raw = y)
  | JS.Throws =>
      exists row c raw, In row data /\ In (c, raw) row /\ JS.inherited c = true
                        /\ c <> cc /\ c <> rc /\ JS.trim raw <> ""
  | JS.Undetermined => False
  end.
Proof.
  unfold ComparatorOptions.options. rewrite foldM_rows.
  set (guard := fun kv : string * string =>
         negb ((fst kv =? cc)%string || (fst kv =? rc)%string)
         && JS.truthy (snd kv) && negb (JS.trim (snd kv) =? "")%string).
  set (contrib := fun kv : string * string =>
         if guard kv && negb (JS.inherited (fst kv))
         then Some (fst kv, Some (JS.trim (snd kv))) else None).
  set (throws := fun kv : string * string => guard kv && JS.inherited (fst kv)).
  assert (Hguard : forall k v, guard (k, v) = true
                     <-> k <> cc /\ k <> rc /\ JS.trim v <> "").
  { intros k v. unfold guard. cbn [fst snd].
    destruct (String.eqb_spec k cc), (String.eqb_spec k rc),
      (String.eqb_spec (JS.trim v) ""); cbn; rewrite ?andb_false_r;
      try (split; [discriminate|tauto]).
    destruct v as [|a v];
      [match goal with H : JS.trim "" <> "" |- _ => now elim H end|].
    cbn. tauto. }
  assert (Hstep : forall o kv,
            (forall k, In k (map fst o) -> JS.inherited k = false) ->
            ComparatorOptions.add_entry cc rc o kv
            = if throws kv then JS.Throws
              else JS.Returns
                     match contrib kv with
                     | None => o
                     | Some (k, None) =>
                         match JS.obj_get o k with
                         | Some _ => o
                         | None => JS.obj_set o k []
                         end
                     | Some (k, Some x) =>
                         let o' := match JS.obj_get o k with
                                   | Some _ => o
                                   | None => JS.obj_set o k []
                                   end in
                         JS.obj_set o' k (set_add (set_of o' k) x)
                     end).
  { intros o [k v] Ho. unfold contrib, throws, ComparatorOptions.add_entry,
      JS.obj_read, guard. cbn [fst snd].
    destruct (negb ((k =? cc)%string || (k =? rc)%string) && JS.truthy v
              && negb (JS.trim v =? "")%string); [|reflexivity].
    cbn [andb].
    destruct (JS.inherited k) eqn:Hk; cbn [negb].
    - now rewrite (keys_ok_get o k Ho Hk).
    - now destruct (JS.obj_get o k). }
  assert (Hc : forall k v c ov, contrib (k, v) = Some (c, ov) ->
            c = k /\ JS.inherited c = false /\ c <> cc /\ c <> rc
            /\ JS.trim v <> "" /\ ov = Some (JS.trim v)).
  { intros k v c ov. unfold contrib. cbn [fst snd].
    destruct (guard (k, v)) eqn:Eg; [|discriminate]. cbn [andb].
    destruct (JS.inherited k) eqn:Hk; [discriminate|]. cbn [negb].
    intros [= <- <-]. apply Hguard in Eg. tauto. }
  assert (Hok : forall kv c ov, contrib kv = Some (c, ov) -> JS.inherited c = false).
  { intros [k v] c ov H. apply Hc in H. tauto. }
  pose proof (collect_outcome contrib throws (ComparatorOptions.add_entry cc rc)
                Hstep Hok (flat_map JS.obj_entries data)) as H.
  destruct (JS.foldM (ComparatorOptions.add_entry cc rc)
              (flat_map JS.obj_entries data) []) as [o| |]; [|clear Hstep Hok|exact H].
  2:{ destruct H as ([c v] & Hin & Ht). unfold throws in Ht. cbn [fst snd] in Ht.
      apply andb_true_iff in Ht. destruct Ht as [Hg Hi]. apply Hguard in Hg.
      apply in_rows in Hin. destruct Hin as (row & Hr & Hin).
      exists row, c, v. tauto. }
  destruct H as (H0 & H1 & H2 & H3 & H4).
  assert (Hquiet : forall row c raw, In row data -> In (c, raw) row ->
                     JS.inherited c = true -> c = cc \/ c = rc \/ JS.trim raw = "").
  { intros row c raw Hr Hin Hi.
    specialize (H0 (c, raw)). unfold throws in H0. cbn [fst snd] in H0.
    rewrite Hi, andb_true_r in H0.
    destruct (String.eqb_spec c cc) as [|Hcc]; [now left|].
    destruct (String.eqb_spec c rc) as [|Hrc]; [right; now left|].
    destruct (String.eqb_spec (JS.trim raw) "") as [|Hne]; [right; now right|].
    assert (guard (c, raw) = true) as Hg by (apply Hguard; tauto).
    rewrite H0 in Hg; [discriminate|]. apply in_rows. now exists row. }
  split; [exact Hquiet|]. split; [exact H1|]. split; [exact H2|]. split.
  - intros c Hin. apply H3 in Hin. destruct Hin as ([k v] & ov & Hin & H).
    apply Hc in H. tauto.
  - intros c y. rewrite H4. split.
    + intros ([k v] & Hin & H). apply Hc in H.
      destruct H as (-> & _ & Hcc & Hrc & Hne & [= ->]).
      split; [exact Hcc|]. split; [exact Hrc|]. split; [exact Hne|].
      apply in_rows in Hin. destruct Hin as (row & Hr & Hin). now exists row, v.
    + intros (Hcc & Hrc & Hy & row & raw & Hr & Hin & <-).
      exists (c, raw). split; [apply in_rows; now exists row|].
      unfold contrib. cbn [fst snd].
      assert (guard (c, raw) = true) as Hg by (apply Hguard; tauto).
      rewrite Hg. cbn [andb].
      destruct (JS.inherited c) eqn:Hi; [|reflexivity].
      destruct (Hquiet row c raw Hr Hin Hi) as [?|[?|?]]; contradiction.
Qed.

Lemma sort_strings_In l x : In x (JS.sort_strings l) <-> In x l.
Proof. apply sort_In. Qed.

Lemma set_of_In (o : JS.obj (list string)) c vs :
  List.NoDup (map fst o) -> In (c, vs) o -> set_of o c = vs.
Proof. intros Hnd Hin. unfold set_of. now rewrite (obj_In_get _ _ _ Hnd Hin). Qed.

Lemma two_distinct {A} (l : list A) x y :
  In x l -> In y l -> x <> y -> (2 <= length l)%nat.
Proof.
  destruct l as [|a [|b l]]; cbn; try lia; intuition congruence.
Qed.

Lemma NoDup_two (l : list string) :
  List.NoDup l -> (2 <= length l)%nat -> exists x y, In x l /\ In y l /\ x <> y.
Proof.
  destruct l as [|a [|b l]]; cbn; try lia. intros H _. exists a, b.
  repeat split; auto. inversion H as [|? ? Ha]. intros ->. apply Ha. now left.
Qed.

(** The options of the Group Aggregator: the values offered for a
    column are exactly the non-empty values found under it in the data,
    as they are written there, in strictly ascending order (so without
    repetition). *)
Theorem aggregator_options_values (data : list Row) opts opt :
  AggregatorOptions.getFilterOptions data = JS.Returns opts ->
  In opt opts ->
  (forall v, In v (values opt)
             <-> v <> "" /\ exists row, In row data /\ In (column opt, v) row)
  /\ StronglySorted (fun a b => String.ltb a b = true) (values opt).
Proof.
  unfold AggregatorOptions.getFilterOptions.
  pose proof (aggregator_options_spec data) as Hspec.
  destruct (AggregatorOptions.options data) as [o| |]; [|discriminate..].
  cbn [JS.bind]. intros [= <-] Hin.
  apply in_map_iff in Hin. destruct Hin as ([c vs] & <- & Hin).
  apply (proj1 (obj_entries_In _ _)) in Hin.
  destruct Hspec as (_ & H1 & H2 & _ & H4).
  pose proof (set_of_In _ _ _ H1 Hin) as Hs. cbn [column values]. split.
  - intros v. rewrite sort_strings_In, <- Hs. apply H4.
  - apply sort_strings_sorted. rewrite <- Hs. apply H2.
Qed.

Lemma aggregator_options_values_witness :
  In "F" (values {| column := "Sex"; values := ["F"; "M"] |})
  <-> "F" <> "" /\ exists row, In row [[("Sex", "M"); ("Age", "")]; [("Sex", "F")]]
                               /\ In ("Sex", "F") row.
Proof.
  apply (aggregator_options_values [[("Sex", "M"); ("Age", "")]; [("Sex", "F")]]
           [ {| column := "Sex"; values := ["F"; "M"] |};
             {| column := "Age"; values := [] |} ]
           {| column := "Sex"; values := ["F"; "M"] |}).
  - vm_compute. reflexivity.
  - now left.
Defined.

(** The options of the Group Aggregator: the call throws when a row
    holds a non-empty value under a name that every object inherits;
    otherwise it lists once every column of the data whose name is not
    inherited, also a column whose values are all empty. *)
Theorem aggregator_options_columns (data : list Row) :
  match AggregatorOptions.getFilterOptions data with
  | JS.Returns options =>
      List.NoDup (map column options)
      /\ (forall c, In c (map column options)
                    <-> JS.inherited c = false
                        /\ exists row v, In row data /\ In (c, v) row)
      /\ (forall row c v, In row data -> In (c, v) row ->
            JS.inherited c = true -> v = "")
  | JS.Throws =>
      exists row c v, In row data /\ In (c, v) row
                      /\ JS.inherited c = true /\ v <> ""
  | JS.Undetermined => False
  end.
Proof.
  unfold AggregatorOptions.getFilterOptions.
  pose proof (aggregator_options_spec data) as Hspec.
  destruct (AggregatorOptions.options data) as [o| |]; cbn [JS.bind];
    [|exact Hspec..].
  destruct Hspec as (H0 & H1 & _ & H3 & _).
  rewrite map_map.
  rewrite (map_ext _ fst) by (now intros [c vs]).
  split; [|split; [|exact H0]].
  - eapply Permutation_NoDup; [|exact H1].
    apply Permutation_map, Permutation_sym, obj_entries_perm.
  - intros c. rewrite <- H3. split; intros H; apply in_map_iff in H;
      destruct H as (kv & <- & H); apply in_map; now apply obj_entries_In.
Qed.

Lemma aggregator_options_columns_witness :
  AggregatorOptions.getFilterOptions [[("Sex", "M"); ("toString", "")]]
  = JS.Returns [ {| column := "Sex"; values := ["M"] |} ]
  /\ (In "toString" (map column [ {| column := "Sex"; values := ["M"] |} ])
      <-> JS.inherited "toString" = false
          /\ exists row v, In row [[("Sex", "M"); ("toString", "")]]
                           /\ In ("toString", v) row)
  /\ AggregatorOptions.getFilterOptions [[("toString", "x")]] = JS.Throws.
Proof.
  pose proof (aggregator_options_columns [[("Sex", "M"); ("toString", "")]]) as H.
  change (AggregatorOptions.getFilterOptions [[("Sex", "M"); ("toString", "")]])
    with (JS.Returns (A := list FilterOption) [ {| column := "Sex"; values := ["M"] |} ])
    in H.
  split; [reflexivity|]. split; [exact (proj1 (proj2 H) "toString")|reflexivity].
Defined.

(** The options of the Comparator: the values offered for a column are
    exactly the non-empty trimmed values found under it in the data, in
    strictly ascending order; there are at least two of them, and the
    column is neither the condition nor the response column. *)
Theorem comparator_options_values (data : list Row) (cc rc : string) opts opt :
  ComparatorOptions.getFilterOptions data cc rc = JS.Returns opts ->
  In opt opts ->
  column opt <> cc /\ column opt <> rc
  /\ (2 <= length (values opt))%nat
  /\ (forall v, In v (values opt)
                <-> v <> ""
                    /\ exists row raw, In row data /\ In (column opt, raw) row
                                       /\ JS.trim raw = v)
  /\ StronglySorted (fun a b => String.ltb a b = true) (values opt).
Proof.
  unfold ComparatorOptions.getFilterOptions.
  pose proof (comparator_options_spec data cc rc) as Hspec.
  destruct (ComparatorOptions.options data cc rc) as [o| |]; [|discriminate..].
  cbn [JS.bind]. intros [= <-] Hin.
  apply in_map_iff in Hin. destruct Hin as ([c vs] & <- & Hin).
  apply filter_In in Hin. destruct Hin as [Hin Hlen].
  apply (proj1 (obj_entries_In _ _)) in Hin.
  destruct Hspec as (_ & H1 & H2 & H3 & H4).
  pose proof (set_of_In _ _ _ H1 Hin) as Hs. cbn [column values].
  assert (Hk : c <> cc /\ c <> rc).
  { apply H3, in_map_iff. now exists (c, vs). }
  split; [apply Hk|]. split; [apply Hk|]. split; [|split].
  - unfold JS.sort_strings. rewrite sort_length. apply Nat.ltb_lt in Hlen. lia.
  - intros v. rewrite sort_strings_In, <- Hs, H4. tauto.
  - apply sort_strings_sorted. rewrite <- Hs. apply H2.
Qed.

Lemma comparator_options_values_witness :
  let data := [[("Sex", " F"); ("c", "x")]; [("Sex", "M "); ("c", "y")]] in
  ComparatorOptions.getFilterOptions data "c" "r"
  = JS.Returns [{| column := "Sex"; values := ["F"; "M"] |}]
  /\ (2 <= length ["F"; "M"])%nat.
Proof.
  split; [reflexivity|].
  apply (comparator_options_values
           [[("Sex", " F"); ("c", "x")]; [("Sex", "M "); ("c", "y")]] "c" "r"
           [{| column := "Sex"; values := ["F"; "M"] |}]
           {| column := "Sex"; values := ["F"; "M"] |}).
  - vm_compute. reflexivity.
  - now left.
Defined.

(** The options of the Comparator: the call throws when a row holds,
    under a name that every object inherits and that is neither the
    condition nor the response column, a value that is not empty once
    trimmed; otherwise it offers a column exactly when it is neither
    the condition nor the response column and the data hold two
    different non-empty trimmed values under it, each column once. *)
Theorem comparator_options_columns (data : list Row) (cc rc : string) :
  let present c v :=
    v <> "" /\ exists row raw, In row data /\ In (c, raw) row /\ JS.trim raw = v in
  match ComparatorOptions.getFilterOptions data cc rc with
  | JS.Returns options =>
      List.NoDup (map column options)
      /\ (forall c, In c (map column options)
                    <-> c <> cc /\ c <> rc
                        /\ exists x y, x <> y /\ present c x /\ present c y)
      /\ (forall row c raw, In row data -> In (c, raw) row ->
            JS.inherited c = true -> c = cc \/ c = rc \/ JS.trim raw = "")
  | JS.Throws =>
      exists row c raw, In row data /\ In (c, raw) row /\ JS.inherited c = true
                        /\ c <> cc /\ c <> rc /\ JS.trim raw <> ""
  | JS.Undetermined => False
  end.
Proof.
  intros present.
  unfold ComparatorOptions.getFilterOptions.
  pose proof (comparator_options_spec data cc rc) as Hspec.
  destruct (ComparatorOptions.options data cc rc) as [o| |]; cbn [JS.bind];
    [|exact Hspec..].
  destruct Hspec as (H0 & H1 & H2 & H3 & H4).
  rewrite map_map. rewrite (map_ext _ fst) by (now intros [c vs]).
  split; [|split; [|exact H0]].
  - assert (Hp : List.NoDup (map fst (JS.obj_entries o))).
    { eapply Permutation_NoDup; [|exact H1].
      apply Permutation_map, Permutation_sym, obj_entries_perm. }
    revert Hp. generalize (JS.obj_entries o). intros l.
    induction l as [|[c vs] l IH]; cbn [map List.filter]; intros Hp; [constructor|].
    inversion Hp as [|? ? Hc Hl]. subst.
    destruct (1 <? length vs)%nat; cbn [map fst]; auto.
    constructor; auto. intros Hin. apply Hc.
    apply in_map_iff in Hin. destruct Hin as (kv & <- & Hin).
    apply filter_In in Hin. now apply in_map.
  - intros c. split.
    + intros H. apply in_map_iff in H. destruct H as ([c' vs] & Hc & H).
      cbn in Hc. subst c'. apply filter_In in H. destruct H as [H Hlen].
      apply (proj1 (obj_entries_In _ _)) in H.
      pose proof (set_of_In _ _ _ H1 H) as Hs.
      assert (Hk : c <> cc /\ c <> rc) by (apply H3, in_map_iff; now exists (c, vs)).
      split; [apply Hk|]. split; [apply Hk|].
      apply Nat.ltb_lt in Hlen.
      destruct (NoDup_two vs) as (x & y & Hx & Hy & Hxy); [rewrite <- Hs; apply H2|lia|].
      exists x, y. rewrite <- Hs in Hx, Hy. apply H4 in Hx, Hy.
      unfold present. tauto.
    + intros (Hcc & Hrc & x & y & Hxy & [Hx Hx'] & [Hy Hy']).
      assert (In x (set_of o c) /\ In y (set_of o c)) as [Ix Iy]
        by (split; apply H4; auto).
      unfold set_of in Ix, Iy. destruct (JS.obj_get o c) as [vs|] eqn:E; [|destruct Ix].
      apply in_map_iff. exists (c, vs). split; [reflexivity|].
      apply filter_In. split; [apply obj_entries_In, obj_get_In, E|].
      apply Nat.ltb_lt. pose proof (two_distinct vs x y Ix Iy Hxy). lia.
Qed.

Lemma comparator_options_columns_witness :
  let data := [[("Sex", " F"); ("c", "x")]; [("Sex", "M "); ("c", "y")]] in
  ComparatorOptions.getFilterOptions data "c" "r"
  = JS.Returns [ {| column := "Sex"; values := ["F"; "M"] |} ]
  /\ List.NoDup (map column [ {| column := "Sex"; values := ["F"; "M"] |} ])
  /\ ComparatorOptions.getFilterOptions [[("valueOf", "x")]] "c" "r" = JS.Throws.
Proof.
  intros data.
  pose proof (comparator_options_columns data "c" "r") as H. cbv zeta in H.
  change (ComparatorOptions.getFilterOptions data "c" "r")
    with (JS.Returns (A := list FilterOption)
            [ {| column := "Sex"; values := ["F"; "M"] |} ]) in H.
  split; [reflexivity|]. split; [exact (proj1 H)|reflexivity].
Defined.

Lemma item_of_lookup (row : Row) k v :
  List.NoDup (map fst row) -> In (k, v) row -> item_of row !! k = Some v.
Proof.
  intros Hnd Hin. unfold item_of. apply elem_of_list_to_map_1.
  - now apply NoDup_ListNoDup.
  - now apply list_elem_of_In.
Qed.

Lemma aggregator_offered (data : list Row) opts opt v :
  AggregatorOptions.getFilterOptions data = JS.Returns opts ->
  In opt opts -> In v (values opt) ->
  v <> "" /\ exists row, In row data /\ In (column opt, v) row.
Proof.
  unfold AggregatorOptions.getFilterOptions.
  pose proof (aggregator_options_spec data) as Hspec.
  destruct (AggregatorOptions.options data) as [o| |]; [|discriminate..].
  cbn [JS.bind]. intros [= <-] Hin Hv.
  apply in_map_iff in Hin. destruct Hin as ([c vs] & <- & Hin).
  apply (proj1 (obj_entries_In _ _)) in Hin.
  destruct Hspec as (_ & H1 & _ & _ & H4).
  cbn [column values] in *. apply (proj1 (sort_strings_In _ _)) in Hv.
  apply H4. now rewrite (set_of_In _ _ _ H1 Hin).
Qed.

Lemma comparator_offered (data : list Row) cc rc opts opt v :
  ComparatorOptions.getFilterOptions data cc rc = JS.Returns opts ->
  In opt opts -> In v (values opt) ->
  v <> "" /\ exists row raw, In row data /\ In (column opt, raw) row /\ JS.trim raw = v.
Proof.
  unfold ComparatorOptions.getFilterOptions.
  pose proof (comparator_options_spec data cc rc) as Hspec.
  destruct (ComparatorOptions.options data cc rc) as [o| |]; [|discriminate..].
  cbn [JS.bind]. intros [= <-] Hin Hv.
  apply in_map_iff in Hin. destruct Hin as ([c vs] & <- & Hin).
  apply filter_In in Hin. destruct Hin as [Hin _].
  apply (proj1 (obj_entries_In _ _)) in Hin.
  destruct Hspec as (_ & H1 & _ & _ & H4).
  cbn [column values] in *. apply (proj1 (sort_strings_In _ _)) in Hv.
  rewrite <- (set_of_In _ _ _ H1 Hin) in Hv. apply H4 in Hv. tauto.
Qed.

(** A value offered for a column, selected alone, keeps at least one
    row of the data: a row passes the filter made of it, in the
    Comparator and in the Group Aggregator. *)
Theorem offered_value_keeps_rows (data : list Row) (cc rc : string) :
  (forall row, In row data -> List.NoDup (map fst row)) ->
  (forall opts opt v,
     ComparatorOptions.getFilterOptions data cc rc = JS.Returns opts ->
     In opt opts -> In v (values opt) ->
     exists item, In item (map item_of data)
                  /\ Comparator.passes [(column opt, [v])] item = true)
  /\ (forall opts opt v,
        AggregatorOptions.getFilterOptions data = JS.Returns opts ->
        In opt opts -> In v (values opt) ->
        exists item, In item (map item_of data)
                     /\ GroupAggregator.passes [(column opt, [v])] item = true).
Proof.
  intros Hrows. split; intros opts opt v Hopts Hopt Hv.
  - destruct (comparator_offered _ _ _ _ _ _ Hopts Hopt Hv)
      as (Hne & row & raw & Hr & Hin & Ht).
    exists (item_of row). split; [now apply in_map|].
    apply forallb_entries. intros kv [<-|[]].
    rewrite (item_of_lookup _ _ _ (Hrows row Hr) Hin). cbn zeta. rewrite Ht.
    apply truthy_ne in Hne. rewrite Hne. apply includes_In. now left.
  - destruct (aggregator_offered _ _ _ _ Hopts Hopt Hv) as (Hne & row & Hr & Hin).
    exists (item_of row). split; [now apply in_map|].
    apply forallb_entries. intros kv [<-|[]].
    rewrite (item_of_lookup _ _ _ (Hrows row Hr) Hin).
    apply includes_In. now left.
Qed.

Lemma offered_value_keeps_rows_witness :
  let data := [[("Sex", " F"); ("c", "x")]; [("Sex", "M "); ("c", "y")]] in
  exists item, In item (map item_of data)
               /\ Comparator.passes [("Sex", ["M"])] item = true.
Proof.
  refine (proj1 (offered_value_keeps_rows
                   [[("Sex", " F"); ("c", "x")]; [("Sex", "M "); ("c", "y")]] "c" "r" _)
            [{| column := "Sex"; values := ["F"; "M"] |}]
            {| column := "Sex"; values := ["F"; "M"] |} "M" _ _ _).
  - intros row [<-|[<-|[]]]; repeat constructor; cbn; intuition discriminate.
  - vm_compute. reflexivity.
  - now left.
  - cbn. tauto.
Defined.

(** ** The parsed rows *)

Lemma trim_start_length s : (String.length (JS.trim_start s) <= String.length s)%nat.
Proof.
  induction s as [|c s IH]; cbn; [lia|]. destruct (JS.is_ws c); cbn; lia.
Qed.

Lemma trim_start_idem s : JS.trim_start (JS.trim_start s) = JS.trim_start s.
Proof.
  induction s as [|c s IH]; [reflexivity|]. cbn [JS.trim_start].
  destruct (JS.is_ws c) eqn:E; [exact IH|]. cbn [JS.trim_start]. now rewrite E.
Qed.

Lemma trim_end_idem s : JS.trim_end (JS.trim_end s) = JS.trim_end s.
Proof.
  induction s as [|c s IH]; [reflexivity|]. cbn [JS.trim_end].
  destruct (JS.trim_end s) as [|d u] eqn:E.
  - destruct (JS.is_ws c) eqn:Ec; [reflexivity|]. cbn [JS.trim_end]. now rewrite Ec.
  - change (JS.trim_end (String c (String d u)))
      with (match JS.trim_end (String d u) with
            | EmptyString => if JS.is_ws c then EmptyString else String c EmptyString
            | t => String c t
            end).
    now rewrite IH.
Qed.

Lemma trim_start_trim_end t :
  JS.trim_start t = t -> JS.trim_start (JS.trim_end t) = JS.trim_end t.
Proof.
  destruct t as [|c t]; [reflexivity|]. cbn [JS.trim_start].
  destruct (JS.is_ws c) eqn:E.
  - intros H. pose proof (trim_start_length t) as Hl. rewrite H in Hl. cbn in Hl. lia.
  - intros _. cbn [JS.trim_end]. destruct (JS.trim_end t); rewrite ?E;
      cbn [JS.trim_start]; now rewrite E.
Qed.

Lemma trim_idem s : JS.trim (JS.trim s) = JS.trim s.
Proof.
  unfold JS.trim. rewrite (trim_start_trim_end _ (trim_start_idem s)).
  apply trim_end_idem.
Qed.

Lemma cell_trimmed vals i : JS.trim (Parser.cell vals i) = Parser.cell vals i.
Proof.
  unfold Parser.cell. destruct (nth_error vals i) as [v|]; [|reflexivity].
  cbn zeta. destruct (JS.truthy (JS.trim v)); [apply trim_idem|reflexivity].
Qed.

Lemma reduce_values vals headers h v : forall index (obj : DataItem),
  Parser.reduce vals index headers obj !! h = Some v ->
  obj !! h = Some v \/ exists j, v = Parser.cell vals j.
Proof.
  induction headers as [|h' headers IH]; intros index obj H; [now left|].
  cbn [Parser.reduce] in H. apply IH in H. destruct H as [H|H]; [|now right].
  destruct (row_assign_cases obj h' (Parser.cell vals index)) as [E|E];
    rewrite E in H; [|now left].
  destruct (decide (h' = h)) as [->|Hne].
  - rewrite lookup_insert_eq in H. injection H as <-. right. now eexists.
  - rewrite lookup_insert_ne in H by exact Hne. now left.
Qed.

Lemma parsed_row_trimmed content (row : DataItem) h v :
  In row (Parser.data (Parser.parseFile content)) ->
  row !! h = Some v -> JS.trim v = v.
Proof.
  intros Hin Hv. cbn in Hin. apply filter_In in Hin. destruct Hin as [Hin _].
  apply in_map_iff in Hin. destruct Hin as (line & <- & _).
  unfold Parser.row_of in Hv. apply reduce_values in Hv.
  destruct Hv as [Hv|[j ->]]; [now rewrite lookup_empty in Hv|apply cell_trimmed].
Qed.

(** Every value of a parsed row is trimmed already, and every parsed
    row holds at least one value that is not empty: lines that are blank
    or hold separators and white space only give no row. *)
Theorem parser_rows_trimmed content (row : DataItem) :
  In row (Parser.data (Parser.parseFile content)) ->
  (forall h v, row !! h = Some v -> JS.trim v = v)
  /\ exists h v, row !! h = Some v /\ v <> "".
Proof.
  intros Hin. split.
  - intros h v. now apply (parsed_row_trimmed content).
  - cbn in Hin. apply filter_In in Hin. destruct Hin as [_ Hs].
    unfold Parser.some_value in Hs. apply existsb_exists in Hs.
    destruct Hs as (v & Hv & Ht). apply in_map_iff in Hv.
    destruct Hv as ([h v'] & Hv & Hin). cbn in Hv. subst v'.
    exists h, v. split; [|now apply truthy_ne].
    apply elem_of_map_to_list. now apply list_elem_of_In.
Qed.

Lemma parser_rows_trimmed_witness :
  let content := ("a,b" ++ Parser.LF ++ " x , " ++ Parser.LF ++ " , ")%string in
  Parser.data (Parser.parseFile content) = [ {[ "a" := "x"; "b" := "" ]} ]
  /\ forall h v, ({[ "a" := "x"; "b" := "" ]} : DataItem) !! h = Some v -> JS.trim v = v.
Proof.
  split; [reflexivity|].
  apply (parser_rows_trimmed
           ("a,b" ++ Parser.LF ++ " x , " ++ Parser.LF ++ " , ")%string
           {[ "a" := "x"; "b" := "" ]}).
  vm_compute. now left.
Defined.

Lemma forallb_pointwise {A} (p q : A -> bool) (l : list A) :
  (forall x, In x l -> p x = q x) -> forallb p l = forallb q l.
Proof.
  induction l as [|x l IH]; intros H; [reflexivity|].
  cbn [forallb]. rewrite (H x) by now left.
  f_equal. apply IH. intros y Hy. apply H. now right.
Qed.

(** On the rows the parser returns, the trimming filter of the
    Comparator and the plain filter of the Group Aggregator select the
    same rows, as long as no allow-list holds the empty string. *)
Theorem filters_agree_on_parsed_rows content (row : DataItem) (filters : Filters) :
  In row (Parser.data (Parser.parseFile content)) ->
  (forall column allowed, In (column, allowed) filters -> ~ In "" allowed) ->
  Comparator.passes filters row = GroupAggregator.passes filters row.
Proof.
  intros Hrow Hne. apply forallb_pointwise. intros [c vs] Hin.
  apply (proj1 (obj_entries_In _ _)) in Hin.
  destruct vs as [|a vs]; [reflexivity|].
  destruct (row !! c) as [v|] eqn:E; [|reflexivity].
  cbn zeta. rewrite (parsed_row_trimmed _ _ _ _ Hrow E).
  destruct (JS.truthy v) eqn:Ht; [reflexivity|].
  cbn [andb]. symmetry. apply not_true_iff_false. intros Hi.
  apply includes_In in Hi. apply (Hne _ _ Hin).
  unfold JS.truthy in Ht. destruct (String.eqb_spec v ""); [now subst|discriminate].
Qed.

Lemma filters_agree_on_parsed_rows_witness :
  let content := ("Sex,Age" ++ Parser.LF ++ " F ,30")%string in
  let row : DataItem := {[ "Sex" := "F"; "Age" := "30" ]} in
  Comparator.passes [("Sex", ["F"])] row = GroupAggregator.passes [("Sex", ["F"])] row.
Proof.
  apply (filters_agree_on_parsed_rows ("Sex,Age" ++ Parser.LF ++ " F ,30")%string
           {[ "Sex" := "F"; "Age" := "30" ]} [("Sex", ["F"])]).
  - vm_compute. now left.
  - intros column allowed [E|[]]; injection E as <- <-; intros [E'|[]]; discriminate.
Defined.

(** The header list is never empty, an empty file giving the one header
    [""] and no row; there are fewer rows than lines. *)
Theorem parser_edges content :
  Parser.headers (Parser.parseFile content) <> []
  /\ (length (Parser.data (Parser.parseFile content))
      < length (JS.split Parser.LF content))%nat
  /\ Parser.parseFile "" = {| Parser.headers := [""]; Parser.data := [] |}.
Proof.
  split; [|split]; [| |reflexivity].
  - cbn. intros H. apply map_eq_nil in H. revert H.
    now apply split_join.

  - cbn. destruct (split_join Parser.LF content) as [Hne _]; [discriminate|].
    destruct (JS.split Parser.LF content) as [|l ls]; [contradiction|].
    cbn [tl hd length]. pose proof (List.filter_length_le Parser.some_value
      (map (Parser.row_of (map JS.trim (JS.split "," l))) ls)) as H.
    rewrite length_map in H. lia.
Qed.

(** ** The medical chart *)

Lemma count_cons p x l : count p (x :: l) = (if p x then 1 else 0) + count p l.
Proof. unfold count. cbn [List.filter]. destruct (p x); cbn [length]; lia. Qed.

Lemma bool_decide_Some (o : option string) t :
  bool_decide (o = Some t) = match o with Some s => (s =? t)%string | None => false end.
Proof.
  destruct o as [s|]; [|reflexivity].
  destruct (String.eqb_spec s t) as [->|Hne].
  - now apply bool_decide_eq_true.
  - apply bool_decide_eq_false. congruence.
Qed.

(** [countSex] always returns the three entries Male, Female and
    Unknown, in this order: Male counts the rows whose Sex is exactly
    "M" or "Male", Female those with "F" or "Female", Unknown all other
    rows (another spelling, or no Sex at all); the three add up to the
    number of rows. *)
Theorem countSex_counts (data : list DataItem) :
  let sex_in (l : list string) (item : DataItem) :=
    match item !! "Sex" with Some s => includes l s | None => false end in
  let male := count (sex_in ["M"; "Male"]) data in
  let female := count (sex_in ["F"; "Female"]) data in
  let unknown := count (fun item => negb (sex_in ["M"; "Male"; "F"; "Female"] item)) data in
  MedicalData.countSex data = [("Male", male); ("Female", female); ("Unknown", unknown)]
  /\ male + female + unknown = Z.of_nat (length data).
Proof.
  intros sex_in male female unknown. subst male female unknown.
  unfold MedicalData.countSex.
  assert (H : forall acc,
            let r := fold_left MedicalData.count_sex data acc in
            MedicalData.Male r
            = MedicalData.Male acc + count (sex_in ["M"; "Male"]) data
            /\ MedicalData.Female r
               = MedicalData.Female acc + count (sex_in ["F"; "Female"]) data
            /\ MedicalData.Unknown r
               = MedicalData.Unknown acc
                 + count (fun item => negb (sex_in ["M"; "Male"; "F"; "Female"] item)) data
            /\ count (sex_in ["M"; "Male"]) data + count (sex_in ["F"; "Female"]) data
               + count (fun item => negb (sex_in ["M"; "Male"; "F"; "Female"] item)) data
               = Z.of_nat (length data)).
  { induction data as [|item data IH]; intros acc r.
    - subst r. cbn [fold_left]. rewrite !count_nil. cbn [length]. lia.
    - subst r. cbn [fold_left]. destruct (IH (MedicalData.count_sex acc item))
        as (I1 & I2 & I3 & I4).
      rewrite I1, I2, I3, !count_cons. clear I1 I2 I3.
      set (cm := count (sex_in ["M"; "Male"]) data) in *.
      set (cf := count (sex_in ["F"; "Female"]) data) in *.
      set (cu := count (fun i => negb (sex_in ["M"; "Male"; "F"; "Female"] i)) data) in *.
      clearbody cm cf cu.
      unfold MedicalData.count_sex, sex_in, includes. rewrite !bool_decide_Some.
      cbn [existsb length]. rewrite Nat2Z.inj_succ.
      destruct (item !! "Sex") as [s|]; [|cbn; lia].
      rewrite (String.eqb_sym s "M"), (String.eqb_sym s "Male"),
        (String.eqb_sym s "F"), (String.eqb_sym s "Female").
      destruct ("M" =? s)%string eqn:E1; [apply String.eqb_eq in E1; subst s; cbn; lia|].
      destruct ("Male" =? s)%string eqn:E2;
        [apply String.eqb_eq in E2; subst s; cbn; lia|].
      destruct ("F" =? s)%string eqn:E3; [cbn; lia|].
      destruct ("Female" =? s)%string eqn:E4; cbn; lia. }
  destruct (H {| MedicalData.Male := 0; MedicalData.Female := 0;
                 MedicalData.Unknown := 0 |}) as (H1 & H2 & H3 & H4).
  rewrite H1, H2, H3. cbn [MedicalData.Male MedicalData.Female MedicalData.Unknown].
  split; [reflexivity|exact H4].
Qed.

Lemma medical_rows_tokens data : forall counts,
  fold_left Medical.count_row data counts
  = fold_left Medical.count_condition (tokens "Condition" data) counts.
Proof.
  induction data as [|item data IH]; intros counts; [reflexivity|].
  cbn [fold_left]. rewrite IH, tokens_cons, fold_left_app. f_equal.
  unfold Medical.count_row, row_tokens.
  destruct (item !! "Condition") as [v|]; [|reflexivity].
  now destruct (JS.truthy v).
Qed.

Section MedicalStore.

(** The counts as numbers, which they are as long as no condition is
    an inherited name. *)
Let zstep (o : JS.obj Z) (t : string) : JS.obj Z :=
  JS.obj_set o t (match JS.obj_get o t with Some n => n | None => 0 end + 1).

Let lift (kv : string * Z) : string * Medical.count :=
  (fst kv, Medical.Num (snd kv)).

Lemma lift_get o k :
  JS.obj_get (map lift o) k = option_map Medical.Num (JS.obj_get o k).
Proof.
  induction o as [|[k' v] o IH]; cbn; [reflexivity|].
  destruct (k' =? k)%string; [reflexivity|exact IH].
Qed.

Lemma lift_set o k n :
  JS.obj_set (map lift o) k (Medical.Num n) = map lift (JS.obj_set o k n).
Proof.
  induction o as [|[k' v] o IH]; cbn; [reflexivity|].
  destruct (k' =? k)%string; cbn; [reflexivity|now rewrite IH].
Qed.

Lemma medical_zstep o t :
  JS.inherited t = false ->
  Medical.count_condition (map lift o) t = map lift (zstep o t).
Proof.
  intros Ht. unfold Medical.count_condition, JS.obj_read, JS.obj_assign, zstep.
  rewrite lift_get. destruct (JS.obj_get o t) as [n|]; cbn [option_map].
  - apply lift_set.
  - rewrite Ht. destruct (String.eqb_spec t "__proto__") as [->|_]; [discriminate|].
    apply (lift_set o t 1).
Qed.

Lemma medical_zsteps toks : forall o,
  (forall t, In t toks -> JS.inherited t = false) ->
  fold_left Medical.count_condition toks (map lift o)
  = map lift (fold_left zstep toks o).
Proof.
  induction toks as [|t toks IH]; intros o H; [reflexivity|].
  cbn [fold_left]. rewrite medical_zstep by (apply H; now left).
  apply IH. intros t' Ht'. apply H. now right.
Qed.

Lemma zstep_count toks : forall (counts : JS.obj Z) g,
  match JS.obj_get (fold_left zstep toks counts) g with
  | Some n => n
  | None => 0
  end
  = match JS.obj_get counts g with Some n => n | None => 0 end + occurrences g toks.
Proof.
  induction toks as [|t toks IH]; intros counts g.
  - unfold occurrences. cbn. lia.
  - cbn [fold_left]. rewrite IH.
    change (t :: toks) with ([t] ++ toks)%list. rewrite occurrences_app.
    rewrite <- (app_nil_l [t]), occurrences_snoc.
    unfold occurrences at 2. cbn [count_occ Z.of_nat]. rewrite Z.add_0_l.
    unfold zstep.
    destruct (String.eqb_spec t g) as [->|Hne].
    + rewrite obj_get_set_eq. lia.
    + rewrite obj_get_set_ne by assumption. lia.
Qed.

Lemma zstep_keys toks : forall (counts : JS.obj Z),
  let r := fold_left zstep toks counts in
  (List.NoDup (map fst counts) -> List.NoDup (map fst r))
  /\ (forall k, In k (map fst r) -> In k (map fst counts) \/ In k toks).
Proof.
  induction toks as [|t toks IH]; intros counts r; subst r; cbn [fold_left].
  - split; auto.
  - destruct (IH (zstep counts t)) as [I1 I2]. split.
    + intros H. now apply I1, obj_set_NoDup.
    + intros k H. apply I2 in H. destruct H as [H|H]; [|right; now right].
      unfold zstep in H. rewrite obj_set_keys in H.
      destruct (JS.obj_get counts t); [now left|].
      apply in_app_or in H. destruct H as [H|[<-|[]]]; [now left|right; now left].
Qed.

(** The store of [countConditions] when no condition is an inherited
    name: one number per condition. *)
Lemma medical_store data :
  let toks := tokens "Condition" data in
  (forall t, In t toks -> JS.inherited t = false) ->
  exists zs,
    fold_left Medical.count_row data []
    = map (fun kv => (fst kv, Medical.Num (snd kv))) zs
    /\ List.NoDup (map fst zs)
    /\ forall name value,
         In (name, value) zs <-> In name toks /\ value = occurrences name toks.
Proof.
  intros toks Htoks. exists (fold_left zstep toks []).
  split; [|split].
  - rewrite medical_rows_tokens. fold toks.
    exact (medical_zsteps toks [] Htoks).
  - now apply zstep_keys, List.NoDup_nil.
  - intros name value.
    destruct (zstep_keys toks []) as [Hnd Hk].
    specialize (Hnd (List.NoDup_nil _)).
    pose proof (zstep_count toks [] name) as Hc. cbn [JS.obj_get] in Hc.
    split.
    + intros Hin.
      assert (In name toks) as Ht.
      { destruct (Hk name) as [[]|H]; [|exact H].
        apply in_map_iff. now exists (name, value). }
      split; [exact Ht|].
      rewrite (obj_In_get _ _ _ Hnd Hin) in Hc. lia.
    + intros [Ht ->]. apply obj_get_In.
      apply occurrences_pos in Ht.
      destruct (JS.obj_get (fold_left zstep toks []) name);
        [f_equal; lia|lia].
Qed.

End MedicalStore.

Lemma numbers_of_nums zs :
  Medical.numbers (map (fun kv : string * Z => (fst kv, Medical.Num (snd kv))) zs)
  = Some zs.
Proof.
  induction zs as [|[k n] zs IH]; [reflexivity|].
  cbn [map Medical.numbers fst snd]. now rewrite IH.
Qed.

(** When no condition is named like a property that every object
    inherits, [countConditions] returns the first ten entries of a list
    that holds every condition of the data once, with the number of
    times it occurs among the conditions of all rows (at least 1),
    sorted by decreasing count, conditions with equal counts staying in
    the order of [Object.entries]. *)
Theorem countConditions_top (data : list DataItem) :
  let toks := tokens "Condition" data in
  (forall t, In t toks -> JS.inherited t = false) ->
  exists entries all,
    JS.obj_entries (fold_left Medical.count_row data [])
    = map (fun e => (fst e, Medical.Num (snd e))) entries
    /\ Medical.countConditions data = JS.Returns (firstn 10 all)
    /\ (length (firstn 10 all) <= 10)%nat
    /\ List.NoDup (map fst all)
    /\ (forall name value,
          In (name, value) all <-> In name toks /\ value = occurrences name toks)
    /\ (forall name value, In (name, value) all -> 1 <= value)
    /\ StronglySorted (fun a b => snd b <= snd a) all
    /\ (forall n, List.filter (fun e => snd e =? n) all
                  = List.filter (fun e => snd e =? n) entries).
Proof.
  intros toks Htoks.
  destruct (medical_store data Htoks) as (zs & Hstore & Hnd & Hzs). fold toks in Hzs.
  set (entries := JS.obj_entries zs).
  assert (Hentries : JS.obj_entries (fold_left Medical.count_row data [])
                     = map (fun e => (fst e, Medical.Num (snd e))) entries).
  { rewrite Hstore. now apply obj_entries_map. }
  exists entries, (JS.sort Medical.by_count entries).
  assert (Hin : forall name value,
            In (name, value) (JS.sort Medical.by_count entries)
            <-> In name toks /\ value = occurrences name toks).
  { intros name value. rewrite sort_In. unfold entries.
    rewrite obj_entries_In. apply Hzs. }
  split; [exact Hentries|].
  split; [|split; [|split; [|split; [|split; [|split]]]]].
  - unfold Medical.countConditions. now rewrite Hentries, numbers_of_nums.
  - rewrite length_firstn. lia.
  - apply (Permutation_NoDup (l := map fst zs)); [|exact Hnd].
    apply Permutation_map.
    transitivity entries; [symmetry; apply obj_entries_perm|symmetry; apply sort_perm].
  - exact Hin.
  - intros name value H. apply Hin in H. destruct H as [Ht ->].
    apply occurrences_pos in Ht. lia.
  - apply (StronglySorted_weaken (fun a b => Medical.by_count a b = false)).
    + intros a b _ _. unfold Medical.by_count. intros H.
      apply Z.ltb_ge in H. lia.
    + apply sort_sorted; unfold Medical.by_count.
      * intros a b H. apply Z.ltb_lt in H. apply Z.ltb_ge. lia.
      * intros a b c H1 H2. apply Z.ltb_ge in H1, H2. apply Z.ltb_ge. lia.
  - intros n. apply sort_filter. intros x y Hx Hy. unfold Medical.by_count.
    apply Z.eqb_eq in Hx, Hy. apply Z.ltb_ge. lia.
Qed.

Lemma countConditions_top_witness :
  let data : list DataItem :=
    [ {[ "Condition" := "Asthma, Flu" ]}; {[ "Condition" := "Flu" ]} ] in
  exists all, Medical.countConditions data = JS.Returns (firstn 10 all).
Proof.
  intros data.
  destruct (countConditions_top data) as (entries & all & _ & H & _).
  - vm_compute. intros t [<-|[<-|[<-|[]]]]; reflexivity.
  - now exists all.
Defined.

Lemma medical_reduce_parser vals headers : forall index (obj : DataItem),
  MedicalData.reduce vals index headers obj
  = Parser.reduce vals index (map JS.trim headers) obj.
Proof.
  induction headers as [|h headers IH]; intros index obj; [reflexivity|].
  cbn [MedicalData.reduce Parser.reduce map]. apply IH.
Qed.

Lemma has_some_value (item : DataItem) key :
  MedicalData.has item key = true -> Parser.some_value item = true.
Proof.
  unfold MedicalData.has, Parser.some_value. destruct (item !! key) as [v|] eqn:E;
    [|discriminate].
  intros Ht. apply existsb_exists. exists v. split; [|exact Ht].
  apply in_map_iff. exists (key, v). split; [reflexivity|].
  apply list_elem_of_In, elem_of_map_to_list, E.
Qed.

Lemma filter_filter_implied {A} (p q : A -> bool) (l : list A) :
  (forall x, p x = true -> q x = true) ->
  List.filter p (List.filter q l) = List.filter p l.
Proof.
  intros H. induction l as [|x l IH]; [reflexivity|]. cbn [List.filter].
  destruct (q x) eqn:Eq; cbn [List.filter]; destruct (p x) eqn:Ep; rewrite ?IH; auto.
  apply H in Ep. congruence.
Qed.

(** The parser of the medical chart returns exactly those rows of the
    tabular parser of the Likert charts whose Condition is not empty. *)
Theorem medical_parser_rows (csv : string) :
  MedicalData.parseCSV csv
  = List.filter (fun item => MedicalData.has item "Condition")
      (Parser.data (Parser.parseFile csv)).
Proof.
  unfold MedicalData.parseCSV. cbn [Parser.parseFile Parser.data].
  rewrite filter_filter_implied by (intros x; apply has_some_value).
  f_equal. apply map_ext. intros line. apply medical_reduce_parser.
Qed.

(** Every row the medical parser returns has a non-empty, trimmed
    Condition, so it counts for at least one condition; a file without a
    column named Condition (after trimming) gives no row at all. *)
Theorem medical_parser_condition (csv : string) :
  (forall item, In item (MedicalData.parseCSV csv) ->
     exists v, item !! "Condition" = Some v /\ v <> "" /\ JS.trim v = v
               /\ GroupAggregator.conditions "Condition" item
                  = JS.Returns (JS.split ", " v)
               /\ JS.split ", " v <> [])
  /\ (~ In "Condition"
          (map JS.trim (JS.split "," (hd "" (JS.split Parser.LF csv)))) ->
      MedicalData.parseCSV csv = []).
Proof.
  split.
  - intros item Hin. unfold MedicalData.parseCSV in Hin.
    apply filter_In in Hin. destruct Hin as [Hin Hc].
    unfold MedicalData.has in Hc.
    destruct (item !! "Condition") as [v|] eqn:E; [|discriminate].
    exists v. split; [reflexivity|]. split; [now apply truthy_ne|].
    apply in_map_iff in Hin. destruct Hin as (line & <- & _).
    rewrite medical_reduce_parser in E.
    split; [|split].
    + apply reduce_values in E.
      destruct E as [E|[j ->]]; [now rewrite lookup_empty in E|apply cell_trimmed].
    + unfold GroupAggregator.conditions, JS.row_read.
      rewrite medical_reduce_parser, E. now rewrite Hc.
    + now apply split_join.
  - intros Hno. unfold MedicalData.parseCSV.
    induction (tl (JS.split Parser.LF csv)) as [|line lines IH]; [reflexivity|].
    cbn [map List.filter]. rewrite IH.
    unfold MedicalData.has at 1.
    rewrite medical_reduce_parser, reduce_lookup_other by exact Hno.
    now rewrite lookup_empty.
Qed.

Lemma medical_parser_condition_witness :
  MedicalData.parseCSV ("Sex, Disease" ++ Parser.LF ++ "F,Flu")%string = [].
Proof.
  apply (medical_parser_condition ("Sex, Disease" ++ Parser.LF ++ "F,Flu")%string).
  vm_compute. intuition discriminate.
Defined.

(** ** The pivot table *)

Lemma NoDup_constant {A} (l : list A) a :
  List.NoDup l -> (forall x, In x l -> x = a) -> l <> [] -> l = [a].
Proof.
  destruct l as [|x [|y l]]; intros Hnd Hall Hne; [contradiction| |].
  - f_equal. apply Hall. now left.
  - exfalso. inversion Hnd as [|? ? Hx _]. apply Hx. left.
    rewrite (Hall x), (Hall y); cbn; auto.
Qed.

Lemma mapM_length {A B} (f : A -> JS.outcome B) l : forall r,
  JS.mapM f l = JS.Returns r -> length r = length l.
Proof.
  induction l as [|x l IH]; intros r H; cbn [JS.mapM] in H.
  - now injection H as <-.
  - destruct (f x) as [y| |]; cbn [JS.bind] in H; try discriminate.
    destruct (JS.mapM f l) as [ys| |]; cbn [JS.bind] in H; try discriminate.
    injection H as <-. cbn [length]. f_equal. now apply IH.
Qed.

Lemma mapM_In {A B} (f : A -> JS.outcome B) l y : forall r,
  JS.mapM f l = JS.Returns r -> In y r -> exists x, In x l /\ f x = JS.Returns y.
Proof.
  induction l as [|x l IH]; intros r H Hin; cbn [JS.mapM] in H.
  - injection H as <-. destruct Hin.
  - destruct (f x) as [y'| |] eqn:E; cbn [JS.bind] in H; try discriminate.
    destruct (JS.mapM f l) as [ys| |]; cbn [JS.bind] in H; try discriminate.
    injection H as <-. destruct Hin as [<-|Hin].
    + exists x. split; [now left|exact E].
    + destruct (IH ys eq_refl Hin) as (x' & Hx' & Hf). exists x'. split; [now right|exact Hf].
Qed.

(** The row keys and the column keys of the pivot table are the keys of
    the filtered rows, each listed once; the table has one line per row
    key and one cell per column key in every line.  Without filtered
    rows the table is empty; with no row dimension configured, every
    row falls under the one row key [""]. *)
Theorem pivot_keys nts (data : list Pivot.DataItem) (config : Pivot.PivotConfig)
    (filters : Filters) :
  let fd := Pivot.filteredData nts data filters in
  let out := Pivot.processData nts data config filters in
  List.NoDup (Pivot.out_rows out) /\ List.NoDup (Pivot.out_columns out)
  /\ (forall k, In k (Pivot.out_rows out)
                <-> exists item, In item fd /\ Pivot.key nts (Pivot.rows config) item = k)
  /\ (forall k, In k (Pivot.out_columns out)
                <-> exists item, In item fd
                                 /\ Pivot.key nts (Pivot.columns config) item = k)
  /\ (forall table, Pivot.out_values out = JS.Returns table ->
        length table = length (Pivot.out_rows out)
        /\ forall line, In line table ->
                        length line = length (Pivot.out_columns out))
  /\ (fd = [] ->
      out = {| Pivot.out_rows := []; Pivot.out_columns := [];
               Pivot.out_values := JS.Returns [] |})
  /\ (Pivot.rows config = [] -> fd <> [] -> Pivot.out_rows out = [""]).
Proof.
  intros fd out. subst out. unfold Pivot.processData. fold fd.
  cbn [Pivot.out_rows Pivot.out_columns Pivot.out_values].
  assert (Hk : forall cols k,
            In k (JS.array_from_set (map (Pivot.key nts cols) fd))
            <-> exists item, In item fd /\ Pivot.key nts cols item = k).
  { intros cols k. rewrite array_from_set_In, in_map_iff.
    split; intros (item & H1 & H2); exists item; auto. }
  split; [apply array_from_set_NoDup|]. split; [apply array_from_set_NoDup|].
  split; [apply Hk|]. split; [apply Hk|]. split; [|split].
  - intros table Ht.
    destruct (Pivot.pivotTable nts config fd) as [t| |]; cbn [JS.bind] in Ht;
      try discriminate.
    split; [now apply mapM_length in Ht|].
    intros line Hin. destruct (mapM_In _ _ _ _ Ht Hin) as (x & _ & Hx).
    now apply mapM_length in Hx.
  - intros ->. reflexivity.
  - intros Hr Hne. apply NoDup_constant.
    + apply array_from_set_NoDup.
    + intros x Hx. apply Hk in Hx. destruct Hx as (item & _ & <-).
      now rewrite Hr.
    + destruct fd as [|item fd']; [contradiction|]. intros E.
      assert (In (Pivot.key nts (Pivot.rows config) item)
                (JS.array_from_set
                   (map (Pivot.key nts (Pivot.rows config)) (item :: fd')))) as Hin
        by (apply Hk; exists item; split; [now left|reflexivity]).
      now rewrite E in Hin.
Qed.

Lemma pivot_keys_witness :
  Pivot.out_rows
    (Pivot.processData (fun _ => "0")
       [ {[ "a" := JS.VStr "x" ]}; {[ "a" := JS.VStr "y" ]} ]
       {| Pivot.rows := []; Pivot.columns := ["a"]; Pivot.values := [] |} [])
  = [""].
Proof.
  apply (pivot_keys (fun _ => "0")
           [ {[ "a" := JS.VStr "x" ]}; {[ "a" := JS.VStr "y" ]} ]
           {| Pivot.rows := []; Pivot.columns := ["a"]; Pivot.values := [] |} []).
  - reflexivity.
  - discriminate.
Defined.

Lemma convert_not_empty s : PivotParser.convert s <> JS.VStr "".
Proof.
  unfold PivotParser.convert. destruct s as [|c s]; [vm_compute; discriminate|].
  destruct (PrimFloat.is_nan _); discriminate.
Qed.

Lemma pivot_reduce_values vals headers h v : forall index (obj : Pivot.DataItem),
  PivotParser.reduce vals index headers obj !! h = Some v ->
  obj !! h = Some v \/ exists j, v = PivotParser.convert (Parser.cell vals j).
Proof.
  induction headers as [|h' headers IH]; intros index obj H; [now left|].
  cbn [PivotParser.reduce] in H. apply IH in H. destruct H as [H|H]; [|now right].
  destruct (row_assign_cases obj h' (PivotParser.convert (Parser.cell vals index)))
    as [E|E]; rewrite E in H; [|now left].
  destruct (decide (h' = h)) as [->|Hne].
  - rewrite lookup_insert_eq in H. injection H as <-. right. now eexists.
  - rewrite lookup_insert_ne in H by exact Hne. now left.
Qed.

Lemma pivot_reduce_nonempty vals headers : forall index (obj : Pivot.DataItem),
  existsb (fun h => negb (h =? "__proto__")%string) headers = true \/ obj <> ∅ ->
  PivotParser.reduce vals index headers obj <> ∅.
Proof.
  induction headers as [|h headers IH]; intros index obj H.
  - destruct H as [H|H]; [discriminate|exact H].
  - cbn [PivotParser.reduce]. apply IH. cbn [existsb] in H.
    destruct (String.eqb_spec h "__proto__") as [->|Hne]; cbn [negb orb] in H.
    + destruct H as [H|H]; [now left|right].
      destruct (row_assign_cases obj "__proto__"
                  (PivotParser.convert (Parser.cell vals index))) as [-> | ->];
        [apply insert_non_empty|exact H].
    + right. rewrite row_assign_plain by assumption. apply insert_non_empty.
Qed.

Lemma pivot_reduce_empty vals headers : forall index,
  existsb (fun h => negb (h =? "__proto__")%string) headers = false ->
  PivotParser.reduce vals index headers ∅ = ∅.
Proof.
  induction headers as [|h headers IH]; intros index H; [reflexivity|].
  cbn [PivotParser.reduce]. cbn [existsb] in H.
  apply orb_false_iff in H. destruct H as [Hh H].
  destruct (String.eqb_spec h "__proto__") as [->|]; [|discriminate].
  rewrite row_assign_proto by apply lookup_empty. now apply IH.
Qed.

Lemma pivot_row_kept vals headers :
  existsb (fun h => negb (h =? "__proto__")%string) headers = true ->
  PivotParser.some_value (PivotParser.reduce vals 0 headers ∅) = true.
Proof.
  intros Hne. unfold PivotParser.some_value.
  pose proof (pivot_reduce_nonempty vals headers 0 ∅ (or_introl Hne)) as Hn.
  destruct (map_to_list (PivotParser.reduce vals 0 headers ∅)) as [|[k v] l] eqn:E.
  - now apply map_to_list_empty_iff in E.
  - assert (PivotParser.reduce vals 0 headers ∅ !! k = Some v) as Hv.
    { apply elem_of_map_to_list. rewrite E. now left. }
    apply pivot_reduce_values in Hv.
    destruct Hv as [Hv|[j ->]]; [now rewrite lookup_empty in Hv|].
    cbn [map snd existsb]. pose proof (convert_not_empty (Parser.cell vals j)) as Hc.
    destruct (PivotParser.convert (Parser.cell vals j)) as [s|x]; [|reflexivity].
    destruct (String.eqb_spec s "") as [->|]; [contradiction|reflexivity].
Qed.

(** The parser of the pivot page turns a blank or missing field into
    the number 0, because [Number("")] is 0; so no value is the empty
    string, and its filter of empty rows drops no line of a file with a
    column not named ["__proto__"]: every line after the header gives a
    row, blank lines too.  When every column is named ["__proto__"] the
    rows have no property, and all are dropped. *)
Theorem pivot_parser_keeps_lines (result : string) :
  let lines := JS.split Parser.LF result in
  let parsed := PivotParser.parseFile result in
  (if existsb (fun h => negb (h =? "__proto__")%string) (PivotParser.headers parsed)
   then PivotParser.data parsed
        = map (fun line => PivotParser.reduce (JS.split "," line) 0
                             (PivotParser.headers parsed) ∅) (tl lines)
        /\ S (length (PivotParser.data parsed)) = length lines
   else PivotParser.data parsed = [])
  /\ (forall item h v, In item (PivotParser.data parsed) -> item !! h = Some v ->
                       v <> JS.VStr "")
  /\ (forall vals i, Parser.cell vals i = "" ->
                     PivotParser.convert (Parser.cell vals i) = JS.VNum 0%float).
Proof.
  intros lines parsed. split; [|split].
  - destruct (existsb _ (PivotParser.headers parsed)) eqn:Hh.
    + assert (Hd : PivotParser.data parsed
                   = map (fun line => PivotParser.reduce (JS.split "," line) 0
                                        (PivotParser.headers parsed) ∅) (tl lines)).
      { cbn [parsed PivotParser.parseFile PivotParser.data]. apply filter_all.
        intros item Hin. apply in_map_iff in Hin. destruct Hin as (line & <- & _).
        apply pivot_row_kept. exact Hh. }
      split; [exact Hd|].
      rewrite Hd, length_map. subst lines.
      destruct (split_join Parser.LF result) as [Hne _]; [discriminate|].
      now destruct (JS.split Parser.LF result).
    + cbn [parsed PivotParser.parseFile PivotParser.data PivotParser.headers] in *.
      generalize (tl (JS.split Parser.LF result)). intros ls.
      induction ls as [|line ls IH]; [reflexivity|].
      cbn [map List.filter]. rewrite pivot_reduce_empty by exact Hh.
      exact IH.
  - intros item h v Hin Hv.
    cbn [parsed PivotParser.parseFile PivotParser.data] in Hin.
    apply filter_In in Hin. destruct Hin as [Hin _].
    apply in_map_iff in Hin.
    destruct Hin as (line & <- & _). apply pivot_reduce_values in Hv.
    destruct Hv as [Hv|[j ->]]; [now rewrite lookup_empty in Hv|].
    apply convert_not_empty.
  - intros vals i ->. reflexivity.
Qed.

Lemma pivot_parser_keeps_lines_witness :
  PivotParser.data (PivotParser.parseFile ("a,b" ++ Parser.LF ++ "")%string)
  = [ {[ "a" := JS.VNum 0%float; "b" := JS.VNum 0%float ]} ]
  /\ PivotParser.data (PivotParser.parseFile ("__proto__" ++ Parser.LF ++ "x")%string)
     = []
  /\ PivotParser.convert (Parser.cell [] 0) = JS.VNum 0%float.
Proof.
  split; [reflexivity|]. split.
  - exact (proj1 (pivot_parser_keeps_lines ("__proto__" ++ Parser.LF ++ "x")%string)).
  - apply (pivot_parser_keeps_lines ""). reflexivity.
Defined.

(** ** The upload of the five-column file *)

Section Upload.
Variable toLowerCase : string -> string.

Lemma hasValidHeaders_spec headers :
  FileUpload.hasValidHeaders toLowerCase headers = true
  <-> forall header, In header FileUpload.requiredHeaders ->
        In (toLowerCase header) (map (fun h => toLowerCase (JS.trim h)) headers).
Proof.
  unfold FileUpload.hasValidHeaders. rewrite forallb_forall.
  split; intros H header Hin; apply includes_In, H, Hin.
Qed.


End Upload.

(** The header line is checked by name, whatever the case, the
    surrounding white space and the order of the names, but the fields
    are read by position: two files of the same type with the same data
    lines, whose header lines hold the same names up to case and white
    space, give the same result. *)
Theorem upload_header_by_name (toLowerCase : string -> string) (type t1 t2 : string) :
  let names t :=
    map (fun h => toLowerCase (JS.trim h))
      (JS.split "," (hd "" (JS.split Parser.LF t))) in
  (forall x, In x (names t1) <-> In x (names t2)) ->
  tl (JS.split Parser.LF t1) = tl (JS.split Parser.LF t2) ->
  FileUpload.handleFileUpload toLowerCase
    (Some {| FileUpload.file_type := type; FileUpload.file_text := t1 |})
  = FileUpload.handleFileUpload toLowerCase
      (Some {| FileUpload.file_type := type; FileUpload.file_text := t2 |}).
Proof.
  intros names Hn Ht. unfold FileUpload.handleFileUpload.
  cbn [FileUpload.file_type FileUpload.file_text]. rewrite Ht.
  assert (FileUpload.hasValidHeaders toLowerCase
            (JS.split "," (hd "" (JS.split Parser.LF t1)))
          = FileUpload.hasValidHeaders toLowerCase
              (JS.split "," (hd "" (JS.split Parser.LF t2))))
    as ->; [|reflexivity].
  apply eq_true_iff_eq. rewrite !hasValidHeaders_spec.
  split; intros H header Hin; apply Hn, H, Hin.
Qed.

Lemma upload_header_by_name_witness :
  let t1 := ("id,stronglyDisagree,disagree,agree,stronglyAgree"
             ++ Parser.LF ++ "q1,1,2,3,4")%string in
  let t2 := ("STRONGLYAGREE, Agree ,disagree,stronglydisagree,ID"
             ++ Parser.LF ++ "q1,1,2,3,4")%string in
  let upload t :=
    FileUpload.handleFileUpload Likert.lower_latin1
      (Some {| FileUpload.file_type := "text/csv"; FileUpload.file_text := t |}) in
  upload t1
  = FileUpload.Data
      [ {| FileUpload.id := "q1"; FileUpload.stronglyDisagree := 1;
           FileUpload.disagree := 2; FileUpload.agree := 3;
           FileUpload.stronglyAgree := 4 |} ]
  /\ upload t1 = upload t2.
Proof.
  split; [reflexivity|].
  apply (upload_header_by_name Likert.lower_latin1 "text/csv"
           ("id,stronglyDisagree,disagree,agree,stronglyAgree"
            ++ Parser.LF ++ "q1,1,2,3,4")%string
           ("STRONGLYAGREE, Agree ,disagree,stronglydisagree,ID"
            ++ Parser.LF ++ "q1,1,2,3,4")%string).
  - intros x. vm_compute. tauto.
  - reflexivity.
Defined.



(** ** The text filter of the chart without column filters *)

Lemma lower_char_idem c : Likert.lower_char (Likert.lower_char c) = Likert.lower_char c.
Proof. destruct c as [[] [] [] [] [] [] [] []]; reflexivity. Qed.

Lemma lower_latin1_idem s :
  Likert.lower_latin1 (Likert.lower_latin1 s) = Likert.lower_latin1 s.
Proof.
  induction s as [|c s IH]; [reflexivity|].
  cbn [Likert.lower_latin1]. now rewrite lower_char_idem, IH.
Qed.

Lemma lower_latin1_truthy s : JS.truthy (Likert.lower_latin1 s) = JS.truthy s.
Proof. now destruct s. Qed.

Lemma str_includes_empty s : Likert.str_includes s "" = true.
Proof. now destruct s. Qed.

(** The text filter ignores case on both sides: lowering the text
    typed, or the condition of the row, changes nothing.  This uses of
    the case conversion only that converting twice is converting once,
    and that it leaves no non-empty string empty. *)
Theorem text_filter_case (toLowerCase : string -> string) (cc f v : string)
    (item : DataItem) :
  (forall s, toLowerCase (toLowerCase s) = toLowerCase s) ->
  (forall s, JS.truthy (toLowerCase s) = JS.truthy s) ->
  Likert.matches_text toLowerCase cc (toLowerCase f) item
  = Likert.matches_text toLowerCase cc f item
  /\ Likert.matches_text toLowerCase cc f (<[cc := toLowerCase v]> item)
     = Likert.matches_text toLowerCase cc f (<[cc := v]> item).
Proof.
  intros Hidem Htruthy. unfold Likert.matches_text, JS.row_read. split.
  - now rewrite Hidem.
  - rewrite !lookup_insert_eq. now rewrite Hidem, Htruthy.
Qed.

Lemma text_filter_case_witness :
  let item : DataItem := {[ "c" := "Asthma, Flu" ]} in
  Likert.matches_text Likert.lower_latin1 "c" (Likert.lower_latin1 "FLU") item
  = Likert.matches_text Likert.lower_latin1 "c" "FLU" item.
Proof.
  exact (proj1 (text_filter_case Likert.lower_latin1 "c" "FLU" ""
                  {[ "c" := "Asthma, Flu" ]} lower_latin1_idem lower_latin1_truthy)).
Defined.

Lemma pairs_filter cc (p : DataItem -> bool) l :
  (forall item, In item l -> p item = false -> row_tokens cc item = []) ->
  pairs cc (List.filter p l) = pairs cc l.
Proof.
  induction l as [|x l IH]; intros H; [reflexivity|].
  unfold pairs in *. cbn [List.filter flat_map].
  destruct (p x) eqn:E.
  - cbn [flat_map]. f_equal. apply IH. intros item Hi. apply H. now right.
  - rewrite (H x) by (auto; now left). cbn [map app].
    apply IH. intros item Hi. apply H. now right.
Qed.

Lemma existsb_filter {A} (p q : A -> bool) l :
  (forall x, In x l -> p x = false -> q x = false) ->
  existsb q (List.filter p l) = existsb q l.
Proof.
  induction l as [|x l IH]; intros H; [reflexivity|].
  cbn [List.filter existsb]. destruct (p x) eqn:E.
  - cbn [existsb]. f_equal. apply IH. intros y Hy. apply H. now right.
  - rewrite (H x) by (auto; now left). cbn [orb].
    apply IH. intros y Hy. apply H. now right.
Qed.

Section TextFilter.
Variable toLowerCase : string -> string.
Hypothesis lower_empty : toLowerCase "" = "".
Variable cc : string.

(** The row reads an inherited object as its condition. *)
Let inherits (item : DataItem) : bool :=
  match JS.row_read item cc with JS.Proto _ => true | _ => false end.

Let has_condition (item : DataItem) : bool :=
  match item !! cc with Some v => JS.truthy v | None => false end.

Lemma matches_empty_text item :
  Likert.matches_text toLowerCase cc "" item
  = if inherits item then JS.Throws else JS.Returns (has_condition item).
Proof.
  unfold Likert.matches_text, inherits, has_condition, JS.row_read.
  destruct (item !! cc) as [v|].
  - now rewrite lower_empty, str_includes_empty, andb_true_r.
  - now destruct (JS.inherited cc).
Qed.

Lemma filterM_empty_text l :
  JS.filterM (Likert.matches_text toLowerCase cc "") l
  = if existsb inherits l then JS.Throws
    else JS.Returns (List.filter has_condition l).
Proof.
  induction l as [|x l IH]; [reflexivity|].
  cbn [JS.filterM existsb List.filter]. rewrite matches_empty_text.
  destruct (inherits x); [reflexivity|]. cbn [JS.bind orb]. rewrite IH.
  destruct (existsb inherits l); [reflexivity|]. cbn [JS.bind].
  now destruct (has_condition x).
Qed.

Lemma inherits_throws cols item :
  inherits item = true -> row_throws cc cols item = true.
Proof.
  unfold inherits, row_throws. now destruct (JS.row_read item cc).
Qed.

Lemma no_condition_quiet cols item :
  inherits item = false -> has_condition item = false ->
  row_tokens cc item = [] /\ row_throws cc cols item = false.
Proof.
  unfold inherits, has_condition, row_throws, row_tokens, JS.row_read.
  destruct (item !! cc) as [v|].
  - intros _ ->. now split.
  - destruct (JS.inherited cc); [discriminate|]. now split.
Qed.

End TextFilter.

(** With an empty text the text filter keeps the rows whose condition
    is not empty, and the chart shows what it shows for the unfiltered
    data, as long as the first row has a condition (the type of the
    columns is read off the first row that is passed on). *)
Theorem empty_text_filter (toLowerCase : string -> string)
    (rawData : list DataItem) (cc : string) (cols : list string) :
  toLowerCase "" = "" ->
  match rawData with
  | d :: _ => exists v, d !! cc = Some v /\ v <> ""
  | [] => True
  end ->
  (forall kept,
     JS.filterM (Likert.matches_text toLowerCase cc "") rawData = JS.Returns kept ->
     kept = List.filter (fun item => match item !! cc with
                                     | Some v => JS.truthy v
                                     | None => false
                                     end) rawData)
  /\ Likert.updateChartData toLowerCase rawData cc cols ""
     = Likert.processData rawData cc cols.
Proof.
  intros Hlower Hfirst.
  pose proof (filterM_empty_text toLowerCase Hlower cc rawData) as Hf.
  cbv beta in Hf. split.
  - intros kept Hk. rewrite Hf in Hk. destruct (existsb _ rawData); [discriminate|].
    now injection Hk as <-.
  - unfold Likert.updateChartData. rewrite Hf. clear Hf.
    set (inherits := fun item : DataItem =>
           match JS.row_read item cc with JS.Proto _ => true | _ => false end).
    set (has_condition := fun item : DataItem =>
           match item !! cc with Some v => JS.truthy v | None => false end).
    destruct (existsb inherits rawData) eqn:Ei.
    + unfold Likert.processData.
      destruct rawData as [|d rest]; [discriminate|]. cbn [length Nat.eqb].
      rewrite (count_rows_outcome cc cols (d :: rest) []) by (intros k []).
      apply existsb_exists in Ei. destruct Ei as (item & Hin & Hi).
      assert (existsb (row_throws cc cols) (d :: rest) = true) as ->; [|reflexivity].
      apply existsb_exists. exists item. split; [exact Hin|].
      now apply (inherits_throws cc cols).
    + cbn [JS.bind].
      assert (Hq : forall item, In item rawData -> has_condition item = false ->
                     row_tokens cc item = [] /\ row_throws cc cols item = false).
      { intros item Hin Hc. apply no_condition_quiet; [|exact Hc].
        apply not_true_is_false. intros Hi.
        assert (existsb inherits rawData = true)
          by (apply existsb_exists; now exists item).
        congruence. }
      unfold Likert.processData.
      destruct rawData as [|d rest]; [reflexivity|].
      destruct Hfirst as (v & Hv & Hne). apply truthy_ne in Hne.
      assert (Hd : has_condition d = true) by (unfold has_condition; now rewrite Hv).
      cbn [List.filter]. rewrite Hd. cbn [length Nat.eqb].
      replace (d :: List.filter has_condition rest)
        with (List.filter has_condition (d :: rest))
        by (cbn [List.filter]; now rewrite Hd).
      rewrite !(count_rows_outcome cc cols _ []) by (intros k []).
      rewrite (existsb_filter has_condition (row_throws cc cols))
        by (intros x Hx Hc; now apply Hq).
      rewrite (pairs_filter cc has_condition)
        by (intros x Hx Hc; now apply Hq).
      destruct (existsb (row_throws cc cols) (d :: rest)); [reflexivity|].
      cbn [JS.bind List.filter]. rewrite Hd. reflexivity.
Qed.

Lemma empty_text_filter_witness :
  Likert.updateChartData Likert.lower_latin1
    [ {[ "c" := "A"; "x" := "1" ]}; {[ "c" := ""; "x" := "2" ]} ] "c" ["x"] ""
  = Likert.processData
      [ {[ "c" := "A"; "x" := "1" ]}; {[ "c" := ""; "x" := "2" ]} ] "c" ["x"].
Proof.
  apply (empty_text_filter Likert.lower_latin1
           [ {[ "c" := "A"; "x" := "1" ]}; {[ "c" := ""; "x" := "2" ]} ] "c" ["x"]).
  - reflexivity.
  - exists "A". split; [reflexivity|discriminate].
Defined.

(** ** The records of the Comparator *)

Lemma sum_perm (l l' : list Z) :
  Permutation l l' -> fold_right Z.add 0 l = fold_right Z.add 0 l'.
Proof. induction 1; cbn [fold_right]; lia. Qed.

Lemma sum_totals_set (o : JS.obj Comparator.Stat) k v :
  fold_right Z.add 0 (map (fun kv => Comparator.total (snd kv)) (JS.obj_set o k v))
  = fold_right Z.add 0 (map (fun kv => Comparator.total (snd kv)) o)
    - match JS.obj_get o k with Some old => Comparator.total old | None => 0 end
    + Comparator.total v.
Proof.
  induction o as [|[k' v'] o IH]; cbn [JS.obj_set JS.obj_get map fold_right snd]; [lia|].
  destruct (k' =? k)%string; cbn [map fold_right snd]; lia.
Qed.

Section ComparatorStore.
Variables cc rc L R : string.

Let store (l : list DataItem) : JS.obj Comparator.Stat :=
  fold_left (Comparator.tally cc rc L R) l [].

(** The row is counted: its condition and its response are truthy and
    its condition is not an inherited name. *)
Let usable (i : DataItem) : bool :=
  JS.read_truthy (JS.row_read i cc) && JS.read_truthy (JS.row_read i rc)
  && negb (JS.inherited (Comparator.key_of (JS.row_read i cc))).

Lemma store_positive l : forall c st,
  JS.obj_get (store l) c = Some st -> 1 <= Comparator.total st.
Proof.
  induction l as [|x l IH] using rev_ind; intros c st; [discriminate|].
  unfold store in *. rewrite fold_left_app. cbn [fold_left].
  set (stats := fold_left (Comparator.tally cc rc L R) l []) in *.
  unfold Comparator.tally. cbv zeta.
  destruct (_ || _); [apply IH|].
  set (k := Comparator.key_of _).
  pose proof (read_cases stats k) as Hr.
  destruct (JS.obj_get stats k) as [old|] eqn:E;
    [|destruct (JS.inherited k)]; rewrite Hr; try apply IH.
  - destruct (String.eqb_spec k c) as [Ek|Hne].
    + rewrite Ek, obj_get_set_eq. intros [= <-]. rewrite Ek in E. apply IH in E.
      destruct (Comparator.is_category _ L); [cbn; lia|].
      destruct (Comparator.is_category _ R); cbn; lia.
    + rewrite obj_get_set_ne by exact Hne. apply IH.
  - destruct (String.eqb_spec k c) as [Ek|Hne].
    + rewrite Ek, obj_get_set_eq. intros [= <-].
      destruct (Comparator.is_category _ L); [cbn; lia|].
      destruct (Comparator.is_category _ R); cbn; lia.
    + rewrite obj_get_set_ne by exact Hne. apply IH.
Qed.

Lemma store_sum l :
  fold_right Z.add 0 (map (fun kv => Comparator.total (snd kv)) (store l))
  = count usable l.
Proof.
  induction l as [|x l IH] using rev_ind; [reflexivity|].
  rewrite count_snoc, <- IH. clear IH.
  pose proof (tally_keys cc rc L R l) as Hkeys. cbv beta in Hkeys.
  unfold store. rewrite fold_left_app. cbn [fold_left].
  set (stats := fold_left (Comparator.tally cc rc L R) l []) in *.
  unfold Comparator.tally, usable. cbv zeta.
  destruct (JS.read_truthy (JS.row_read x cc)); [|cbn; lia].
  destruct (JS.read_truthy (JS.row_read x rc)); [|cbn; lia].
  cbn [negb orb andb].
  set (k := Comparator.key_of _).
  pose proof (read_cases stats k) as Hr.
  destruct (JS.obj_get stats k) as [old|] eqn:E.
  - assert (Hk : JS.inherited k = false).
    { apply Hkeys. apply obj_get_In, (in_map fst) in E. exact E. }
    rewrite Hr, Hk, sum_totals_set, E. cbn [negb].
    destruct (Comparator.is_category _ L); [cbn; lia|].
    destruct (Comparator.is_category _ R); cbn; lia.
  - destruct (JS.inherited k); rewrite Hr; cbn [negb]; [lia|].
    rewrite sum_totals_set, E.
    destruct (Comparator.is_category _ L); [cbn; lia|].
    destruct (Comparator.is_category _ R); cbn; lia.
Qed.

End ComparatorStore.

(** The result of the Comparator is empty, or made from the tally of
    the filtered rows with the two categories. *)
Lemma comparator_output data cc rc filters :
  let fd := Comparator.filteredData data filters in
  Comparator.processData data cc rc filters = Comparator.empty_result
  \/ exists L R rest,
       Comparator.uniqueResponses fd rc = L :: R :: rest
       /\ Comparator.processData data cc rc filters
          = {| Comparator.data :=
                 JS.sort Comparator.by_total
                   (map (Comparator.record_of L R)
                      (JS.obj_entries (fold_left (Comparator.tally cc rc L R) fd [])));
               Comparator.categories := (L, R) |}.
Proof.
  intros fd. unfold Comparator.processData. fold fd.
  destruct (_ || _); [now left|].
  destruct (Comparator.uniqueResponses fd rc) as [|L [|R rest]]; [now left|now left|].
  right. now exists L, R, rest.
Qed.

Lemma record_of_total L R : forall e,
  Comparator.itemTotal (Comparator.record_of L R e) = Comparator.total (snd e).
Proof. now intros [c st]. Qed.

Lemma record_of_condition L R : forall e,
  Comparator.condition (Comparator.record_of L R e) = fst e.
Proof. now intros [c st]. Qed.

(** The records of the Comparator: one for each condition, not named
    like a property that every object inherits, that has a row with a
    non-empty response among the filtered rows, and for no other; each
    with a total of at least 1, the number of these rows, and the two
    categories as labels; by decreasing total.  When the Comparator
    finds two categories the totals add up to the number of filtered
    rows that are counted; the records are empty when it does not. *)
Theorem comparator_records_order data cc rc filters :
  let fd := Comparator.filteredData data filters in
  let res := Comparator.processData data cc rc filters in
  let counted i :=
    JS.read_truthy (JS.row_read i cc) && JS.read_truthy (JS.row_read i rc)
    && negb (JS.inherited (Comparator.key_of (JS.row_read i cc))) in
  List.NoDup (map Comparator.condition (Comparator.data res))
  /\ StronglySorted (fun a b => Comparator.itemTotal b <= Comparator.itemTotal a)
       (Comparator.data res)
  /\ (forall r, In r (Comparator.data res) ->
        JS.inherited (Comparator.condition r) = false
        /\ 1 <= Comparator.itemTotal r
        /\ Comparator.itemTotal r = count (tallied cc rc (Comparator.condition r)) fd
        /\ Comparator.leftLabel r = fst (Comparator.categories res)
        /\ Comparator.rightLabel r = snd (Comparator.categories res))
  /\ (Comparator.categories res <> ("", "") ->
      forall c, JS.inherited c = false -> 0 < count (tallied cc rc c) fd ->
                exists r, In r (Comparator.data res) /\ Comparator.condition r = c)
  /\ (Comparator.categories res <> ("", "") ->
      fold_right Z.add 0 (map Comparator.itemTotal (Comparator.data res))
      = count counted fd)
  /\ (Comparator.categories res = ("", "") -> Comparator.data res = []).
Proof.
  intros fd res counted. subst res.
  destruct (comparator_output data cc rc filters) as [->|(L & R & rest & Hu & ->)].
  { cbn. repeat split; try constructor; try contradiction. }
  fold fd. cbn [Comparator.data Comparator.categories fst snd].
  set (st := fold_left (Comparator.tally cc rc L R) fd []).
  split; [|split; [|split; [|split; [|split]]]].
  - apply (Permutation_NoDup (l := map fst st)); [|apply tally_NoDup].
    rewrite <- (map_ext _ _ (record_of_condition L R)), <- map_map.
    apply Permutation_map. symmetry.
    etransitivity; [apply sort_perm|]. apply Permutation_map, obj_entries_perm.
  - apply (StronglySorted_weaken (fun a b => Comparator.by_total a b = false)).
    + intros a b _ _ H. unfold Comparator.by_total in H. apply Z.ltb_ge in H. lia.
    + apply sort_sorted; unfold Comparator.by_total.
      * intros a b H. apply Z.ltb_lt in H. apply Z.ltb_ge. lia.
      * intros a b c H1 H2. apply Z.ltb_ge in H1, H2. apply Z.ltb_ge. lia.
  - intros r Hin. apply (proj1 (sort_In _ _ _)) in Hin. apply in_map_iff in Hin.
    destruct Hin as ([c s] & <- & Hin). apply (proj1 (obj_entries_In _ _)) in Hin.
    assert (Hc : JS.inherited c = false).
    { apply (tally_keys cc rc L R fd). change c with (fst (c, s)). now apply in_map. }
    apply (obj_In_get _ _ _ (tally_NoDup cc rc L R fd)) in Hin.
    cbn [Comparator.record_of Comparator.itemTotal Comparator.condition
         Comparator.leftLabel Comparator.rightLabel].
    pose proof (store_positive cc rc L R fd c s Hin) as Hp.
    pose proof (tally_fold cc rc L R fd c Hc) as Hok. cbv beta in Hok.
    rewrite Hin in Hok. destruct Hok as [Ht _]. rewrite <- Ht. auto.
  - intros _ c Hc Hpos.
    pose proof (tally_fold cc rc L R fd c Hc) as Hok. cbv beta in Hok.
    destruct (JS.obj_get (fold_left (Comparator.tally cc rc L R) fd []) c) as [s|] eqn:E.
    + exists (Comparator.record_of L R (c, s)). split; [|reflexivity].
      apply sort_In, in_map, obj_entries_In, obj_get_In, E.
    + cbn in Hok. lia.
  - intros _. etransitivity; [|apply (store_sum cc rc L R fd)].
    apply sum_perm.
    etransitivity; [apply Permutation_map, sort_perm|].
    rewrite map_map, (map_ext _ _ (record_of_total L R)).
    apply Permutation_map, obj_entries_perm.
  - intros [= -> ->]. exfalso.
    assert (In "" (Comparator.uniqueResponses fd rc)) as Hin
      by (unfold fd; rewrite Hu; now left).
    destruct (uniqueResponses_spec fd rc) as [_ Hs]. apply Hs in Hin. tauto.
Qed.

Lemma comparator_records_order_witness :
  let data : list DataItem :=
    [ {[ "c" := "X"; "r" := "Yes" ]}; {[ "c" := "Y"; "r" := "No" ]};
      {[ "c" := "Y"; "r" := "Yes" ]} ] in
  exists r, In r (Comparator.data (Comparator.processData data "c" "r" []))
            /\ Comparator.condition r = "Y".
Proof.
  refine (proj1 (proj2 (proj2 (proj2 (comparator_records_order
            [ {[ "c" := "X"; "r" := "Yes" ]}; {[ "c" := "Y"; "r" := "No" ]};
              {[ "c" := "Y"; "r" := "Yes" ]} ] "c" "r" [])))) _ "Y" _ _).
  - vm_compute. discriminate.
  - reflexivity.
  - vm_compute. reflexivity.
Defined.

(** ** Further edge cases *)

(** Filters whose allow-lists are all empty (what is left after every
    box has been unchecked) keep every row, in the three charts. *)
Theorem empty_allow_lists_keep_all nts (filters : Filters)
    (data : list DataItem) (pdata : list Pivot.DataItem) :
  (forall column allowed, In (column, allowed) filters -> allowed = []) ->
  Comparator.filteredData data filters = data
  /\ GroupAggregator.filteredData data filters = data
  /\ Pivot.filteredData nts pdata filters = pdata.
Proof.
  intros H. repeat split; apply filter_all; intros item _; apply forallb_entries;
    intros [c vs] Hin; now rewrite (H c vs Hin).
Qed.

Lemma empty_allow_lists_keep_all_witness :
  let data : list DataItem := [ {[ "Sex" := "F" ]}; {[ "Sex" := "M" ]} ] in
  Comparator.filteredData data [("Sex", []); ("Age", [])] = data.
Proof.
  apply (empty_allow_lists_keep_all (fun _ => "") [("Sex", []); ("Age", [])]
           [ {[ "Sex" := "F" ]}; {[ "Sex" := "M" ]} ] []).
  intros column allowed [E|[E|[]]]; now injection E.
Defined.

(** When one of the selected columns is itself named "condition", its
    value replaces the name of the group in every record of the Group
    Aggregator: the records carry a number under "condition". *)
Theorem aggregator_condition_clash data cc cols filters out r :
  In "condition" cols ->
  GroupAggregator.processData data cc cols filters = JS.Returns out ->
  In r out ->
  exists x, JS.obj_get r "condition" = Some (JS.VNum x).
Proof.
  intros Hc Hout Hin. apply (processData_record _ _ _ _ _ _ Hout) in Hin.
  destruct Hin as (g & _ & _ & ->).
  unfold group_record. eexists.
  apply (record_get
           (fun col => JS.VNum
              (GroupAggregator.reported (GroupAggregator.isNumeric data col)
                 (accumulated cc cols col g (GroupAggregator.filteredData data filters))
                 (occurrences g (tokens cc (GroupAggregator.filteredData data filters)))))
           cols g "condition" Hc).
Qed.

Lemma aggregator_condition_clash_witness :
  let r := [("condition", JS.VNum 100%float)] in
  GroupAggregator.processData [ {[ "condition" := "A" ]} ] "condition" ["condition"] []
  = JS.Returns [r]
  /\ exists x, JS.obj_get r "condition" = Some (JS.VNum x).
Proof.
  split; [vm_compute; reflexivity|].
  apply (aggregator_condition_clash [ {[ "condition" := "A" ]} ] "condition"
           ["condition"] [] [[("condition", JS.VNum 100%float)]]).
  - now left.
  - vm_compute. reflexivity.
  - now left.
Defined.

